(** * Descriptive statistics pipeline for a CRSP/Compustat equity panel

    A shallow embedding of [StockDescriptiveStats] (file [ticker/2(1).py]):
    the link-table join, the three-tier fundamentals join, the derived
    characteristics and the monthly cross-sectional statistics.

    Conventions of the embedding.
    - A DataFrame is the list of its rows, in row order; a column is a
      record field or a function of the row.  A missing cell (NaN, NaT,
      None) is [None].
    - A finite floating-point value is an exact rational ([Q]): rounding
      and overflow have no counterpart here.  The columns computed by a
      division or a logarithm, and every statistic of them, hold values
      of the type [float] below, which adds the two IEEE infinities.
    - A timestamp is a calendar date (all date columns are parsed from
      SQL dates, so the time of day is always midnight).
    - The SQL result sets are the inputs of the functions below.
    - Columns that the program fetches but never reads (permco, retx,
      vol) are left out of the row records. *)

From Stdlib Require Import ZArith QArith Qabs Qround List String Ascii Bool Lia.
From Stdlib Require Import Permutation Sorted Lqa.
From Stdlib Require Import DecimalString.
Import ListNotations.

Local Open Scope Z_scope.
Local Open Scope bool_scope.

(* ================================================================= *)
(** * Part I: the program *)

(* ----------------------------------------------------------------- *)
(** ** Calendar dates *)

Record date : Type := mkdate { dyear : Z; dmonth : Z; dday : Z }.

Definition date_compare (a b : date) : comparison :=
  match dyear a ?= dyear b with
  | Eq => match dmonth a ?= dmonth b with
          | Eq => dday a ?= dday b
          | c => c
          end
  | c => c
  end.

Definition date_leb (a b : date) : bool :=
  match date_compare a b with Gt => false | _ => true end.

Definition date_eqb (a b : date) : bool :=
  (dyear a =? dyear b) && (dmonth a =? dmonth b) && (dday a =? dday b).

Definition is_leap (y : Z) : bool :=
  (y mod 4 =? 0) && (negb (y mod 100 =? 0) || (y mod 400 =? 0)).

Definition days_in_month (y m : Z) : Z :=
  if m =? 2 then (if is_leap y then 29 else 28)
  else if (m =? 4) || (m =? 6) || (m =? 9) || (m =? 11) then 30
  else 31.

(** [d + pd.DateOffset(months=n)]: the month is advanced and the day is
    clamped to the length of the target month. *)
Definition add_months (n : Z) (d : date) : date :=
  let k := dyear d * 12 + (dmonth d - 1) + n in
  let y := k / 12 in
  let m := k mod 12 + 1 in
  mkdate y m (Z.min (dday d) (days_in_month y m)).

(** Day number of a date (days since 1970-01-01); differences of
    timestamps ([Timedelta]) are differences of day numbers. *)
Definition to_days (d : date) : Z :=
  let y := if dmonth d <=? 2 then dyear d - 1 else dyear d in
  let era := y / 400 in
  let yoe := y - era * 400 in
  let mp := (dmonth d + 9) mod 12 in
  let doy := (153 * mp + 2) / 5 + dday d - 1 in
  let doe := yoe * 365 + yoe / 4 - yoe / 100 + doy in
  era * 146097 + doe - 719468.

(* ----------------------------------------------------------------- *)
(** ** DataFrame primitives on lists of rows *)

(** [Series.fillna(other)]: a missing cell takes the other cell. *)
Definition fillna {B : Type} (a b : option B) : option B :=
  match a with Some _ => a | None => b end.

Definition notna {B : Type} (a : option B) : bool :=
  match a with Some _ => true | None => false end.

(** [Series.dropna()]. *)
Fixpoint dropna {B : Type} (l : list (option B)) : list B :=
  match l with
  | [] => []
  | Some x :: t => x :: dropna t
  | None :: t => dropna t
  end.

(** Arithmetic on cells: a missing operand gives a missing result. *)
Definition lift2 (f : Q -> Q -> Q) (a b : option Q) : option Q :=
  match a, b with Some x, Some y => Some (f x y) | _, _ => None end.

Definition cell_add : option Q -> option Q -> option Q := lift2 Qplus.
Definition cell_sub : option Q -> option Q -> option Q := lift2 Qminus.
Definition cell_mul : option Q -> option Q -> option Q := lift2 Qmult.

Definition cell_abs (a : option Q) : option Q := option_map Qabs a.

(** *** Floating-point values with the infinities

    A finite value is an exact rational; the two infinities are values of
    their own, so that a cell holding one is not missing; NaN is the
    missing cell [None].  The rationals have one zero, which stands for
    the positive zero of the floating-point numbers: the sign of a zero
    is not modelled, so that a quotient by a zero that the program holds
    as a negative zero (the product of a zero and a negative number) has
    the opposite sign there. *)
Inductive float : Type :=
| Finite (x : Q)
| PosInf
| NegInf.

Definition is_finite (v : float) : bool :=
  match v with Finite _ => true | _ => false end.

(** A cell of rationals as a cell of floating-point values. *)
Definition finite (a : option Q) : option float := option_map Finite a.

(** The sign of a value: -1, 0 or 1. *)
Definition float_sign (v : float) : Z :=
  match v with
  | Finite x => Z.sgn (Qnum x)
  | PosInf => 1
  | NegInf => -1
  end.

(** The infinity of the given sign; NaN when the sign is 0. *)
Definition infinity (sign : Z) : option float :=
  match sign with
  | Z0 => None
  | Zpos _ => Some PosInf
  | Zneg _ => Some NegInf
  end.

(** IEEE addition: the sum of the two infinities is NaN. *)
Definition float_add (a b : option float) : option float :=
  match a, b with
  | Some (Finite x), Some (Finite y) => Some (Finite (x + y))
  | Some PosInf, Some NegInf => None
  | Some NegInf, Some PosInf => None
  | Some PosInf, Some _ => Some PosInf
  | Some NegInf, Some _ => Some NegInf
  | Some _, Some v => Some v
  | _, _ => None
  end.

Definition float_opp (a : option float) : option float :=
  match a with
  | Some (Finite x) => Some (Finite (- x))
  | Some PosInf => Some NegInf
  | Some NegInf => Some PosInf
  | None => None
  end.

Definition float_sub (a b : option float) : option float :=
  float_add a (float_opp b).

(** IEEE multiplication: an infinity times zero is NaN. *)
Definition float_mul (a b : option float) : option float :=
  match a, b with
  | Some (Finite x), Some (Finite y) => Some (Finite (x * y))
  | Some u, Some v => infinity (float_sign u * float_sign v)
  | _, _ => None
  end.

(** IEEE division: [x/0] is the infinity of the sign of [x], and [0/0]
    and the quotient of two infinities are NaN. *)
Definition float_div (a b : option float) : option float :=
  match a, b with
  | Some (Finite x), Some (Finite y) =>
      if Qeq_bool y 0 then infinity (Z.sgn (Qnum x))
      else Some (Finite (x / y))
  | Some (Finite x), Some _ => Some (Finite 0)
  | Some u, Some (Finite y) =>
      infinity (float_sign u * (if Qeq_bool y 0 then 1 else Z.sgn (Qnum y)))
  | Some _, Some _ => None
  | _, _ => None
  end.

(** The order of the floating-point values. *)
Definition float_leb (a b : float) : bool :=
  match a, b with
  | Finite x, Finite y => Qle_bool x y
  | NegInf, _ => true
  | _, PosInf => true
  | _, _ => false
  end.

(** The division of two columns of finite values. *)
Definition cell_div (a b : option Q) : option float :=
  float_div (finite a) (finite b).

Section Frames.

Context {A : Type}.

(** [sort_values]: a stable sort by a total preorder given as [leb]. *)
Fixpoint insert_sorted (leb : A -> A -> bool) (x : A) (l : list A) : list A :=
  match l with
  | [] => [x]
  | y :: t => if leb x y then x :: l else y :: insert_sorted leb x t
  end.

Definition sort_values (leb : A -> A -> bool) (l : list A) : list A :=
  fold_right (insert_sorted leb) [] l.

(** [drop_duplicates(subset=..., keep='first')]: [same] tells whether
    two rows agree on the subset. *)
Fixpoint drop_dup_from (same : A -> A -> bool) (seen l : list A) : list A :=
  match l with
  | [] => []
  | x :: t =>
      if existsb (same x) seen then drop_dup_from same seen t
      else x :: drop_dup_from same (x :: seen) t
  end.

Definition drop_duplicates (same : A -> A -> bool) (l : list A) : list A :=
  drop_dup_from same [] l.

(** [is_monotonic_increasing] of a column. *)
Fixpoint is_monotonic (leb : A -> A -> bool) (l : list A) : bool :=
  match l with
  | [] => true
  | x :: t =>
      match t with
      | [] => true
      | y :: _ => leb x y && is_monotonic leb t
      end
  end.

(** Each row paired with the number of earlier rows of its group. *)
Fixpoint with_rank_from (same : A -> A -> bool) (before l : list A)
  : list (A * nat) :=
  match l with
  | [] => []
  | x :: t =>
      (x, List.length (filter (same x) before))
        :: with_rank_from same (x :: before) t
  end.

(** [df.groupby(key)[col].f()] for an [f] that keeps the group's
    length (shift, rolling, transform): every row receives the cell of
    [f] at its own position in its group. *)
Definition groupby_transform {B : Type} (same : A -> A -> bool)
    (f : list A -> list (option B)) (df : list A) : list (option B) :=
  map (fun xj => nth (snd xj) (f (filter (same (fst xj)) df)) None)
      (with_rank_from same [] df).

End Frames.

(** [Series.unique()]: the distinct values in order of first appearance. *)
Definition unique {K : Type} (eqb : K -> K -> bool) (l : list K) : list K :=
  drop_duplicates eqb l.

(** [str.strip()] (on ASCII white space). *)
Definition is_space (c : ascii) : bool :=
  let n := N_of_ascii c in
  ((n =? 32) || ((9 <=? n) && (n <=? 13)) || ((28 <=? n) && (n <=? 31)))%N.

Fixpoint lstrip (s : string) : string :=
  match s with
  | EmptyString => EmptyString
  | String c t => if is_space c then lstrip t else s
  end.

Fixpoint rstrip (s : string) : string :=
  match s with
  | EmptyString => EmptyString
  | String c t =>
      match rstrip t with
      | EmptyString => if is_space c then EmptyString else String c EmptyString
      | t' => String c t'
      end
  end.

Definition strip (s : string) : string := lstrip (rstrip s).

(** [astype(str)] of a key column. *)
Definition astype_str (g : option string) : string :=
  match g with Some s => s | None => "nan"%string end.

Definition string_leb (a b : string) : bool :=
  match String.compare a b with Gt => false | _ => true end.

(* ----------------------------------------------------------------- *)
(** ** The link table ([get_ccm_link]) *)

Record ccm_row : Type := mk_ccm {
  ccm_gvkey : option string;
  ccm_permno : Z;
  ccm_linktype : string;
  ccm_linkprim : string;
  ccm_linkdt : option date;
  ccm_linkenddt : option date
}.

(** The [WHERE] clause of the link query. *)
Definition ccm_where (l : ccm_row) : bool :=
  (String.eqb (ccm_linktype l) "LU" || String.eqb (ccm_linktype l) "LC")
  && (String.eqb (ccm_linkprim l) "P" || String.eqb (ccm_linkprim l) "C").

Definition open_ended : date := mkdate 2024 12 31.

Definition get_ccm_link (linktable : list ccm_row) : list ccm_row :=
  map (fun l => mk_ccm (ccm_gvkey l) (ccm_permno l) (ccm_linktype l)
                       (ccm_linkprim l) (ccm_linkdt l)
                       (fillna (ccm_linkenddt l) (Some open_ended)))
      (filter ccm_where linktable).

(* ----------------------------------------------------------------- *)
(** ** Security observations ([get_stock_data]) *)

Record crsp_row : Type := mk_crsp {
  crsp_permno : Z;
  crsp_date : date;
  crsp_ticker : string;
  crsp_ret : option Q;
  crsp_prc : option Q;
  crsp_shrout : option Q
}.

Definition same_permno_date (a b : crsp_row) : bool :=
  (crsp_permno a =? crsp_permno b) && date_eqb (crsp_date a) (crsp_date b).

(** The concatenated chunks, duplicates on (permno, date) dropped. *)
Definition get_crsp_data (chunks : list (list crsp_row)) : list crsp_row :=
  drop_duplicates same_permno_date (List.concat chunks).

(* ----------------------------------------------------------------- *)
(** ** Step 1 of [calculate_indicators]: the link join *)

(** [crsp_data.merge(ccm_link, on='permno', how='left')]: every
    observation is paired with each link row of its permno, in link-table
    order, or with an all-missing link when there is none. *)
Definition merge_on_permno (crsp : list crsp_row) (links : list ccm_row)
  : list (crsp_row * option ccm_row) :=
  flat_map
    (fun r =>
       match filter (fun l => ccm_permno l =? crsp_permno r) links with
       | [] => [(r, None)]
       | ls => map (fun l => (r, Some l)) ls
       end)
    crsp.

Definition date_in_link (d : date) (l : ccm_row) : bool :=
  match ccm_linkdt l with Some a => date_leb a d | None => false end
  && match ccm_linkenddt l with Some b => date_leb d b | None => false end
  && notna (ccm_gvkey l).

(** The row filter [date >= linkdt & date <= linkenddt & gvkey.notna()]. *)
Definition link_filter (x : crsp_row * option ccm_row) : bool :=
  match snd x with
  | None => false
  | Some l => date_in_link (crsp_date (fst x)) l
  end.

Record crsp_ccm_row : Type := mk_cc {
  cc_obs : crsp_row;
  cc_link : option ccm_row;
  cc_gvkey : string
}.

Definition cc_date (x : crsp_ccm_row) : date := crsp_date (cc_obs x).
Definition cc_permno (x : crsp_ccm_row) : Z := crsp_permno (cc_obs x).

Definition to_crsp_ccm (x : crsp_row * option ccm_row) : crsp_ccm_row :=
  mk_cc (fst x) (snd x)
        (astype_str (match snd x with Some l => ccm_gvkey l | None => None end)).

(** The link join with the gvkey column converted by [astype(str)]. *)
Definition link_join (crsp : list crsp_row) (links : list ccm_row)
  : list crsp_ccm_row :=
  map to_crsp_ccm (filter link_filter (merge_on_permno crsp links)).

Definition cc_leb (a b : crsp_ccm_row) : bool :=
  match String.compare (cc_gvkey a) (cc_gvkey b) with
  | Lt => true
  | Gt => false
  | Eq => date_leb (cc_date a) (cc_date b)
  end.

Definition cc_same_key (a b : crsp_ccm_row) : bool :=
  String.eqb (cc_gvkey a) (cc_gvkey b) && date_eqb (cc_date a) (cc_date b).

(** Sorted by (gvkey, date), duplicates on (gvkey, date) dropped. *)
Definition prepare_crsp_ccm (l : list crsp_ccm_row) : list crsp_ccm_row :=
  drop_duplicates cc_same_key (sort_values cc_leb l).

(* ----------------------------------------------------------------- *)
(** ** Step 2: fundamentals and book equity *)

Record funda_row : Type := mk_funda {
  fd_gvkey : string;
  fd_datadate : date;
  fd_at : option Q;
  fd_lt : option Q;
  fd_pstk : option Q;
  fd_ceq : option Q;
  fd_txditc : option Q;
  fd_pstkrv : option Q;
  fd_seq : option Q;
  fd_pstkl : option Q
}.

Definition zero_cell : option Q := Some 0%Q.

(** [comp['txditc'].fillna(0)]. *)
Definition txditc (r : funda_row) : option Q := fillna (fd_txditc r) zero_cell.

(** [comp['ps']]: redemption, else liquidation, else par value, else 0. *)
Definition ps (r : funda_row) : option Q :=
  fillna (fillna (fillna (fd_pstkrv r) (fd_pstkl r)) (fd_pstk r)) zero_cell.

(** [comp['se']]. *)
Definition se (r : funda_row) : option Q :=
  fillna
    (fillna
       (fillna (fd_seq r) (cell_add (fd_ceq r) (fillna (fd_pstk r) zero_cell)))
       (cell_sub (fd_at r) (fd_lt r)))
    zero_cell.

(** [comp['be'] = se + txditc - ps]. *)
Definition be (r : funda_row) : option Q :=
  cell_sub (cell_add (se r) (txditc r)) (ps r).

(** The comparison [cell > 0] (false on a missing cell). *)
Definition positive (a : option Q) : bool :=
  match a with Some x => negb (Qle_bool x 0) | None => false end.

Record comp_row : Type := mk_comp {
  cp_src : funda_row;
  cp_gvkey : string;
  cp_be : option Q;
  cp_available_date : date
}.

Definition cp_datadate (c : comp_row) : date := fd_datadate (cp_src c).

(** Records with positive book equity, stamped with the date from which
    they are taken to be public (statement date plus six months). *)
Definition process_comp (funda : list funda_row) : list comp_row :=
  map (fun r => mk_comp r (fd_gvkey r) (be r) (add_months 6 (fd_datadate r)))
      (filter (fun r => positive (be r)) funda).

Definition cp_leb (a b : comp_row) : bool :=
  match String.compare (cp_gvkey a) (cp_gvkey b) with
  | Lt => true
  | Gt => false
  | Eq => date_leb (cp_available_date a) (cp_available_date b)
  end.

Definition cp_same_key (a b : comp_row) : bool :=
  String.eqb (cp_gvkey a) (cp_gvkey b)
  && date_eqb (cp_available_date a) (cp_available_date b).

(** Sorted by (gvkey, available_date), duplicates on that key dropped. *)
Definition prepare_comp (l : list comp_row) : list comp_row :=
  drop_duplicates cp_same_key (sort_values cp_leb l).

(* ----------------------------------------------------------------- *)
(** ** Step 3: the three join strategies *)

(** A row of [merged]: the observation, the matched availability date
    (a column only the first two strategies produce) and the matched
    book equity. *)
Record merged_row : Type := mk_merged {
  m_row : crsp_ccm_row;
  m_available_date : option date;
  m_be : option Q
}.

Definition unmatched (l : crsp_ccm_row) : merged_row := mk_merged l None None.

Definition matched (l : crsp_ccm_row) (c : comp_row) : merged_row :=
  mk_merged l (Some (cp_available_date c)) (cp_be c).

(** *** Strategy 1: [pd.merge_asof] *)

Definition tolerance_days : Z := 365 * 5.

(** The backward search of [merge_asof] with a [by] key: the last row of
    the right frame with the left row's key and an [on] value not after
    the left row's. *)
Definition asof_step (l : crsp_ccm_row) (found : option comp_row)
    (c : comp_row) : option comp_row :=
  if String.eqb (cp_gvkey c) (cc_gvkey l)
     && date_leb (cp_available_date c) (cc_date l)
  then Some c else found.

Definition asof_backward (l : crsp_ccm_row) (right : list comp_row)
  : option comp_row :=
  fold_left (asof_step l) right None.

Definition within_tolerance (l : crsp_ccm_row) (c : comp_row) : bool :=
  to_days (cc_date l) - to_days (cp_available_date c) <=? tolerance_days.

(** [pd.merge_asof(left, right, left_on='date', right_on='available_date',
    by='gvkey', direction='backward', tolerance=5*365 days)]: it raises
    ([None]) unless both [on] columns are sorted over the whole frame;
    otherwise every left row is kept, matched or not. *)
Definition merge_asof (left : list crsp_ccm_row) (right : list comp_row)
  : option (list merged_row) :=
  if is_monotonic date_leb (map cc_date left)
     && is_monotonic date_leb (map cp_available_date right)
  then
    Some (map (fun l =>
                 match asof_backward l right with
                 | Some c => if within_tolerance l c then matched l c
                             else unmatched l
                 | None => unmatched l
                 end) left)
  else None.

(** [frame.groupby('gvkey')[col].is_monotonic_increasing.all()]. *)
Definition groups_monotonic {A : Type} (key : A -> string) (val : A -> date)
    (l : list A) : bool :=
  forallb
    (fun g => is_monotonic date_leb
                (map val (filter (fun x => String.eqb (key x) g) l)))
    (unique String.eqb (map key l)).

Definition strip_cc (x : crsp_ccm_row) : crsp_ccm_row :=
  mk_cc (cc_obs x) (cc_link x) (strip (cc_gvkey x)).

Definition strip_cp (c : comp_row) : comp_row :=
  mk_comp (cp_src c) (strip (cp_gvkey c)) (cp_be c) (cp_available_date c).

(** The first [try] block; [None] is any raised exception. *)
Definition tier1 (crsp_ccm : list crsp_ccm_row) (comp : list comp_row)
  : option (list merged_row) :=
  let crsp_clean := sort_values cc_leb (map strip_cc crsp_ccm) in
  let comp_clean := sort_values cp_leb (map strip_cp comp) in
  if groups_monotonic cc_gvkey cc_date crsp_clean
     && groups_monotonic cp_gvkey cp_available_date comp_clean
  then merge_asof crsp_clean comp_clean
  else None.

(** *** Strategy 2: binary search within each gvkey *)

(** The bisection of [np.searchsorted(a, v, side='right')] on the index
    range [lo, hi). *)
Fixpoint bisect_right (fuel : nat) (a : list date) (v : date) (lo hi : nat)
  : nat :=
  match fuel with
  | O => lo
  | S fuel' =>
      if (lo <? hi)%nat then
        let mid := (lo + (hi - lo) / 2)%nat in
        match nth_error a mid with
        | Some x =>
            if date_leb x v then bisect_right fuel' a v (S mid) hi
            else bisect_right fuel' a v lo mid
        | None => lo
        end
      else lo
  end.

Definition searchsorted_right (a : list date) (v : date) : nat :=
  bisect_right (List.length a) a v 0 (List.length a).

Definition date_col_leb {A : Type} (val : A -> date) (a b : A) : bool :=
  date_leb (val a) (val b).

(** The two frames restricted to one gvkey and sorted on the date. *)
Definition crsp_subset_of (crsp_ccm : list crsp_ccm_row) (gvkey : string)
  : list crsp_ccm_row :=
  sort_values (date_col_leb cc_date)
    (filter (fun x => String.eqb (cc_gvkey x) gvkey) crsp_ccm).

Definition comp_subset_of (comp : list comp_row) (gvkey : string)
  : list comp_row :=
  sort_values (date_col_leb cp_available_date)
    (filter (fun c => String.eqb (cp_gvkey c) gvkey) comp).

(** The body of the loop over [crsp_ccm['gvkey'].unique()]: the rows
    appended to [merged_list] for one gvkey (none when the loop
    continues or no observation finds a record). *)
Definition tier2_group (crsp_ccm : list crsp_ccm_row) (comp : list comp_row)
    (gvkey : string) : list merged_row :=
  let crsp_subset := crsp_subset_of crsp_ccm gvkey in
  let comp_subset := comp_subset_of comp gvkey in
  let comp_dates := map cp_available_date comp_subset in
  flat_map
    (fun l =>
       let index := Z.of_nat (searchsorted_right comp_dates (cc_date l)) - 1 in
       if 0 <=? index then
         match nth_error comp_subset (Z.to_nat index) with
         | Some c => [matched l c]
         | None => []
         end
       else [])
    crsp_subset.

Definition nonempty {A : Type} (l : list A) : bool :=
  match l with [] => false | _ => true end.

(** The second [try] block; [None] is the [ValueError] raised on an
    empty [merged_list]. *)
Definition tier2 (crsp_ccm : list crsp_ccm_row) (comp : list comp_row)
  : option (list merged_row) :=
  let merged_list :=
    filter nonempty
      (map (tier2_group crsp_ccm comp)
           (unique String.eqb (map cc_gvkey crsp_ccm))) in
  match merged_list with
  | [] => None
  | _ => Some (List.concat merged_list)
  end.

(** *** Strategy 3: match on the calendar year *)

Definition cp_year (c : comp_row) : Z := dyear (cp_datadate c).

Definition yearly_leb (a b : comp_row) : bool :=
  match String.compare (cp_gvkey a) (cp_gvkey b) with
  | Lt => true
  | Gt => false
  | Eq =>
      match cp_year a ?= cp_year b with
      | Lt => true
      | Gt => false
      | Eq => date_leb (cp_datadate a) (cp_datadate b)
      end
  end.

Definition same_gvkey_year (a b : comp_row) : bool :=
  String.eqb (cp_gvkey a) (cp_gvkey b) && (cp_year a =? cp_year b).

(** [GroupBy.last()] of a column: the last non-missing cell. *)
Definition last_notna {B : Type} (col : list (option B)) : option B :=
  last (map Some (dropna col)) None.

Record yearly_row : Type := mk_yearly {
  y_gvkey : string;
  y_year : Z;
  y_be : option Q
}.

(** [comp.sort_values(['gvkey','year','datadate'])
        .groupby(['gvkey','year']).last()], columns gvkey, year, be. *)
Definition comp_yearly (comp : list comp_row) : list yearly_row :=
  let sorted := sort_values yearly_leb comp in
  map (fun k => mk_yearly (cp_gvkey k) (cp_year k)
                  (last_notna (map cp_be (filter (same_gvkey_year k) sorted))))
      (unique same_gvkey_year sorted).

(** The left merge on (gvkey, year) followed by [be.notna()]. *)
Definition tier3 (crsp_ccm : list crsp_ccm_row) (comp : list comp_row)
  : list merged_row :=
  let yearly := comp_yearly comp in
  filter (fun m => notna (m_be m))
    (flat_map
       (fun l =>
          match filter (fun k => String.eqb (y_gvkey k) (cc_gvkey l)
                                 && (y_year k =? dyear (cc_date l))) yearly with
          | [] => [unmatched l]
          | ks => map (fun k => mk_merged l None (y_be k)) ks
          end)
       crsp_ccm).

(** *** The fallback ladder *)

Inductive tier : Type := Tier1 | Tier2 | Tier3.

(** The strategy that produced [merged], with its rows; [None] when the
    last strategy is empty too ([return False]). *)
Definition join_ladder (crsp_ccm : list crsp_ccm_row) (comp : list comp_row)
  : option (tier * list merged_row) :=
  match tier1 crsp_ccm comp with
  | Some m => Some (Tier1, m)
  | None =>
      match tier2 crsp_ccm comp with
      | Some m => Some (Tier2, m)
      | None =>
          match tier3 crsp_ccm comp with
          | [] => None
          | m => Some (Tier3, m)
          end
      end
  end.

(** [merged = merged[merged['be'].notna()]], failing when empty. *)
Definition joined_panel (crsp_ccm : list crsp_ccm_row) (comp : list comp_row)
  : option (tier * list merged_row) :=
  match join_ladder crsp_ccm comp with
  | None => None
  | Some (t, m) =>
      match filter (fun r => notna (m_be r)) m with
      | [] => None
      | m' => Some (t, m')
      end
  end.

(** Steps 1 to 3 of [calculate_indicators] on the fetched tables. *)
Definition merge_all (crsp_data : list crsp_row) (comp_data : list funda_row)
    (ccm_link : list ccm_row) : option (tier * list merged_row) :=
  match link_join crsp_data ccm_link with
  | [] => None
  | crsp_ccm =>
      joined_panel (prepare_crsp_ccm crsp_ccm)
                   (prepare_comp (process_comp comp_data))
  end.

(* ----------------------------------------------------------------- *)
(** ** Step 4: the characteristics *)

Definition m_permno (m : merged_row) : Z := cc_permno (m_row m).
Definition m_date (m : merged_row) : date := cc_date (m_row m).
Definition m_ret (m : merged_row) : option Q := crsp_ret (cc_obs (m_row m)).
Definition m_prc (m : merged_row) : option Q := crsp_prc (cc_obs (m_row m)).
Definition m_shrout (m : merged_row) : option Q :=
  crsp_shrout (cc_obs (m_row m)).

Definition permno_date_leb (a b : merged_row) : bool :=
  match m_permno a ?= m_permno b with
  | Lt => true
  | Gt => false
  | Eq => date_leb (m_date a) (m_date b)
  end.

Definition same_permno (a b : merged_row) : bool := m_permno a =? m_permno b.

Definition same_period (a b : merged_row) : bool :=
  (dyear (m_date a) =? dyear (m_date b))
  && (dmonth (m_date a) =? dmonth (m_date b)).

(** [Series.shift(1)]. *)
Definition shift1 {B : Type} (col : list (option B)) : list (option B) :=
  match col with
  | [] => []
  | _ => None :: removelast col
  end.

(** The rows of a rolling window of the given size ending at row [i]. *)
Definition window_at {B : Type} (size : nat) (col : list B) (i : nat) : list B :=
  skipn (S i - size) (firstn (S i) col).

(** [Series.rolling(window, min_periods).apply(f)]: the cell is missing
    unless the window holds at least [min_periods] non-missing cells. *)
Definition rolling_apply (window min_periods : nat)
    (f : list (option Q) -> Q) (col : list (option Q)) : list (option Q) :=
  map (fun i =>
         let w := window_at window col i in
         if (min_periods <=? List.length (dropna w))%nat then Some (f w)
         else None)
      (seq 0 (List.length col)).

(** [lambda x: (1 + x).prod() - 1] ([prod] skips missing cells). *)
Definition compound (x : list (option Q)) : Q :=
  (fold_left Qmult (map (fun r => 1 + r) (dropna x)) 1 - 1)%Q.

Record df_row : Type := mk_df {
  df_m : merged_row;
  df_prc_abs : option Q;
  df_me : option Q;
  df_bm : option float;
  df_size : option float;
  df_ret_lag1 : option Q;
  df_ret_cumulative : option Q;
  df_mom : option Q;
  df_year : Z;
  df_month : Z;
  df_n : Z
}.

Record final_row : Type := mk_final {
  fr_permno : Z;
  fr_ticker : string;
  fr_date : date;
  fr_year : Z;
  fr_month : Z;
  fr_ret : option Q;
  fr_size : option float;
  fr_bm : option float;
  fr_mom : option Q;
  fr_n : Z
}.

(** [df[final_columns]]. *)
Definition select_final (r : df_row) : final_row :=
  mk_final (m_permno (df_m r)) (crsp_ticker (cc_obs (m_row (df_m r))))
           (m_date (df_m r)) (df_year r) (df_month r) (m_ret (df_m r))
           (df_size r) (df_bm r) (df_mom r) (df_n r).

(** [dropna(subset=['ret','size','bm'])]. *)
Definition complete (r : final_row) : bool :=
  notna (fr_ret r) && notna (fr_size r) && notna (fr_bm r).

Section Indicators.

(** [np.log] on a non-missing cell; its result is missing (NaN) for a
    negative argument and the negative infinity at zero. *)
Variable np_log : Q -> option float.

Definition prc_abs (m : merged_row) : option Q := cell_abs (m_prc m).

Definition me (m : merged_row) : option Q :=
  cell_mul (prc_abs m) (m_shrout m).

Definition bm (m : merged_row) : option float :=
  cell_div (cell_mul (m_be m) (Some 1000%Q)) (me m).

Definition size (m : merged_row) : option float :=
  match me m with Some x => np_log x | None => None end.

(** The frame [df] at the end of step 4, before the column selection. *)
Definition indicators (merged : list merged_row) : list df_row :=
  let df := sort_values permno_date_leb merged in
  let ret_lag1 :=
    groupby_transform same_permno (fun g => shift1 (map m_ret g)) df in
  let ret_cumulative :=
    groupby_transform same_permno
      (fun g => rolling_apply 12 8 compound (map m_ret g)) df in
  map (fun row =>
         let m := fst row in
         let lag := fst (snd row) in
         let cum := snd (snd row) in
         mk_df m (prc_abs m) (me m) (bm m) (size m) lag cum
               (cell_sub cum lag)
               (dyear (m_date m)) (dmonth (m_date m))
               (Z.of_nat (List.length (filter (same_period m) df))))
      (combine df (combine ret_lag1 ret_cumulative)).

Definition final_stats (merged : list merged_row) : list final_row :=
  filter complete (map select_final (indicators merged)).

(** [calculate_indicators]: [None] is [return False]. *)
Definition calculate_indicators (crsp_data : list crsp_row)
    (comp_data : list funda_row) (ccm_link : list ccm_row)
  : option (list final_row) :=
  match merge_all crsp_data comp_data ccm_link with
  | None => None
  | Some (_, merged) => Some (final_stats merged)
  end.

End Indicators.

(* ----------------------------------------------------------------- *)
(** ** [calculate_descriptive_stats]: monthly cross-sections *)

Definition extended_percentiles : list Q :=
  [0.01; 0.02; 0.03; 0.04; 0.05; 0.10; 0.15; 0.20; 0.25; 0.30; 0.35; 0.40;
   0.45; 0.50; 0.55; 0.60; 0.65; 0.70; 0.75; 0.80; 0.85; 0.90; 0.95; 0.96;
   0.97; 0.98; 0.99]%Q.

(** The number in the key [f'p{int(p * 100)}']. *)
Definition pct_label (p : Q) : Z := Qfloor (p * 100).

(** The sum of a series without missing cells. *)
Definition series_sum (data : list float) : option float :=
  fold_left float_add (map Some data) (Some (Finite 0)).

(** [Series.mean()]: the sum divided by the count (NaN on no data). *)
Definition series_mean (data : list float) : option float :=
  match data with
  | [] => None
  | _ =>
      float_div (series_sum data)
                (Some (Finite (inject_Z (Z.of_nat (List.length data)))))
  end.

Definition float_min (a b : float) : float := if float_leb a b then a else b.
Definition float_max (a b : float) : float := if float_leb a b then b else a.

Definition series_min (data : list float) : option float :=
  match data with
  | [] => None
  | x :: t => Some (fold_left float_min t x)
  end.

Definition series_max (data : list float) : option float :=
  match data with
  | [] => None
  | x :: t => Some (fold_left float_max t x)
  end.

Definition clip (i lo hi : Z) : Z := Z.max lo (Z.min i hi).

(** The interpolation [_lerp(a, b, t)] of numpy: [a + (b - a) * t],
    computed as [b - (b - a) * (1 - t)] when [t >= 0.5].  With an
    infinite [a] or [b] the difference or a product is NaN or infinite. *)
Definition lerp (a b : float) (t : Q) : option float :=
  let diff_b_a := float_sub (Some b) (Some a) in
  if Qle_bool (1 # 2) t
  then float_sub (Some b) (float_mul diff_b_a (Some (Finite (1 - t))))
  else float_add (Some a) (float_mul diff_b_a (Some (Finite t))).

(** [np.percentile(data, q)] with the default (linear) method on data
    without missing cells: the value at the fractional position
    [(n - 1) * q / 100] of the sorted data, interpolated between its two
    neighbouring order statistics.  The outer [None] is the [IndexError]
    that reading an order statistic of an empty array raises; the inner
    one is NaN. *)
Definition np_percentile (data : list float) (q : Q)
  : option (option float) :=
  let arr := sort_values float_leb data in
  let n := Z.of_nat (List.length arr) in
  let virtual := (inject_Z (n - 1) * (q / 100))%Q in
  let previous := Qfloor virtual in
  let gamma := (virtual - inject_Z previous)%Q in
  match nth_error arr (Z.to_nat (clip previous 0 (n - 1))),
        nth_error arr (Z.to_nat (clip (previous + 1) 0 (n - 1))) with
  | Some lower, Some upper => Some (lerp lower upper gamma)
  | _, _ => None
  end.

(** The percentiles of the given levels, each under its key, in the
    order of the levels; [None] when [np.percentile] raises. *)
Fixpoint percentile_items {K : Type} (key : Q -> K) (data : list float)
    (levels : list Q) : option (list (K * option float)) :=
  match levels with
  | [] => Some []
  | p :: rest =>
      match np_percentile data (p * 100) with
      | None => None
      | Some v =>
          option_map (cons (key p, v)) (percentile_items key data rest)
      end
  end.

Record cs_stats : Type := mk_stats {
  st_count : Z;
  st_mean : option float;
  st_std : option float;
  st_min : option float;
  st_max : option float;
  st_skew : option float;
  st_kurt : option float;
  st_percentiles : list (Z * option float)
}.

Definition period : Type := (Z * Z)%type.

Definition fr_period (r : final_row) : period := (fr_year r, fr_month r).

Definition period_eqb (a b : period) : bool :=
  (fst a =? fst b) && (snd a =? snd b).

Definition period_leb (a b : period) : bool :=
  match fst a ?= fst b with
  | Lt => true
  | Gt => false
  | Eq => snd a <=? snd b
  end.

(** [final_stats.groupby(['year','month'])]: the groups in key order. *)
Definition groupby_period (final : list final_row)
  : list (period * list final_row) :=
  map (fun k => (k, filter (fun r => period_eqb (fr_period r) k) final))
      (sort_values period_leb (unique period_eqb (map fr_period final))).

Section Aggregation.

(** [Series.std()], [Series.skew()] and [Series.kurtosis()] of pandas on
    a series without missing cells. *)
Variable series_std : list float -> option float.
Variable series_skew : list float -> option float.
Variable series_kurtosis : list float -> option float.

(** [calculate_cross_sectional_stats]; [None] is an exception raised by
    [np.percentile]. *)
Definition calculate_cross_sectional_stats (group : list (option float))
  : option cs_stats :=
  let data := dropna group in
  match data with
  | [] =>
      Some (mk_stats 0 None None None None None None
              (map (fun p => (pct_label p, None)) extended_percentiles))
  | _ =>
      match percentile_items pct_label data extended_percentiles with
      | None => None
      | Some percentiles =>
          Some (mk_stats (Z.of_nat (List.length data))
                  (series_mean data) (series_std data)
                  (series_min data) (series_max data)
                  (if (3 <=? List.length data)%nat then series_skew data
                   else None)
                  (if (4 <=? List.length data)%nat then series_kurtosis data
                   else None)
                  percentiles)
      end
  end.

(** [GroupBy.apply(f)]: [f] on every group in turn, the groups under
    their keys; [None] when [f] raises on a group. *)
Fixpoint apply_groups {K G S : Type} (f : G -> option S)
    (groups : list (K * G)) : option (list (K * S)) :=
  match groups with
  | [] => Some []
  | kg :: rest =>
      match f (snd kg) with
      | None => None
      | Some s => option_map (cons (fst kg, s)) (apply_groups f rest)
      end
  end.

(** [final_stats.groupby(['year','month'])[var]
      .apply(calculate_cross_sectional_stats).unstack()]: one row of
    statistics per period. *)
Definition monthly_cross_sectional (var : final_row -> option float)
    (final : list final_row) : option (list (period * cs_stats)) :=
  apply_groups (fun g => calculate_cross_sectional_stats (map var g))
               (groupby_period final).

End Aggregation.

(* ----------------------------------------------------------------- *)
(** ** [load_tickers] *)

(** The frame read from the ticker file: its columns in file order, each
    with its name and its cells. *)
Definition csv_frame : Type := list (string * list (option string)).

Definition possible_columns : list string :=
  ["ticker"; "TICKER"; "symbol"; "SYMBOL"; "permno"; "PERMNO"]%string.

(** [col in ticker_df.columns]. *)
Definition has_column (df : csv_frame) (col : string) : bool :=
  existsb (fun c => String.eqb col (fst c)) df.

(** The column the tickers are read from: the first of
    [possible_columns] that the file has, else the first column of the
    file; [None] is the [IndexError] of [columns[0]] on a file without
    columns. *)
Definition ticker_column (df : csv_frame) : option string :=
  match find (has_column df) possible_columns with
  | Some col => Some col
  | None =>
      match df with
      | [] => None
      | c :: _ => Some (fst c)
      end
  end.

(** [ticker_df[col]]. *)
Definition get_column (df : csv_frame) (col : string)
  : option (list (option string)) :=
  option_map snd (find (fun c => String.eqb col (fst c)) df).

Section TickerFile.

(** [pd.read_csv] on the file system the program runs on: the frame read
    from a path, or [None] when it raises (a missing or unreadable file,
    a file without columns). *)
Variable read_csv : string -> option csv_frame.

(** [load_tickers]: the value of [self.tickers], or [None] for
    [return False], which every exception of the body leads to. *)
Definition load_tickers (ticker_csv_path : string) : option (list string) :=
  match read_csv ticker_csv_path with
  | None => None
  | Some ticker_df =>
      match ticker_column ticker_df with
      | None => None
      | Some col =>
          match get_column ticker_df col with
          | None => None
          | Some cells => Some (unique String.eqb (dropna cells))
          end
      end
  end.

End TickerFile.

(* ----------------------------------------------------------------- *)
(** ** [get_stock_data] *)

Definition chunk_size : nat := 500.

(** [range(0, stop, step)]. *)
Definition py_range (stop step : nat) : list nat :=
  map (fun k => (k * step)%nat) (seq 0 ((stop + step - 1) / step)).

(** The slice [l[i:j]]. *)
Definition slice {A : Type} (l : list A) (i j : nat) : list A :=
  firstn (j - i) (skipn i l).

(** The chunks [self.tickers[i:i + chunk_size]] of the query loop. *)
Definition ticker_chunks (tickers : list string) : list (list string) :=
  map (fun i => slice tickers i (i + chunk_size))
      (py_range (List.length tickers) chunk_size).

Section Database.

(** The database, as [db.raw_sql] answers the three queries: the rows of
    the link table, the CRSP rows of a chunk of tickers and the Compustat
    rows; [None] is a raised exception (a lost connection, a refused
    query). *)
Variable linktable : option (list ccm_row).
Variable crsp_query : list string -> option (list crsp_row).
Variable comp_query : option (list funda_row).

(** The loop over the chunks: the non-empty answers in order; [None]
    when a query raises. *)
Fixpoint query_chunks (chunks : list (list string))
  : option (list (list crsp_row)) :=
  match chunks with
  | [] => Some []
  | chunk :: rest =>
      match crsp_query chunk with
      | None => None
      | Some stock_chunk =>
          match query_chunks rest with
          | None => None
          | Some all_crsp_data =>
              Some (if nonempty stock_chunk then stock_chunk :: all_crsp_data
                    else all_crsp_data)
          end
      end
  end.

(** [get_stock_data]: the three tables, or [None] for [return False]:
    no ticker, a failed [get_ccm_link], an exception in the CRSP block,
    no chunk with data, or an exception in the Compustat block. *)
Definition get_stock_data (tickers : list string)
  : option (list ccm_row * list crsp_row * list funda_row) :=
  match tickers with
  | [] => None
  | _ =>
      match linktable with
      | None => None
      | Some rows =>
          let ccm_link := get_ccm_link rows in
          match query_chunks (ticker_chunks tickers) with
          | None => None
          | Some [] => None
          | Some all_crsp_data =>
              match comp_query with
              | None => None
              | Some comp_data =>
                  Some (ccm_link, get_crsp_data all_crsp_data, comp_data)
              end
          end
      end
  end.

End Database.

(* ----------------------------------------------------------------- *)
(** ** Dictionaries with string keys *)

Section Dicts.

Context {V : Type}.

(** [d[k] = v]: an existing key keeps its place. *)
Fixpoint dict_set (k : string) (v : V) (d : list (string * V))
  : list (string * V) :=
  match d with
  | [] => [(k, v)]
  | kv :: t =>
      if String.eqb k (fst kv) then (k, v) :: t else kv :: dict_set k v t
  end.

(** [d.get(k)]. *)
Definition dict_get (k : string) (d : list (string * V)) : option V :=
  option_map snd (find (fun kv => String.eqb k (fst kv)) d).

(** [{**d, **items}]. *)
Definition dict_update (d items : list (string * V)) : list (string * V) :=
  fold_left (fun acc kv => dict_set (fst kv) (snd kv) acc) items d.

(** The dictionary built by setting the items in turn. *)
Definition dict_of (items : list (string * V)) : list (string * V) :=
  dict_update [] items.

End Dicts.

(** The decimal numeral of an integer, as [f'{n}'] prints it. *)
Definition string_of_Z (z : Z) : string :=
  NilZero.string_of_int (Z.to_int z).

(* ----------------------------------------------------------------- *)
(** ** [calculate_descriptive_stats]: the three levels of statistics *)

Definition variables : list string := ["ret"; "size"; "bm"; "mom"; "n"]%string.

(** [self.final_stats[var]]. *)
Definition final_column (var : string)
  : option (final_row -> option float) :=
  if String.eqb var "ret" then Some (fun r => finite (fr_ret r))
  else if String.eqb var "size" then Some fr_size
  else if String.eqb var "bm" then Some fr_bm
  else if String.eqb var "mom" then Some (fun r => finite (fr_mom r))
  else if String.eqb var "n"
       then Some (fun r => Some (Finite (inject_Z (fr_n r))))
  else None.

(** The key [f'p{int(p * 100)}'] of a level of the ladder. *)
Definition pct_key (p : Q) : string :=
  ("p" ++ string_of_Z (pct_label p))%string.

(** The statistics of one time series. *)
Record ts_stats : Type := mk_ts {
  ts_mean : option float;
  ts_std : option float;
  ts_min : option float;
  ts_max : option float;
  ts_count : Z
}.

(** A value of [results[var]]: a float, an integer or the statistics
    dictionary of a time series. *)
Inductive result_value : Type :=
| RNum (v : option float)
| RInt (n : Z)
| RStats (t : ts_stats).

(** [n_monthly]: the first period count of every month. *)
Definition n_monthly (final : list final_row) : list (period * Z) :=
  flat_map (fun kg => match snd kg with
                      | r :: _ => [(fst kg, fr_n r)]
                      | [] => []
                      end)
           (groupby_period final).

Section DescriptiveStats.

Variable series_std : list float -> option float.
Variable series_skew : list float -> option float.
Variable series_kurtosis : list float -> option float.

(** The [pd.Series] that [calculate_cross_sectional_stats] returns, by
    key. *)
Definition stats_series (s : cs_stats) : list (string * option float) :=
  dict_of
    ([("count", Some (Finite (inject_Z (st_count s)))); ("mean", st_mean s);
      ("std", st_std s); ("min", st_min s); ("max", st_max s);
      ("skew", st_skew s); ("kurt", st_kurt s)]%string
     ++ map (fun kv => (("p" ++ string_of_Z (fst kv))%string, snd kv))
            (st_percentiles s)).

(** The monthly table after [unstack]: one series per period; [None]
    when the statistics of a month raise. *)
Definition monthly_table (var : final_row -> option float)
    (final : list final_row)
  : option (list (period * list (string * option float))) :=
  option_map (map (fun ks => (fst ks, stats_series (snd ks))))
    (monthly_cross_sectional series_std series_skew series_kurtosis
       var final).

(** [monthly_cross_sectional.columns], in the order of their first
    appearance; the dictionary built from them is only ever read by key. *)
Definition table_columns
    (table : list (period * list (string * option float))) : list string :=
  unique String.eqb (flat_map (fun row => map fst (snd row)) table).

(** [monthly_cross_sectional[col]]; a key a row lacks is filled with a
    missing cell. *)
Definition table_column
    (table : list (period * list (string * option float)))
    (col : string) : list (option float) :=
  map (fun row => match dict_get col (snd row) with
                  | Some v => v
                  | None => None
                  end) table.

Definition safe_ts_stats (series : list (option float)) : ts_stats :=
  let clean_series := dropna series in
  match clean_series with
  | [] => mk_ts None None None None 0
  | _ => mk_ts (series_mean clean_series) (series_std clean_series)
               (series_min clean_series) (series_max clean_series)
               (Z.of_nat (List.length clean_series))
  end.

(** [ts_stats]: the statistics of every column of the monthly table. *)
Definition time_series_stats
    (table : list (period * list (string * option float)))
  : list (string * result_value) :=
  dict_of
    (map (fun col => (("ts_" ++ col)%string,
                      RStats (safe_ts_stats (table_column table col))))
         (table_columns table)).

(** A percentile as a value of the results. *)
Definition percentile_value (kv : string * option float)
  : string * result_value :=
  (fst kv, RNum (snd kv)).

(** [overall_stats] of the non-missing observations of a variable;
    [None] when [np.percentile] raises, as it does on no data. *)
Definition overall_stats (overall_data : list float)
  : option (list (string * result_value)) :=
  match percentile_items (fun p => ("overall_" ++ pct_key p)%string)
                         overall_data extended_percentiles with
  | None => None
  | Some percentiles =>
      Some (dict_update
              (dict_of
                 [("overall_count",
                   RInt (Z.of_nat (List.length overall_data)));
                  ("overall_mean", RNum (series_mean overall_data));
                  ("overall_std", RNum (series_std overall_data));
                  ("overall_min", RNum (series_min overall_data));
                  ("overall_max", RNum (series_max overall_data));
                  ("overall_skew",
                   RNum (if (3 <=? List.length overall_data)%nat
                         then series_skew overall_data else None));
                  ("overall_kurt",
                   RNum (if (4 <=? List.length overall_data)%nat
                         then series_kurtosis overall_data else None))]%string)
              (map percentile_value percentiles))
  end.

(** [results['n']]; [None] when [np.percentile] raises. *)
Definition results_n (final : list final_row)
  : option (list (string * result_value)) :=
  let values :=
    map (fun kn => Finite (inject_Z (snd kn))) (n_monthly final) in
  match percentile_items pct_key values extended_percentiles with
  | None => None
  | Some percentiles =>
      Some (dict_update
              (dict_of
                 [("mean", RNum (series_mean values));
                  ("std", RNum (series_std values));
                  ("min", RNum (series_min values));
                  ("max", RNum (series_max values));
                  ("count",
                   RInt (Z.of_nat (List.length (n_monthly final))))]%string)
              (map percentile_value percentiles))
  end.

(** [results[var]] for the other variables:
    [{**ts_stats, **overall_stats}]; [None] when one of the two raises. *)
Definition results_var (var : final_row -> option float)
    (final : list final_row) : option (list (string * result_value)) :=
  match monthly_table var final with
  | None => None
  | Some table =>
      match overall_stats (dropna (map var final)) with
      | None => None
      | Some overall => Some (dict_update (time_series_stats table) overall)
      end
  end.

(** The loop over [variables]; [None] is an exception: a [KeyError] on
    a column or an exception of the statistics of a variable. *)
Fixpoint results_of (vars : list string) (final : list final_row)
    (results : list (string * list (string * result_value)))
  : option (list (string * list (string * result_value))) :=
  match vars with
  | [] => Some results
  | var :: rest =>
      match (if String.eqb var "n" then results_n final
             else match final_column var with
                  | None => None
                  | Some col => results_var col final
                  end) with
      | None => None
      | Some stats => results_of rest final (dict_set var stats results)
      end
  end.

End DescriptiveStats.

(* ----------------------------------------------------------------- *)
(** ** The report tables *)

(** [_get_variable_description]. *)
Definition _get_variable_description (var : string) : string :=
  match dict_get var
          [("ret", "月度股票收益率"); ("size", "市值对数");
           ("bm", "账面市值比"); ("mom", "动量指标(过去11个月收益率)")]%string
  with
  | Some description => description
  | None => var
  end.

(** A cell of a report table: a text or a value of the results. *)
Inductive cell : Type :=
| CText (s : string)
| CValue (v : result_value).

Record percentile_row : Type := mk_percentile_row {
  pr_variable : string;
  pr_percentile : string;
  pr_percentile_value : Q;
  pr_overall_value : result_value;
  pr_description : string
}.

(** The rows of one variable in the percentile table; [None] is the
    [KeyError] of [stats[f'overall_p{p_int}']]. *)
Fixpoint percentile_rows (var : string) (stats : list (string * result_value))
    (percentiles : list Q) : option (list percentile_row) :=
  match percentiles with
  | [] => Some []
  | p :: rest =>
      let p_int := string_of_Z (pct_label p) in
      match dict_get ("overall_p" ++ p_int)%string stats with
      | None => None
      | Some value =>
          match percentile_rows var stats rest with
          | None => None
          | Some rows =>
              Some (mk_percentile_row var ("P" ++ p_int)%string p value
                      (var ++ "的第" ++ p_int ++ "百分位数")%string
                    :: rows)
          end
      end
  end.

(** [_generate_percentile_distribution_table]: the table, or [None] when
    an exception leaves [self.percentile_table] unset. *)
Fixpoint _generate_percentile_distribution_table
    (results : list (string * list (string * result_value)))
    (vars : list string) (percentiles : list Q)
  : option (list percentile_row) :=
  match vars with
  | [] => Some []
  | var :: rest =>
      if String.eqb var "n" then
        _generate_percentile_distribution_table results rest percentiles
      else
        match dict_get var results with
        | None => None
        | Some stats =>
            match percentile_rows var stats percentiles,
                  _generate_percentile_distribution_table results rest
                    percentiles with
            | Some rows, Some more => Some (rows ++ more)
            | _, _ => None
            end
        end
  end.

(** The percentiles shown in the summary table. *)
Definition summary_percentiles : list Z := [1; 5; 10; 25; 50; 75; 90; 95; 99].

Section SummaryTable.

(** [format(x, spec)] of a float and of an integer. *)
Variable format_float : string -> option float -> string.
Variable format_int : string -> Z -> string.

(** [f'{value:spec}']; formatting a dictionary raises ([None]). *)
Definition format_value (spec : string) (value : result_value)
  : option string :=
  match value with
  | RNum x => Some (format_float spec x)
  | RInt n => Some (format_int spec n)
  | RStats _ => None
  end.

(** [f'{stats[key]:spec}'] stored under a column of the row. *)
Definition formatted (stats : list (string * result_value))
    (column key spec : string) : option (string * cell) :=
  match dict_get key stats with
  | None => None
  | Some value =>
      option_map (fun s => (column, CText s)) (format_value spec value)
  end.

(** The items of a row, when none of them raised. *)
Fixpoint all_items (items : list (option (string * cell)))
  : option (list (string * cell)) :=
  match items with
  | [] => Some []
  | None :: _ => None
  | Some item :: rest => option_map (cons item) (all_items rest)
  end.

(** The row of the variable [n]. *)
Definition summary_row_n (stats : list (string * result_value))
  : option (list (string * cell)) :=
  option_map dict_of
    (all_items
       ([Some ("Variable", CText "n");
         Some ("Description", CText "每月截面数据个数");
         option_map (fun v => ("Time_Series_Length", CValue v))
                    (dict_get "count" stats);
         formatted stats "Mean" "mean" ".2f";
         formatted stats "Std" "std" ".2f";
         formatted stats "Min" "min" ".2f";
         formatted stats "Max" "max" ".2f";
         formatted stats "P1" "p1" ".2f";
         formatted stats "P5" "p5" ".2f";
         formatted stats "P10" "p10" ".2f";
         formatted stats "P25" "p25" ".2f";
         formatted stats "P50" "p50" ".2f";
         formatted stats "P75" "p75" ".2f";
         formatted stats "P90" "p90" ".2f";
         formatted stats "P95" "p95" ".2f";
         formatted stats "P99" "p99" ".2f";
         Some ("CS_Mean_TS_Mean", CText "N/A");
         Some ("CS_Mean_TS_Std", CText "N/A");
         Some ("CS_Std_TS_Mean", CText "N/A");
         Some ("CS_Std_TS_Std", CText "N/A");
         Some ("CS_Skew_TS_Mean", CText "N/A");
         Some ("CS_Kurt_TS_Mean", CText "N/A")]%string)).

(** [stats.get(key, {})]: the statistics of a time series, [Some None]
    for the empty dictionary of the default, [None] when the value is no
    dictionary (its [get] raises). *)
Definition get_ts (stats : list (string * result_value)) (key : string)
  : option (option ts_stats) :=
  match dict_get key stats with
  | None => Some None
  | Some (RStats t) => Some (Some t)
  | Some _ => None
  end.

(** [cs_ts.get(field, np.nan)] formatted, and [cs_ts.get('count', 0)]. *)
Definition ts_formatted (cs_ts : option ts_stats)
    (field : ts_stats -> option float) (column spec : string)
  : string * cell :=
  (column,
   CText (format_float spec (match cs_ts with
                             | Some t => field t
                             | None => None
                             end))).

Definition ts_length (cs_ts : option ts_stats) : Z :=
  match cs_ts with Some t => ts_count t | None => 0 end.

(** The row of a variable other than [n]. *)
Definition summary_row_var (var : string)
    (stats : list (string * result_value)) : option (list (string * cell)) :=
  match get_ts stats "ts_mean", get_ts stats "ts_std",
        get_ts stats "ts_skew", get_ts stats "ts_kurt" with
  | Some cs_mean_ts, Some cs_std_ts, Some cs_skew_ts, Some cs_kurt_ts =>
      option_map dict_of
        (all_items
           ([Some ("Variable", CText var);
             Some ("Description", CText (_get_variable_description var));
             Some ("Time_Series_Length",
                   CValue (RInt (ts_length cs_mean_ts)));
             formatted stats "Overall_Mean" "overall_mean" ".6f";
             formatted stats "Overall_Std" "overall_std" ".6f";
             formatted stats "Overall_Min" "overall_min" ".6f";
             formatted stats "Overall_Max" "overall_max" ".6f";
             formatted stats "Overall_Skew" "overall_skew" ".4f";
             formatted stats "Overall_Kurt" "overall_kurt" ".4f";
             formatted stats "Overall_Count" "overall_count" ",";
             Some (ts_formatted cs_mean_ts ts_mean "CS_Mean_TS_Mean" ".6f");
             Some (ts_formatted cs_mean_ts ts_std "CS_Mean_TS_Std" ".6f");
             Some (ts_formatted cs_mean_ts ts_min "CS_Mean_TS_Min" ".6f");
             Some (ts_formatted cs_mean_ts ts_max "CS_Mean_TS_Max" ".6f");
             Some (ts_formatted cs_std_ts ts_mean "CS_Std_TS_Mean" ".6f");
             Some (ts_formatted cs_std_ts ts_std "CS_Std_TS_Std" ".6f");
             Some (ts_formatted cs_std_ts ts_min "CS_Std_TS_Min" ".6f");
             Some (ts_formatted cs_std_ts ts_max "CS_Std_TS_Max" ".6f");
             Some (ts_formatted cs_skew_ts ts_mean "CS_Skew_TS_Mean" ".4f");
             Some (ts_formatted cs_kurt_ts ts_mean "CS_Kurt_TS_Mean" ".4f")]%string
            ++ map (fun p =>
                      formatted stats ("Overall_P" ++ string_of_Z p)%string
                                ("overall_p" ++ string_of_Z p)%string ".6f")
                   summary_percentiles))
  | _, _, _, _ => None
  end.

(** The rows of the summary table; [None] is an exception in the loop,
    which leaves [self.summary_table] unset. *)
Fixpoint summary_rows
    (results : list (string * list (string * result_value)))
    (vars : list string) : option (list (list (string * cell))) :=
  match vars with
  | [] => Some []
  | var :: rest =>
      match dict_get var results with
      | None => None
      | Some stats =>
          match (if String.eqb var "n" then summary_row_n stats
                 else summary_row_var var stats),
                summary_rows results rest with
          | Some row, Some rows => Some (row :: rows)
          | _, _ => None
          end
      end
  end.

(** [_generate_comprehensive_summary_table]: the summary table and the
    percentile table it leaves in the object. *)
Definition _generate_comprehensive_summary_table
    (results : list (string * list (string * result_value)))
    (vars : list string) (percentiles : list Q)
  : option (list (list (string * cell))) * option (list percentile_row) :=
  match summary_rows results vars with
  | None => (None, None)
  | Some table =>
      (Some table,
       _generate_percentile_distribution_table results vars percentiles)
  end.

Variable series_std : list float -> option float.
Variable series_skew : list float -> option float.
Variable series_kurtosis : list float -> option float.

(** [calculate_descriptive_stats]: the results and the two tables, or
    [None] for [return False]: an empty panel, or an exception in the
    loop over the variables. *)
Definition calculate_descriptive_stats (final : list final_row)
  : option (list (string * list (string * result_value))
            * (option (list (list (string * cell)))
               * option (list percentile_row))) :=
  match final with
  | [] => None
  | _ =>
      match results_of series_std series_skew series_kurtosis
                       variables final [] with
      | None => None
      | Some results =>
          Some (results,
                _generate_comprehensive_summary_table results variables
                  extended_percentiles)
      end
  end.

End SummaryTable.

(* ----------------------------------------------------------------- *)
(** ** The rules of the specification, for comparison *)

(** "First non-missing of the candidates, else the default". *)
Fixpoint first_non_missing (candidates : list (option Q)) (default : Q) : Q :=
  match candidates with
  | [] => default
  | Some x :: _ => x
  | None :: rest => first_non_missing rest default
  end.

(** Preferred stock: redemption, liquidation, par value, else 0. *)
Definition preferred_stock_resolved (r : funda_row) : Q :=
  first_non_missing [fd_pstkrv r; fd_pstkl r; fd_pstk r] 0%Q.

(** Stockholders' equity as the specification words it: the second
    candidate adds the resolved preferred stock. *)
Definition stockholders_equity_spec (r : funda_row) : Q :=
  first_non_missing
    [fd_seq r;
     cell_add (fd_ceq r) (Some (preferred_stock_resolved r));
     cell_sub (fd_at r) (fd_lt r)]
    0%Q.

(** Stockholders' equity with the par value of preferred stock (0 when
    missing) in the second candidate. *)
Definition stockholders_equity_par (r : funda_row) : Q :=
  first_non_missing
    [fd_seq r;
     cell_add (fd_ceq r) (Some (first_non_missing [fd_pstk r] 0%Q));
     cell_sub (fd_at r) (fd_lt r)]
    0%Q.

(** The link rows in force for an observation. *)
Definition qualifying_links (r : crsp_row) (links : list ccm_row)
  : list ccm_row :=
  filter (fun l => (ccm_permno l =? crsp_permno r)
                   && date_in_link (crsp_date r) l) links.

(** The row the link join makes of an observation and a link row. *)
Definition row_of_link (r : crsp_row) (l : ccm_row) : crsp_ccm_row :=
  mk_cc r (Some l) (astype_str (ccm_gvkey l)).

(** The fundamentals keys the link join attaches to one observation. *)
Definition resolve (links : list ccm_row) (r : crsp_row) : list string :=
  map cc_gvkey (link_join [r] links).

(** A merged row is backed by a fundamentals record of its firm that was
    available on the observation date. *)
Definition backed_by (comp : list comp_row) (m : merged_row) : Prop :=
  exists c,
    In c comp
    /\ strip (cp_gvkey c) = strip (cc_gvkey (m_row m))
    /\ cp_be c = m_be m
    /\ date_leb (cp_available_date c) (m_date m) = true.

Definition no_look_ahead (comp : list comp_row) (merged : list merged_row)
  : Prop :=
  forall m, In m merged -> backed_by comp m.

(** Equality of cells up to the equality of rationals. *)
Definition cell_eq (a b : option Q) : Prop :=
  match a, b with
  | Some x, Some y => (x == y)%Q
  | None, None => True
  | _, _ => False
  end.

(** The rows of a frame of step 4 that belong to one security. *)
Definition rows_of_permno (p : Z) (df : list df_row) : list df_row :=
  filter (fun r => m_permno (df_m r) =? p) df.


(** The rows of the joined panel that stem from one observation. *)
Definition merged_rows_of (r : crsp_row) (merged : list merged_row)
  : list merged_row :=
  filter (fun m => same_permno_date r (cc_obs (m_row m))) merged.


(** The number of distinct securities among the rows of a period. *)
Definition distinct_permnos (y m : Z) (rows : list final_row) : Z :=
  Z.of_nat (List.length
    (unique Z.eqb
       (map fr_permno
            (filter (fun r => period_eqb (fr_period r) (y, m)) rows)))).

(** The number of rows of the joined panel in a period. *)
Definition rows_in_period (y m : Z) (merged : list merged_row) : Z :=
  Z.of_nat (List.length
    (filter (fun r => (dyear (m_date r) =? y) && (dmonth (m_date r) =? m))
            merged)).

(** The statistics row of a period without observations. *)
Definition all_missing_stats : cs_stats :=
  mk_stats 0 None None None None None None
    [(1, None); (2, None); (3, None); (4, None); (5, None); (10, None);
     (15, None); (20, None); (25, None); (30, None); (35, None); (40, None);
     (45, None); (50, None); (55, None); (60, None); (65, None); (70, None);
     (75, None); (80, None); (85, None); (90, None); (95, None); (96, None);
     (97, None); (98, None); (99, None)].

(** The value of [np.percentile] on data on which it does not raise. *)
Definition percentile (data : list float) (q : Q) : option float :=
  match np_percentile data q with
  | Some v => v
  | None => None
  end.

(** The statistics of a group ([calculate_cross_sectional_stats] raises
    on no group). *)
Definition group_stats (series_std series_skew series_kurtosis
                          : list float -> option float)
    (group : list (option float)) : cs_stats :=
  match calculate_cross_sectional_stats series_std series_skew
          series_kurtosis group with
  | Some s => s
  | None => all_missing_stats
  end.

(** The rows of the monthly table of a variable. *)
Definition monthly_rows (series_std series_skew series_kurtosis
                           : list float -> option float)
    (var : final_row -> option float) (final : list final_row)
  : list (period * cs_stats) :=
  map (fun kg => (fst kg,
                  group_stats series_std series_skew series_kurtosis
                    (map var (snd kg))))
      (groupby_period final).

(** The monthly table of a variable after [unstack]. *)
Definition monthly_series (series_std series_skew series_kurtosis
                             : list float -> option float)
    (var : final_row -> option float) (final : list final_row)
  : list (period * list (string * option float)) :=
  map (fun ks => (fst ks, stats_series (snd ks)))
      (monthly_rows series_std series_skew series_kurtosis var final).

(** The overall statistics of data that is not empty. *)
Definition overall_dict (series_std series_skew series_kurtosis
                           : list float -> option float)
    (overall_data : list float) : list (string * result_value) :=
  dict_update
    (dict_of
       [("overall_count", RInt (Z.of_nat (List.length overall_data)));
        ("overall_mean", RNum (series_mean overall_data));
        ("overall_std", RNum (series_std overall_data));
        ("overall_min", RNum (series_min overall_data));
        ("overall_max", RNum (series_max overall_data));
        ("overall_skew",
         RNum (if (3 <=? List.length overall_data)%nat
               then series_skew overall_data else None));
        ("overall_kurt",
         RNum (if (4 <=? List.length overall_data)%nat
               then series_kurtosis overall_data else None))]%string)
    (map (fun p => (("overall_" ++ pct_key p)%string,
                    RNum (percentile overall_data (p * 100))))
         extended_percentiles).

(** The results of a variable that has data. *)
Definition results_dict (series_std series_skew series_kurtosis
                           : list float -> option float)
    (var : final_row -> option float) (final : list final_row)
  : list (string * result_value) :=
  dict_update
    (time_series_stats series_std
       (monthly_series series_std series_skew series_kurtosis var final))
    (overall_dict series_std series_skew series_kurtosis
       (dropna (map var final))).

(** The results of [n] on a panel that is not empty. *)
Definition n_dict (series_std : list float -> option float)
    (final : list final_row) : list (string * result_value) :=
  let values :=
    map (fun kn => Finite (inject_Z (snd kn))) (n_monthly final) in
  dict_update
    (dict_of
       [("mean", RNum (series_mean values));
        ("std", RNum (series_std values));
        ("min", RNum (series_min values));
        ("max", RNum (series_max values));
        ("count", RInt (Z.of_nat (List.length (n_monthly final))))]%string)
    (map (fun p => (pct_key p, RNum (percentile values (p * 100))))
         extended_percentiles).

(** The cell a grouped transform gives to a row, from the row and its
    position in its group. *)
Definition group_cell {A B : Type} (same : A -> A -> bool)
    (f : list A -> list (option B)) (df : list A) (xj : A * nat) : option B :=
  nth (snd xj) (f (filter (same (fst xj)) df)) None.

(** The row of step 4 built from a row of the sorted joined panel [df]
    and its position among the rows of its permno. *)
Definition assemble (np_log : Q -> option float) (df : list merged_row)
    (xj : merged_row * nat) : df_row :=
  let m := fst xj in
  let lag := group_cell same_permno (fun g => shift1 (map m_ret g)) df xj in
  let cum :=
    group_cell same_permno
      (fun g => rolling_apply 12 8 compound (map m_ret g)) df xj in
  mk_df m (prc_abs m) (me m) (bm m) (size np_log m) lag cum
        (cell_sub cum lag)
        (dyear (m_date m)) (dmonth (m_date m))
        (Z.of_nat (List.length (filter (same_period m) df))).

(** The as-of record of a firm on a date: the fundamentals record of the
    firm with the greatest availability date not after that date. *)
Definition as_of_record (comp : list comp_row) (gvkey : string) (d : date)
    (c : comp_row) : Prop :=
  In c comp
  /\ cp_gvkey c = gvkey
  /\ date_leb (cp_available_date c) d = true
  /\ (forall c', In c' comp -> cp_gvkey c' = gvkey ->
                 date_leb (cp_available_date c') d = true ->
                 date_leb (cp_available_date c') (cp_available_date c) = true).


(** No two rows of the frame agree on the key. *)
Fixpoint no_dup_keys {A : Type} (same : A -> A -> bool) (l : list A) : bool :=
  match l with
  | [] => true
  | x :: t => negb (existsb (same x) t) && no_dup_keys same t
  end.

(** Clean input of the join: both frames sorted by key and date, no
    duplicate keys, at most one statement per firm and calendar year, and
    keys without surrounding white space. *)
Definition clean_input (crsp_ccm : list crsp_ccm_row) (comp : list comp_row)
  : bool :=
  is_monotonic cc_leb crsp_ccm && is_monotonic cp_leb comp
  && no_dup_keys cc_same_key crsp_ccm && no_dup_keys cp_same_key comp
  && no_dup_keys same_gvkey_year comp
  && forallb (fun x => String.eqb (strip (cc_gvkey x)) (cc_gvkey x)) crsp_ccm
  && forallb (fun c => String.eqb (strip (cp_gvkey c)) (cp_gvkey c)) comp.

(* ----------------------------------------------------------------- *)
(** ** Sample inputs *)

(** [np.log] at 1, the market equity of every sample observation. *)
Definition log_at_one (x : Q) : option float :=
  if Qeq_bool x 1 then Some (Finite 0) else None.

(** [np.log] at 0 and at 1. *)
Definition log_at_zero_and_one (x : Q) : option float :=
  if Qeq_bool x 0 then Some NegInf
  else if Qeq_bool x 1 then Some (Finite 0)
  else None.

Definition sample_funda : funda_row :=
  mk_funda "001000" (mkdate 2019 12 31)
           (Some 100%Q) (Some 60%Q) (Some 2%Q) (Some 10%Q) None
           (Some 5%Q) None None.

Definition overlapping_links : list ccm_row :=
  [mk_ccm (Some "001000") 10107 "LU" "P" (Some (mkdate 2000 1 1)) None;
   mk_ccm (Some "002000") 10107 "LU" "P" (Some (mkdate 2010 1 1)) None]%string.

Definition sample_obs : crsp_row :=
  mk_crsp 10107 (mkdate 2020 1 31) "MSFT" (Some 0.01%Q) (Some 1%Q)
          (Some 1%Q).

(** The sample observation with no price on record (a price of 0). *)
Definition zero_price_obs : crsp_row :=
  mk_crsp 10107 (mkdate 2020 1 31) "MSFT" (Some 0.01%Q) (Some 0%Q)
          (Some 1%Q).

Definition monthly_obs (month : Z) : crsp_row :=
  mk_crsp 10107 (mkdate 2020 month 28) "MSFT" (Some 0.01%Q) (Some 1%Q)
          (Some 1%Q).

Definition twelve_months : list crsp_row :=
  map monthly_obs [1; 2; 3; 4; 5; 6; 7; 8; 9; 10; 11; 12].

(** A second security of firm 001000, observed on the date of the sample
    observation and fetched before it. *)
Definition second_share_class : list crsp_row :=
  [mk_crsp 10108 (mkdate 2020 1 31) "MSFTB" (Some 0.02%Q) (Some 1%Q)
           (Some 1%Q);
   sample_obs].

Definition second_share_class_links : list ccm_row :=
  overlapping_links
  ++ [mk_ccm (Some "001000") 10108 "LC" "C" (Some (mkdate 2000 1 1))
             None]%string.

Definition single_link : list ccm_row :=
  [mk_ccm (Some "001000") 10107 "LU" "P" (Some (mkdate 2000 1 1)) None]%string.

(** Two link records of the sample security to the same firm, both in
    force in 2020. *)
Definition same_firm_links : list ccm_row :=
  [mk_ccm (Some "001000") 10107 "LU" "P" (Some (mkdate 2000 1 1)) None;
   mk_ccm (Some "001000") 10107 "LC" "P" (Some (mkdate 2010 1 1)) None]%string.

(** A statement of the given firm and date reporting the given
    stockholders' equity (which is then its book equity). *)
Definition statement (gvkey : string) (datadate : date) (equity : Q)
  : funda_row :=
  mk_funda gvkey datadate (Some 100%Q) (Some 40%Q) None None None None
           (Some equity) None.

Definition two_firms : list funda_row :=
  [statement "001000" (mkdate 2018 12 31) 50%Q;
   statement "002000" (mkdate 2018 12 31) 70%Q].

(** The joined panel of the fetched tables (empty on failure). *)
Definition panel_of (crsp_data : list crsp_row) (comp_data : list funda_row)
    (ccm_link : list ccm_row) : list merged_row :=
  match merge_all crsp_data comp_data ccm_link with
  | Some (_, merged) => merged
  | None => []
  end.

Definition twelve_month_panel : list merged_row :=
  panel_of (get_crsp_data [twelve_months])
           [statement "001000" (mkdate 2018 12 31) 50%Q]
           (get_ccm_link single_link).

(** One calendar year of data for two firms: the only statement is dated
    at the end of the year. *)
Definition one_year_crsp : list crsp_row :=
  [mk_crsp 10107 (mkdate 2020 3 31) "MSFT" (Some 0.01%Q) (Some 1%Q) (Some 1%Q);
   mk_crsp 10108 (mkdate 2020 1 31) "ORCL" (Some 0.02%Q) (Some 1%Q) (Some 1%Q)].

Definition one_year_links : list ccm_row :=
  [mk_ccm (Some "001000") 10107 "LU" "P" (Some (mkdate 2000 1 1)) None;
   mk_ccm (Some "002000") 10108 "LC" "C" (Some (mkdate 2000 1 1)) None]%string.

Definition one_year_comp : list funda_row :=
  [statement "001000" (mkdate 2020 12 31) 50%Q].

(** One observation in August 2019 of a firm with statements at the end
    of 2018 and of 2019, as the join receives them. *)
Definition august_obs : list crsp_ccm_row :=
  prepare_crsp_ccm
    (link_join
       (get_crsp_data
          [[mk_crsp 10107 (mkdate 2019 8 30) "MSFT" (Some 0.01%Q) (Some 1%Q)
                    (Some 1%Q)]])
       (get_ccm_link single_link)).

Definition two_statements : list comp_row :=
  prepare_comp
    (process_comp
       [statement "001000" (mkdate 2018 12 31) 50%Q;
        statement "001000" (mkdate 2019 12 31) 70%Q]).

(** The joined panel of an observation linked to two firms, and its
    first row in the final panel. *)
Definition two_link_panel : list merged_row :=
  panel_of (get_crsp_data [[sample_obs]]) two_firms
           (get_ccm_link overlapping_links).

Definition sample_final_row : final_row :=
  mk_final 10107 "MSFT" (mkdate 2020 1 31) 2020 1 (Some 0.01%Q)
           (Some (Finite 0)) (Some (Finite 50000)) None 2.

Definition no_statistic (data : list float) : option float := None.

(** Two rows of one month of a final panel whose book-to-market ratios
    are the two infinities. *)
Definition opposite_infinities : list final_row :=
  [mk_final 10107 "MSFT" (mkdate 2020 1 31) 2020 1 (Some 0.01%Q)
            (Some (Finite 0)) (Some PosInf) None 2;
   mk_final 10108 "ORCL" (mkdate 2020 1 31) 2020 1 (Some 0.02%Q)
            (Some (Finite 0)) (Some NegInf) None 2].

(* ----------------------------------------------------------------- *)
(** ** Notions used in the further properties *)

(** The end of a link's validity once [get_ccm_link] has filled it. *)
Definition link_end (l : ccm_row) : date :=
  match ccm_linkenddt l with Some b => b | None => open_ended end.

(** A link row as [get_ccm_link] returns it. *)
Definition filled_link (l : ccm_row) : ccm_row :=
  mk_ccm (ccm_gvkey l) (ccm_permno l) (ccm_linktype l) (ccm_linkprim l)
         (ccm_linkdt l) (fillna (ccm_linkenddt l) (Some open_ended)).

(** A date of the calendar. *)
Definition valid_date (d : date) : bool :=
  (1 <=? dmonth d) && (dmonth d <=? 12)
  && (1 <=? dday d) && (dday d <=? days_in_month (dyear d) (dmonth d)).

(** The months of a date counted from year 0. *)
Definition month_index (d : date) : Z := dyear d * 12 + (dmonth d - 1).

(** The value linear interpolation gives on sorted finite data [arr] of
    length [n] at the level [q]: [lower + (upper - lower) * gamma] at
    the fractional position [(n - 1) * q / 100]. *)
Definition interpolate (arr : list Q) (a0 : Q) (q : Q) : Q :=
  let n := Z.of_nat (List.length arr) in
  let virtual := (inject_Z (n - 1) * (q / 100))%Q in
  let previous := Qfloor virtual in
  let gamma := (virtual - inject_Z previous)%Q in
  let lower := nth (Z.to_nat (clip previous 0 (n - 1))) arr a0 in
  let upper := nth (Z.to_nat (clip (previous + 1) 0 (n - 1))) arr a0 in
  (lower + (upper - lower) * gamma)%Q.

(** Every value of the series is finite. *)
Definition all_finite (data : list float) : bool := forallb is_finite data.

(** The sum of the monthly counts of a monthly table. *)
Definition total_count (table : list (period * cs_stats)) : Z :=
  fold_right Z.add 0 (map (fun ks => st_count (snd ks)) table).

(** A table that has been built (empty otherwise). *)
Definition table_of {A : Type} (table : option (list A)) : list A :=
  match table with
  | Some rows => rows
  | None => []
  end.

(** The months of a monthly table whose mean is not NaN. *)
Definition months_with_mean (table : list (period * cs_stats))
  : list (period * cs_stats) :=
  filter (fun ks => notna (st_mean (snd ks))) table.

Definition is_pos_inf (v : float) : bool :=
  match v with PosInf => true | _ => false end.

Definition is_neg_inf (v : float) : bool :=
  match v with NegInf => true | _ => false end.

(** The series does not hold infinities of both signs, whose sum is
    NaN. *)
Definition one_sided (data : list float) : bool :=
  negb (existsb is_pos_inf data) || negb (existsb is_neg_inf data).

(** No variable of the final panel holds infinities of both signs. *)
Definition all_one_sided (final : list final_row) : bool :=
  one_sided (dropna (map fr_size final))
  && one_sided (dropna (map fr_bm final)).

(** The months of a monthly table with at least one observation. *)
Definition months_with_data (table : list (period * cs_stats))
  : list (period * cs_stats) :=
  filter (fun ks => 0 <? st_count (snd ks)) table.

(** The row of the percentile table for one variable and one level,
    computed from the non-missing observations of the variable (NaN
    where [np.percentile] has no value). *)
Definition percentile_row_of (var : string) (data : list float) (p : Q)
  : percentile_row :=
  mk_percentile_row var ("P" ++ string_of_Z (pct_label p))%string p
    (RNum (percentile data (p * 100)))
    (var ++ "的第" ++ string_of_Z (pct_label p) ++ "百分位数")%string.

(** The variables of the percentile table with their columns. *)
Definition percentile_variables
  : list (string * (final_row -> option float)) :=
  [("ret", fun r => finite (fr_ret r)); ("size", fr_size); ("bm", fr_bm);
   ("mom", fun r => finite (fr_mom r))]%string.

(** Rows of the final panel in the order of (permno, date). *)
Definition final_order (a b : final_row) : Prop :=
  fr_permno a < fr_permno b
  \/ (fr_permno a = fr_permno b /\ date_leb (fr_date a) (fr_date b) = true).

(** One observation of January 2020 whose only statement dates from 2010,
    as the join receives them. *)
Definition old_statement_obs : list crsp_ccm_row :=
  prepare_crsp_ccm
    (link_join (get_crsp_data [[sample_obs]]) (get_ccm_link single_link)).

Definition old_statement : list comp_row :=
  prepare_comp (process_comp [statement "001000" (mkdate 2010 12 31) 50%Q]).

(** The variable has at least one non-missing observation in the final
    panel, so that every statistic of it is computed on data. *)
Definition has_data (var : final_row -> option float)
    (final : list final_row) : bool :=
  nonempty (dropna (map var final)).

Definition all_have_data (final : list final_row) : bool :=
  forallb (fun vc => has_data (snd vc) final) percentile_variables.

(* ================================================================= *)
(** * Part II: properties *)

(* ----------------------------------------------------------------- *)
(** ** Dates *)

Lemma date_leb_refl (a : date) : date_leb a a = true.
Proof.
  unfold date_leb, date_compare. now rewrite !Z.compare_refl.
Qed.

Lemma date_leb_total (a b : date) : date_leb a b = true \/ date_leb b a = true.
Proof.
  unfold date_leb, date_compare.
  destruct (Z.compare_spec (dyear a) (dyear b)),
           (Z.compare_spec (dyear b) (dyear a)); try lia; auto.
  destruct (Z.compare_spec (dmonth a) (dmonth b)),
           (Z.compare_spec (dmonth b) (dmonth a)); try lia; auto.
  destruct (Z.compare_spec (dday a) (dday b)),
           (Z.compare_spec (dday b) (dday a)); try lia; auto.
Qed.

Lemma date_leb_trans (a b c : date) :
  date_leb a b = true -> date_leb b c = true -> date_leb a c = true.
Proof.
  unfold date_leb, date_compare.
  destruct (Z.compare_spec (dyear a) (dyear b)),
           (Z.compare_spec (dyear b) (dyear c)),
           (Z.compare_spec (dyear a) (dyear c));
    try lia; try discriminate; auto;
  destruct (Z.compare_spec (dmonth a) (dmonth b)),
           (Z.compare_spec (dmonth b) (dmonth c)),
           (Z.compare_spec (dmonth a) (dmonth c));
    try lia; try discriminate; auto;
  destruct (Z.compare_spec (dday a) (dday b)),
           (Z.compare_spec (dday b) (dday c)),
           (Z.compare_spec (dday a) (dday c));
    try lia; try discriminate; auto.
Qed.

Lemma date_leb_antisym (a b : date) :
  date_leb a b = true -> date_leb b a = true -> a = b.
Proof.
  unfold date_leb, date_compare. destruct a as [ya ma da], b as [yb mb db].
  simpl.
  destruct (Z.compare_spec ya yb), (Z.compare_spec yb ya);
    try lia; try discriminate;
  destruct (Z.compare_spec ma mb), (Z.compare_spec mb ma);
    try lia; try discriminate;
  destruct (Z.compare_spec da db), (Z.compare_spec db da);
    try lia; try discriminate.
  intros _ _. congruence.
Qed.

Lemma date_eqb_eq (a b : date) : date_eqb a b = true <-> a = b.
Proof.
  unfold date_eqb. destruct a, b; simpl.
  rewrite !andb_true_iff, !Z.eqb_eq. split.
  - intros [[-> ->] ->]. reflexivity.
  - intros H. injection H. auto.
Qed.

(* ----------------------------------------------------------------- *)
(** ** Sorting, duplicates and groups *)

Section FrameFacts.

Context {A : Type}.
Variable leb : A -> A -> bool.

Lemma insert_sorted_perm (x : A) (l : list A) :
  Permutation (x :: l) (insert_sorted leb x l).
Proof.
  induction l as [|y t IH]; simpl.
  - apply Permutation_refl.
  - destruct (leb x y).
    + apply Permutation_refl.
    + eapply perm_trans; [apply perm_swap|]. now apply perm_skip.
Qed.

Lemma sort_values_perm (l : list A) : Permutation l (sort_values leb l).
Proof.
  induction l as [|x t IH]; simpl.
  - constructor.
  - eapply perm_trans; [|apply insert_sorted_perm]. now apply perm_skip.
Qed.

Lemma sort_values_In (x : A) (l : list A) :
  In x (sort_values leb l) <-> In x l.
Proof.
  split; apply Permutation_in;
    [apply Permutation_sym|]; apply sort_values_perm.
Qed.

Lemma sort_values_length (l : list A) :
  List.length (sort_values leb l) = List.length l.
Proof.
  symmetry. apply Permutation_length, sort_values_perm.
Qed.

Hypothesis leb_total : forall a b, leb a b = true \/ leb b a = true.
Hypothesis leb_trans :
  forall a b c, leb a b = true -> leb b c = true -> leb a c = true.

Lemma insert_sorted_sorted (x : A) (l : list A) :
  StronglySorted (fun a b => leb a b = true) l ->
  StronglySorted (fun a b => leb a b = true) (insert_sorted leb x l).
Proof.
  induction 1 as [|y t Hs IH Hy]; simpl.
  - repeat constructor.
  - destruct (leb x y) eqn:E.
    + constructor; [now constructor|].
      constructor; [exact E|].
      rewrite Forall_forall in *. intros z Hz. eauto.
    + constructor; [exact IH|].
      rewrite Forall_forall in *. intros z Hz.
      apply (Permutation_in _ (Permutation_sym (insert_sorted_perm x t))) in Hz.
      destruct Hz as [<-|Hz]; [|auto].
      destruct (leb_total x y) as [H|H]; congruence.
Qed.

Lemma sort_values_sorted (l : list A) :
  StronglySorted (fun a b => leb a b = true) (sort_values leb l).
Proof.
  induction l as [|x t IH]; simpl.
  - constructor.
  - now apply insert_sorted_sorted.
Qed.

End FrameFacts.

Lemma filter_perm {A : Type} (f : A -> bool) (l l' : list A) :
  Permutation l l' -> Permutation (filter f l) (filter f l').
Proof.
  induction 1 as [|x l l' _ IH|x y l|l l' l'' _ IH1 _ IH2]; simpl.
  - constructor.
  - destruct (f x); [now apply perm_skip|exact IH].
  - destruct (f x), (f y); try apply Permutation_refl. apply perm_swap.
  - eapply perm_trans; eassumption.
Qed.

Lemma drop_dup_from_In {A : Type} (same : A -> A -> bool) (seen l : list A) x :
  In x (drop_dup_from same seen l) -> In x l.
Proof.
  revert seen. induction l as [|y t IH]; simpl; intros seen H.
  - exact H.
  - destruct (existsb (same y) seen).
    + right. eauto.
    + destruct H as [H|H]; [now left|right; eauto].
Qed.

Lemma drop_duplicates_In {A : Type} (same : A -> A -> bool) (l : list A) x :
  In x (drop_duplicates same l) -> In x l.
Proof. apply drop_dup_from_In. Qed.

(** With a [same] that decides equality, no value is lost. *)
Lemma drop_dup_from_complete {A : Type} (same : A -> A -> bool)
    (seen l : list A) x :
  (forall a b, same a b = true -> a = b) ->
  In x l -> In x seen \/ In x (drop_dup_from same seen l).
Proof.
  intros Hsound. revert seen.
  induction l as [|z t IH]; simpl; intros seen Hin; [contradiction|].
  destruct (existsb (same z) seen) eqn:E.
  - destruct Hin as [->|Hin]; [|now apply IH].
    left. apply existsb_exists in E. destruct E as [y [Hy Hs]].
    now rewrite (Hsound _ _ Hs).
  - destruct Hin as [->|Hin]; [right; now left|].
    destruct (IH (z :: seen) Hin) as [[->|H]|H]; simpl; auto.
Qed.

Lemma unique_In {K : Type} (eqb : K -> K -> bool) (l : list K) x :
  (forall a b, eqb a b = true -> a = b) ->
  In x l -> In x (unique eqb l).
Proof.
  intros Hsound Hin.
  destruct (drop_dup_from_complete eqb [] l x Hsound Hin) as [[]|H].
  exact H.
Qed.

Lemma dropna_all_missing {B : Type} (l : list (option B)) :
  (forall x, In x l -> x = None) -> dropna l = [].
Proof.
  induction l as [|[b|] t IH]; simpl; intros H.
  - reflexivity.
  - discriminate (H (Some b)). now left.
  - apply IH. intros x Hx. apply H. now right.
Qed.

Lemma filter_filter {A : Type} (f g : A -> bool) (l : list A) :
  filter g (filter f l) = filter (fun x => f x && g x) l.
Proof.
  induction l as [|x t IH]; simpl; [reflexivity|].
  destruct (f x); simpl; [destruct (g x)|]; now rewrite IH.
Qed.

(* ----------------------------------------------------------------- *)
(** ** Book equity components *)

(** C5, as stated, fails: with the reported equity missing, common equity
    10, redemption value 5 and par value 2, the program's stockholders'
    equity is 12, not 10 + 5. *)
Lemma se_differs_from_resolved_preferred :
  exists x, se sample_funda = Some x
            /\ ~ (x == stockholders_equity_spec sample_funda)%Q.
Proof.
  exists 12%Q. split; [reflexivity|].
  vm_compute. discriminate.
Qed.

(** C5, amended: stockholders' equity is the first non-missing of the
    reported value, common equity plus the par value of preferred stock
    (0 when the par value is missing), total assets minus total
    liabilities, else 0; preferred stock is the first non-missing of
    redemption, liquidation and par value, else 0. *)
Theorem se_fallback_chain (r : funda_row) :
  se r = Some (stockholders_equity_par r)
  /\ ps r = Some (preferred_stock_resolved r).
Proof.
  unfold se, ps, stockholders_equity_par, preferred_stock_resolved.
  destruct r as [g d a l pk ce tx prv sq pl]; simpl.
  destruct sq, ce, pk, a, l, prv, pl; simpl; split; reflexivity.
Qed.

(* ----------------------------------------------------------------- *)
(** ** The link join *)

Lemma link_filter_map (r : crsp_row) (ls : list ccm_row) :
  map to_crsp_ccm (filter link_filter (map (fun l => (r, Some l)) ls))
  = map (row_of_link r) (filter (date_in_link (crsp_date r)) ls).
Proof.
  induction ls as [|l t IH]; simpl; [reflexivity|].
  unfold link_filter at 1; simpl.
  destruct (date_in_link (crsp_date r) l); simpl; now rewrite IH.
Qed.

Lemma link_join_rows (crsp : list crsp_row) (links : list ccm_row) :
  link_join crsp links
  = flat_map (fun r => map (row_of_link r) (qualifying_links r links)) crsp.
Proof.
  unfold link_join, merge_on_permno.
  induction crsp as [|r t IH]; [reflexivity|].
  cbn [flat_map]. rewrite filter_app, map_app, IH. f_equal.
  unfold qualifying_links. rewrite <- filter_filter.
  destruct (filter (fun l => ccm_permno l =? crsp_permno r) links) as [|l ls].
  - reflexivity.
  - apply (link_filter_map r (l :: ls)).
Qed.

(** C4, as stated, fails: with two links of the same priority in force,
    the observation receives both fundamentals keys, not exactly one. *)
Lemma resolve_keeps_both_links :
  resolve (get_ccm_link overlapping_links) sample_obs
  = ["001000"; "002000"]%string
  /\ ~ (exists g, resolve (get_ccm_link overlapping_links) sample_obs = [g]).
Proof.
  split; [reflexivity|].
  intros [g H]. vm_compute in H. discriminate.
Qed.

(** C4, amended: the link join makes no selection among the links in
    force; an observation receives the fundamentals key of every link
    record of its permno whose interval contains its date, one row per
    link, in link-table order. *)
Theorem resolve_all_qualifying_links (links : list ccm_row) (r : crsp_row) :
  resolve links r
  = map (fun l => astype_str (ccm_gvkey l)) (qualifying_links r links)
  /\ link_join [r] links = map (row_of_link r) (qualifying_links r links).
Proof.
  unfold resolve. rewrite link_join_rows. simpl. rewrite app_nil_r.
  split; [|reflexivity].
  rewrite map_map. reflexivity.
Qed.

(* ----------------------------------------------------------------- *)
(** ** The final filter *)

Lemma notna_true {B : Type} (a : option B) : notna a = true <-> a <> None.
Proof.
  destruct a; simpl; split; intros; congruence.
Qed.

(** C7: the final panel holds exactly the derived rows whose return,
    log size and book-to-market are all present; in particular a derived
    row with these three present and a missing momentum is kept. *)
Theorem final_stats_complete_rows (np_log : Q -> option float)
    (merged : list merged_row) (r : final_row) :
  (In r (final_stats np_log merged)
   <-> In r (map select_final (indicators np_log merged))
       /\ fr_ret r <> None /\ fr_size r <> None /\ fr_bm r <> None)
  /\ (In r (map select_final (indicators np_log merged)) ->
      fr_ret r <> None -> fr_size r <> None -> fr_bm r <> None ->
      fr_mom r = None ->
      In r (final_stats np_log merged)).
Proof.
  assert (Hiff : In r (final_stats np_log merged)
     <-> In r (map select_final (indicators np_log merged))
         /\ fr_ret r <> None /\ fr_size r <> None /\ fr_bm r <> None).
  { unfold final_stats, complete. rewrite filter_In, !andb_true_iff.
    rewrite !notna_true. tauto. }
  split; [exact Hiff|]. intros. apply Hiff. tauto.
Qed.

(* ----------------------------------------------------------------- *)
(** ** Monthly cross-sections *)

Lemma period_eqb_eq (a b : period) : period_eqb a b = true -> a = b.
Proof.
  destruct a, b. unfold period_eqb; simpl.
  rewrite andb_true_iff, !Z.eqb_eq. intros [-> ->]. reflexivity.
Qed.

Lemma clip_bounds (i n : Z) :
  0 <= n -> 0 <= clip i 0 n <= n.
Proof. unfold clip. lia. Qed.

Lemma clip_mono (i j n : Z) : i <= j -> clip i 0 n <= clip j 0 n.
Proof. unfold clip. lia. Qed.

Lemma nth_error_clip {A : Type} (arr : list A) (i : Z) :
  arr <> [] ->
  exists x,
    nth_error arr (Z.to_nat (clip i 0 (Z.of_nat (List.length arr) - 1)))
    = Some x.
Proof.
  intros H.
  destruct (nth_error arr
              (Z.to_nat (clip i 0 (Z.of_nat (List.length arr) - 1))))
    as [x|] eqn:E; [eauto|].
  apply nth_error_None in E.
  destruct arr as [|a t]; [congruence|]. simpl List.length in *.
  pose proof (clip_bounds i (Z.of_nat (S (List.length t)) - 1)). lia.
Qed.

(** On data that is not empty [np.percentile] returns. *)
Lemma np_percentile_defined (data : list float) (q : Q) :
  data <> [] -> np_percentile data q = Some (percentile data q).
Proof.
  intros H. unfold percentile, np_percentile. cbv zeta.
  assert (Hs : sort_values float_leb data <> []).
  { intros E. apply (f_equal (@List.length float)) in E.
    rewrite sort_values_length in E. destruct data; [congruence|discriminate]. }
  repeat match goal with
  | |- context [nth_error ?a (Z.to_nat (clip ?i 0 ?n))] =>
      let x := fresh "x" in
      let Hx := fresh "Hx" in
      destruct (nth_error_clip a i Hs) as [x Hx]; rewrite Hx; clear Hx
  end.
  reflexivity.
Qed.

(** On no data it raises. *)
Lemma np_percentile_raises (q : Q) : np_percentile [] q = None.
Proof.
  unfold np_percentile. cbv zeta. cbn [sort_values fold_right].
  now rewrite nth_error_nil.
Qed.

Lemma percentile_items_defined {K : Type} (key : Q -> K) (data : list float)
    (levels : list Q) :
  data <> [] ->
  percentile_items key data levels
  = Some (map (fun p => (key p, percentile data (p * 100))) levels).
Proof.
  intros H. induction levels as [|p rest IH]; [reflexivity|].
  cbn [percentile_items map]. rewrite (np_percentile_defined data _ H), IH.
  reflexivity.
Qed.

Lemma percentile_items_raises {K : Type} (key : Q -> K) (levels : list Q) :
  levels <> [] -> percentile_items key [] levels = None.
Proof.
  destruct levels as [|p rest]; [congruence|]. intros _.
  cbn [percentile_items]. now rewrite np_percentile_raises.
Qed.

Lemma apply_groups_defined {K G S : Type} (f : G -> option S) (g : G -> S)
    (groups : list (K * G)) :
  (forall kg, In kg groups -> f (snd kg) = Some (g (snd kg))) ->
  apply_groups f groups = Some (map (fun kg => (fst kg, g (snd kg))) groups).
Proof.
  induction groups as [|kg rest IH]; intros H; [reflexivity|].
  cbn [apply_groups map]. rewrite (H kg (or_introl eq_refl)), IH.
  - reflexivity.
  - intros kg' Hkg'. apply H. now right.
Qed.

Section AggregationFacts.

Variable series_std : list float -> option float.
Variable series_skew : list float -> option float.
Variable series_kurtosis : list float -> option float.

Lemma empty_group_stats (group : list (option float)) :
  dropna group = [] ->
  calculate_cross_sectional_stats series_std series_skew series_kurtosis group
  = Some all_missing_stats.
Proof.
  intros H. unfold calculate_cross_sectional_stats. rewrite H.
  reflexivity.
Qed.

(** The statistics of a group with data. *)
Lemma data_group_stats (group : list (option float)) :
  dropna group <> [] ->
  calculate_cross_sectional_stats series_std series_skew series_kurtosis group
  = Some (mk_stats (Z.of_nat (List.length (dropna group)))
            (series_mean (dropna group)) (series_std (dropna group))
            (series_min (dropna group)) (series_max (dropna group))
            (if (3 <=? List.length (dropna group))%nat
             then series_skew (dropna group) else None)
            (if (4 <=? List.length (dropna group))%nat
             then series_kurtosis (dropna group) else None)
            (map (fun p => (pct_label p, percentile (dropna group) (p * 100)))
                 extended_percentiles)).
Proof.
  intros H. unfold calculate_cross_sectional_stats. cbv zeta.
  rewrite (percentile_items_defined pct_label _ _ H).
  destruct (dropna group); [congruence|reflexivity].
Qed.

(** The statistics of a group, by cases. *)
Lemma group_stats_unfold (group : list (option float)) :
  group_stats series_std series_skew series_kurtosis group
  = match dropna group with
    | [] =>
        mk_stats 0 None None None None None None
                 (map (fun p => (pct_label p, None)) extended_percentiles)
    | _ =>
        mk_stats (Z.of_nat (List.length (dropna group)))
                 (series_mean (dropna group)) (series_std (dropna group))
                 (series_min (dropna group)) (series_max (dropna group))
                 (if (3 <=? List.length (dropna group))%nat
                  then series_skew (dropna group) else None)
                 (if (4 <=? List.length (dropna group))%nat
                  then series_kurtosis (dropna group) else None)
                 (map (fun p =>
                         (pct_label p, percentile (dropna group) (p * 100)))
                      extended_percentiles)
    end.
Proof.
  unfold group_stats. destruct (dropna group) as [|d ds] eqn:E.
  - now rewrite (empty_group_stats group E).
  - rewrite data_group_stats; [now rewrite E|]. rewrite E. discriminate.
Qed.

(** [calculate_cross_sectional_stats] raises on no group. *)
Lemma cross_section_defined (group : list (option float)) :
  calculate_cross_sectional_stats series_std series_skew series_kurtosis group
  = Some (group_stats series_std series_skew series_kurtosis group).
Proof.
  unfold group_stats.
  destruct (dropna group) as [|d ds] eqn:E.
  - now rewrite (empty_group_stats group E).
  - rewrite data_group_stats; [reflexivity|]. rewrite E. discriminate.
Qed.

(** The monthly table has the statistics of every group of
    [groupby_period], in the order of the groups. *)
Lemma monthly_cross_sectional_rows (var : final_row -> option float)
    (final : list final_row) :
  monthly_cross_sectional series_std series_skew series_kurtosis var final
  = Some (monthly_rows series_std series_skew series_kurtosis var final).
Proof.
  unfold monthly_cross_sectional, monthly_rows.
  apply (apply_groups_defined
           (fun g => calculate_cross_sectional_stats series_std series_skew
                       series_kurtosis (map var g))
           (fun g => group_stats series_std series_skew series_kurtosis
                       (map var g))).
  intros kg _. apply cross_section_defined.
Qed.

(** C8: a period all of whose observations of the variable are missing
    still has its row in the monthly table, with count 0 and every
    other statistic missing. *)
Theorem all_missing_period_kept (var : final_row -> option float)
    (final : list final_row) (r : final_row) :
  In r final ->
  (forall r', In r' final -> fr_period r' = fr_period r -> var r' = None) ->
  exists table,
    monthly_cross_sectional series_std series_skew series_kurtosis var final
    = Some table
    /\ In (fr_period r, all_missing_stats) table.
Proof.
  intros Hin Hmiss. eexists. split; [apply monthly_cross_sectional_rows|].
  unfold monthly_rows, groupby_period. rewrite map_map.
  apply in_map_iff. exists (fr_period r). cbn [fst snd]. split.
  - f_equal. unfold group_stats. rewrite empty_group_stats; [reflexivity|].
    apply dropna_all_missing.
    intros x Hx. apply in_map_iff in Hx. destruct Hx as [r' [<- Hr']].
    apply filter_In in Hr'. destruct Hr' as [Hr' Hp].
    apply Hmiss; [exact Hr'|]. now apply period_eqb_eq.
  - apply sort_values_In. apply unique_In; [exact period_eqb_eq|].
    now apply in_map.
Qed.

End AggregationFacts.

(* ----------------------------------------------------------------- *)
(** ** Percentiles *)

Lemma Qle_bool_total (a b : Q) : Qle_bool a b = true \/ Qle_bool b a = true.
Proof.
  rewrite !Qle_bool_iff. destruct (Qlt_le_dec a b) as [H|H]; [left|right].
  - now apply Qlt_le_weak.
  - exact H.
Qed.

Lemma Qle_bool_trans (a b c : Q) :
  Qle_bool a b = true -> Qle_bool b c = true -> Qle_bool a c = true.
Proof.
  rewrite !Qle_bool_iff. apply Qle_trans.
Qed.

Lemma sorted_nth_Qle (l : list Q) (d : Q) :
  StronglySorted (fun a b => Qle_bool a b = true) l ->
  forall i j, (i <= j)%nat -> (j < List.length l)%nat ->
              (nth i l d <= nth j l d)%Q.
Proof.
  induction 1 as [|x t Hs IH Hx]; intros i j Hij Hj; simpl in Hj.
  - lia.
  - destruct i as [|i], j as [|j]; simpl; try lia.
    + apply Qle_refl.
    + rewrite Forall_forall in Hx. apply Qle_bool_iff, Hx.
      apply nth_In. lia.
    + apply IH; lia.
Qed.

Lemma interpolate_monotone (arr : list Q) (a0 q1 q2 : Q) :
  StronglySorted (fun a b => Qle_bool a b = true) arr ->
  arr <> [] ->
  (q1 <= q2)%Q ->
  (interpolate arr a0 q1 <= interpolate arr a0 q2)%Q.
Proof.
  intros Hsorted Hne Hq. unfold interpolate.
  set (n := Z.of_nat (List.length arr)).
  assert (Hn : 1 <= n) by (unfold n; destruct arr; [congruence|simpl; lia]).
  set (at_ := fun i : Z => nth (Z.to_nat (clip i 0 (n - 1))) arr a0).
  assert (Hmono : forall i j, i <= j -> (at_ i <= at_ j)%Q).
  { intros i j Hij. unfold at_. apply sorted_nth_Qle; [exact Hsorted| |].
    - pose proof (clip_mono i j (n - 1) Hij).
      pose proof (clip_bounds i (n - 1)). lia.
    - pose proof (clip_bounds j (n - 1)). unfold n in *. lia. }
  set (h1 := (inject_Z (n - 1) * (q1 / 100))%Q).
  set (h2 := (inject_Z (n - 1) * (q2 / 100))%Q).
  fold (at_ (Qfloor h1)) (at_ (Qfloor h1 + 1)).
  fold (at_ (Qfloor h2)) (at_ (Qfloor h2 + 1)).
  assert (Hh : (h1 <= h2)%Q).
  { assert (Hk : (0 <= inject_Z (n - 1))%Q).
    { replace 0%Q with (inject_Z 0) by reflexivity.
      rewrite <- Zle_Qle. lia. }
    assert (Hd : (q1 / 100 <= q2 / 100)%Q).
    { unfold Qdiv. apply Qmult_le_compat_r; [exact Hq|]. discriminate. }
    unfold h1, h2.
    generalize dependent (inject_Z (n - 1)).
    generalize dependent (q1 / 100)%Q. generalize dependent (q2 / 100)%Q.
    clear. intros. nra. }
  pose proof (Qfloor_le h1) as Hf1. pose proof (Qlt_floor h1) as Hc1.
  pose proof (Qfloor_le h2) as Hf2. pose proof (Qlt_floor h2) as Hc2.
  pose proof (Qfloor_resp_le _ _ Hh) as Hp.
  rewrite inject_Z_plus in Hc1, Hc2.
  change (inject_Z 1) with 1%Q in Hc1, Hc2.
  pose proof (Hmono (Qfloor h1) (Qfloor h1 + 1) ltac:(lia)) as Ha1.
  pose proof (Hmono (Qfloor h2) (Qfloor h2 + 1) ltac:(lia)) as Ha2.
  destruct (Z.eq_dec (Qfloor h1) (Qfloor h2)) as [Heq|Hne'].
  - rewrite <- Heq in *.
    generalize dependent (at_ (Qfloor h1 + 1)).
    generalize dependent (at_ (Qfloor h1)).
    generalize dependent (inject_Z (Qfloor h1)).
    generalize dependent h1. generalize dependent h2.
    clear. intros. nra.
  - assert (Hlt : Qfloor h1 + 1 <= Qfloor h2) by lia.
    pose proof (Hmono _ _ Hlt) as Hmid.
    generalize dependent (at_ (Qfloor h1 + 1)).
    generalize dependent (at_ (Qfloor h2 + 1)).
    generalize dependent (at_ (Qfloor h1)).
    generalize dependent (at_ (Qfloor h2)).
    generalize dependent (inject_Z (Qfloor h1)).
    generalize dependent (inject_Z (Qfloor h2)).
    generalize dependent h1. generalize dependent h2.
    clear. intros. nra.
Qed.

(** *** Finite data *)

Lemma all_finite_values (data : list float) :
  all_finite data = true -> exists values, data = map Finite values.
Proof.
  induction data as [|[x| |] t IH]; simpl; intros H; try discriminate.
  - now exists [].
  - destruct (IH H) as [values ->]. now exists (x :: values).
Qed.

Lemma insert_sorted_finite (x : Q) (l : list Q) :
  insert_sorted float_leb (Finite x) (map Finite l)
  = map Finite (insert_sorted Qle_bool x l).
Proof.
  induction l as [|y t IH]; simpl; [reflexivity|].
  destruct (Qle_bool x y); simpl; [reflexivity|]. now rewrite IH.
Qed.

(** Sorting finite values is sorting the rationals. *)
Lemma sort_values_finite (l : list Q) :
  sort_values float_leb (map Finite l) = map Finite (sort_values Qle_bool l).
Proof.
  induction l as [|x t IH]; [reflexivity|].
  change (sort_values float_leb (map Finite (x :: t)))
    with (insert_sorted float_leb (Finite x)
            (sort_values float_leb (map Finite t))).
  rewrite IH. apply insert_sorted_finite.
Qed.

(** Between finite values either form of the interpolation is the value
    [a + (b - a) * t]. *)
Lemma lerp_finite (a b t : Q) :
  exists v, lerp (Finite a) (Finite b) t = Some (Finite v)
            /\ (v == a + (b - a) * t)%Q.
Proof.
  unfold lerp. cbv zeta. destruct (Qle_bool (1 # 2) t);
    cbn [float_sub float_add float_opp float_mul];
    eexists; (split; [reflexivity|]); ring.
Qed.

(** On finite data that is not empty [np.percentile] is the
    interpolated value between two order statistics. *)
Lemma np_percentile_finite (values : list Q) (q : Q) :
  values <> [] ->
  exists v,
    np_percentile (map Finite values) q = Some (Some (Finite v))
    /\ (v == interpolate (sort_values Qle_bool values) 0 q)%Q.
Proof.
  intros H. unfold np_percentile, interpolate. cbv zeta.
  rewrite sort_values_finite, length_map.
  set (arr := sort_values Qle_bool values).
  assert (Hn : (0 < List.length arr)%nat).
  { unfold arr. rewrite sort_values_length.
    destruct values; [congruence|simpl; lia]. }
  set (n := Z.of_nat (List.length arr)).
  set (virtual := (inject_Z (n - 1) * (q / 100))%Q).
  assert (Hat : forall i,
             nth_error (map Finite arr) (Z.to_nat (clip i 0 (n - 1)))
             = Some (Finite (nth (Z.to_nat (clip i 0 (n - 1))) arr 0%Q))).
  { intros i. rewrite nth_error_map.
    rewrite (nth_error_nth' arr 0%Q); [reflexivity|].
    pose proof (clip_bounds i (n - 1)). unfold n in *. lia. }
  rewrite !Hat.
  destruct (lerp_finite
              (nth (Z.to_nat (clip (Qfloor virtual) 0 (n - 1))) arr 0%Q)
              (nth (Z.to_nat (clip (Qfloor virtual + 1) 0 (n - 1))) arr 0%Q)
              (virtual - inject_Z (Qfloor virtual))) as [v [Hv Ev]].
  exists v. rewrite Hv. split; [reflexivity|exact Ev].
Qed.

(** On finite data the interpolated value never decreases when the level
    grows. *)
Lemma np_percentile_monotone (data : list float) (q1 q2 : Q) :
  data <> [] -> all_finite data = true ->
  (q1 <= q2)%Q ->
  exists v1 v2,
    percentile data q1 = Some (Finite v1)
    /\ percentile data q2 = Some (Finite v2)
    /\ (v1 <= v2)%Q.
Proof.
  intros Hne Hfin Hq.
  destruct (all_finite_values data Hfin) as [values ->].
  assert (Hv : values <> [])
    by (destruct values; [simpl in Hne; congruence|discriminate]).
  destruct (np_percentile_finite values q1 Hv) as [v1 [H1 E1]].
  destruct (np_percentile_finite values q2 Hv) as [v2 [H2 E2]].
  exists v1, v2. unfold percentile. rewrite H1, H2.
  split; [reflexivity|]. split; [reflexivity|].
  rewrite E1, E2. apply interpolate_monotone; [|  |exact Hq].
  - apply sort_values_sorted; [exact Qle_bool_total|exact Qle_bool_trans].
  - intros E. apply (f_equal (@List.length Q)) in E.
    rewrite sort_values_length in E. destruct values; [congruence|discriminate].
Qed.

(** *** Data with infinite values *)

Lemma float_leb_refl (a : float) : float_leb a a = true.
Proof.
  destruct a; simpl; auto. apply Qle_bool_iff, Qle_refl.
Qed.

Lemma float_leb_total (a b : float) :
  float_leb a b = true \/ float_leb b a = true.
Proof.
  destruct a, b; simpl; auto. apply Qle_bool_total.
Qed.

Lemma float_leb_trans (a b c : float) :
  float_leb a b = true -> float_leb b c = true -> float_leb a c = true.
Proof.
  destruct a, b, c; simpl; auto; try discriminate. apply Qle_bool_trans.
Qed.

Lemma sorted_nth_float (a : list float) :
  StronglySorted (fun x y => float_leb x y = true) a ->
  forall i j x y, (i <= j)%nat ->
    nth_error a i = Some x -> nth_error a j = Some y ->
    float_leb x y = true.
Proof.
  induction 1 as [|z t Hs IH Hz]; intros i j x y Hij Hi Hj.
  - destruct i; discriminate.
  - destruct i as [|i], j as [|j]; simpl in Hi, Hj; try lia.
    + injection Hi as <-. injection Hj as <-. apply float_leb_refl.
    + injection Hi as <-. rewrite Forall_forall in Hz.
      apply Hz. eapply nth_error_In. exact Hj.
    + apply (IH i j); [lia|assumption|assumption].
Qed.

Lemma sgn_positive (q : Q) : (0 < q)%Q -> Z.sgn (Qnum q) = 1.
Proof.
  destruct q as [n d]. unfold Qlt. simpl. rewrite Z.mul_1_r.
  intros H. now apply Z.sgn_pos.
Qed.

Lemma sgn_not_negative (q : Q) :
  (0 <= q)%Q -> Z.sgn (Qnum q) = 0 \/ Z.sgn (Qnum q) = 1.
Proof.
  destruct q as [n d]. unfold Qle. simpl. rewrite Z.mul_1_r.
  intros H. destruct n; simpl; auto. lia.
Qed.

(** With an infinite neighbour the interpolated value is NaN or that
    infinity: the negative one below a finite value, the positive one
    above a finite value. *)
Lemma lerp_infinite (a b x : float) (t : Q) :
  float_leb a b = true -> (0 <= t)%Q -> (t < 1)%Q ->
  is_finite a && is_finite b = false ->
  lerp a b t = Some x ->
  (a = NegInf /\ x = NegInf /\ is_finite b = true)
  \/ (b = PosInf /\ x = PosInf /\ is_finite a = true).
Proof.
  intros Hle H0 H1 Hinf. unfold lerp. cbv zeta.
  assert (Hu : Z.sgn (Qnum (1 - t)) = 1) by (apply sgn_positive; lra).
  set (u := (1 - t)%Q) in *.
  destruct (sgn_not_negative t H0) as [Ht | Ht];
    destruct a as [a | |], b as [b | |]; try discriminate;
    destruct (Qle_bool (1 # 2) t);
    cbn [float_sub float_add float_opp float_mul float_sign];
    rewrite ?Hu, ?Ht; cbn [Z.mul Pos.mul infinity float_add float_opp];
    intros E; try discriminate; injection E as <-; auto.
Qed.

Lemma interpolation_between (a b t v : Q) :
  (a <= b)%Q -> (0 <= t)%Q -> (t < 1)%Q -> (v == a + (b - a) * t)%Q ->
  (a <= v)%Q /\ (v <= b)%Q.
Proof.
  intros Hle H0 H1 Ev. rewrite Ev.
  assert (Hp : (0 <= (b - a) * t)%Q) by (apply Qmult_le_0_compat; lra).
  assert (Hp' : (0 <= (b - a) * (1 - t))%Q)
    by (apply Qmult_le_0_compat; lra).
  split; [lra |].
  setoid_replace (a + (b - a) * t)%Q with (b - (b - a) * (1 - t))%Q by ring.
  lra.
Qed.

Lemma interpolation_monotone (a b t1 t2 v1 v2 : Q) :
  (a <= b)%Q -> (t1 <= t2)%Q ->
  (v1 == a + (b - a) * t1)%Q -> (v2 == a + (b - a) * t2)%Q ->
  (v1 <= v2)%Q.
Proof.
  intros Hle H12 E1 E2. rewrite E1, E2.
  assert (Hp : (0 <= (b - a) * (t2 - t1))%Q)
    by (apply Qmult_le_0_compat; lra).
  setoid_replace (a + (b - a) * t2)%Q
    with (a + (b - a) * t1 + (b - a) * (t2 - t1))%Q by ring.
  lra.
Qed.

(** The interpolated value, when it is not NaN, lies between the two
    order statistics. *)
Lemma lerp_between (a b x : float) (t : Q) :
  float_leb a b = true -> (0 <= t)%Q -> (t < 1)%Q ->
  lerp a b t = Some x ->
  float_leb a x = true /\ float_leb x b = true.
Proof.
  intros Hle H0 H1 E.
  destruct (is_finite a && is_finite b) eqn:F.
  - destruct a as [a | |], b as [b | |]; try discriminate F.
    destruct (lerp_finite a b t) as [v [Hv Ev]].
    rewrite Hv in E. injection E as <-.
    cbn [float_leb] in *. rewrite Qle_bool_iff in Hle.
    rewrite !Qle_bool_iff.
    now apply (interpolation_between a b t v).
  - destruct (lerp_infinite a b x t Hle H0 H1 F E)
      as [[-> [-> _]] | [-> [-> _]]].
    + split; reflexivity.
    + split; [destruct a; reflexivity | reflexivity].
Qed.

(** Between the same two order statistics the interpolated value, when
    it is not NaN, does not decrease with the fraction. *)
Lemma lerp_monotone (a b x1 x2 : float) (t1 t2 : Q) :
  float_leb a b = true ->
  (0 <= t1)%Q -> (t1 <= t2)%Q -> (t2 < 1)%Q ->
  lerp a b t1 = Some x1 -> lerp a b t2 = Some x2 ->
  float_leb x1 x2 = true.
Proof.
  intros Hle H0 H12 H1 E1 E2.
  destruct (is_finite a && is_finite b) eqn:F.
  - destruct a as [a | |], b as [b | |]; try discriminate F.
    destruct (lerp_finite a b t1) as [v1 [Hv1 Ev1]].
    destruct (lerp_finite a b t2) as [v2 [Hv2 Ev2]].
    rewrite Hv1 in E1. rewrite Hv2 in E2.
    injection E1 as <-. injection E2 as <-.
    cbn [float_leb] in *. rewrite Qle_bool_iff in Hle.
    rewrite Qle_bool_iff.
    now apply (interpolation_monotone a b t1 t2 v1 v2).
  - assert (H0' : (0 <= t2)%Q) by lra. assert (H1' : (t1 < 1)%Q) by lra.
    destruct (lerp_infinite a b x1 t1 Hle H0 H1' F E1)
      as [[Ha [-> Hb]] | [Hb [-> Ha]]];
      destruct (lerp_infinite a b x2 t2 Hle H0' H1 F E2)
        as [[Ha' [-> Hb']] | [Hb' [-> Ha']]];
      try reflexivity.
    rewrite Ha' in Ha. discriminate Ha.
Qed.

(** Two percentiles of the same data that are not NaN are in the order
    of their levels, whatever infinite values the data holds. *)
Lemma np_percentile_ordered (data : list float) (q1 q2 : Q)
    (x1 x2 : float) :
  (q1 <= q2)%Q ->
  percentile data q1 = Some x1 -> percentile data q2 = Some x2 ->
  float_leb x1 x2 = true.
Proof.
  intros Hq. unfold percentile, np_percentile. cbv zeta.
  set (arr := sort_values float_leb data).
  set (n := Z.of_nat (List.length arr)).
  set (h1 := (inject_Z (n - 1) * (q1 / 100))%Q).
  set (h2 := (inject_Z (n - 1) * (q2 / 100))%Q).
  intros E1 E2.
  destruct (nth_error arr (Z.to_nat (clip (Qfloor h1) 0 (n - 1))))
    as [lo1 |] eqn:L1; [| discriminate E1].
  destruct (nth_error arr (Z.to_nat (clip (Qfloor h1 + 1) 0 (n - 1))))
    as [up1 |] eqn:U1; [| discriminate E1].
  destruct (nth_error arr (Z.to_nat (clip (Qfloor h2) 0 (n - 1))))
    as [lo2 |] eqn:L2; [| discriminate E2].
  destruct (nth_error arr (Z.to_nat (clip (Qfloor h2 + 1) 0 (n - 1))))
    as [up2 |] eqn:U2; [| discriminate E2].
  assert (Hn : 1 <= n).
  { assert (Hlt : (Z.to_nat (clip (Qfloor h1) 0 (n - 1))
                   < List.length arr)%nat)
      by (apply nth_error_Some; congruence).
    unfold n. lia. }
  assert (Hs : StronglySorted (fun x y => float_leb x y = true) arr)
    by (apply sort_values_sorted;
        [exact float_leb_total | exact float_leb_trans]).
  assert (Hat : forall i j x y,
             i <= j ->
             nth_error arr (Z.to_nat (clip i 0 (n - 1))) = Some x ->
             nth_error arr (Z.to_nat (clip j 0 (n - 1))) = Some y ->
             float_leb x y = true).
  { intros i j x y Hij Hx Hy.
    apply (sorted_nth_float arr Hs (Z.to_nat (clip i 0 (n - 1)))
             (Z.to_nat (clip j 0 (n - 1))) x y); [| exact Hx | exact Hy].
    pose proof (clip_mono i j (n - 1) Hij).
    pose proof (clip_bounds i (n - 1)). lia. }
  assert (Hh : (h1 <= h2)%Q).
  { assert (Hk : (0 <= inject_Z (n - 1))%Q).
    { replace 0%Q with (inject_Z 0) by reflexivity.
      rewrite <- Zle_Qle. lia. }
    assert (Hd : (q1 / 100 <= q2 / 100)%Q).
    { unfold Qdiv. apply Qmult_le_compat_r; [exact Hq|]. discriminate. }
    unfold h1, h2.
    generalize dependent (inject_Z (n - 1)).
    generalize dependent (q1 / 100)%Q. generalize dependent (q2 / 100)%Q.
    clear. intros. nra. }
  pose proof (Qfloor_le h1) as Hf1. pose proof (Qlt_floor h1) as Hc1.
  pose proof (Qfloor_le h2) as Hf2. pose proof (Qlt_floor h2) as Hc2.
  pose proof (Qfloor_resp_le _ _ Hh) as Hp.
  rewrite inject_Z_plus in Hc1, Hc2.
  change (inject_Z 1) with 1%Q in Hc1, Hc2.
  pose proof (Hat (Qfloor h1) (Qfloor h1 + 1) lo1 up1 ltac:(lia) L1 U1)
    as Hlu1.
  pose proof (Hat (Qfloor h2) (Qfloor h2 + 1) lo2 up2 ltac:(lia) L2 U2)
    as Hlu2.
  destruct (Z.eq_dec (Qfloor h1) (Qfloor h2)) as [Heq | Hne].
  - rewrite <- Heq in L2, U2, E2, Hf2, Hc2.
    assert (lo2 = lo1) by congruence. assert (up2 = up1) by congruence.
    subst lo2 up2.
    apply (lerp_monotone lo1 up1 x1 x2
             (h1 - inject_Z (Qfloor h1)) (h2 - inject_Z (Qfloor h1)));
      try assumption; lra.
  - assert (Hlt : Qfloor h1 + 1 <= Qfloor h2) by lia.
    pose proof (Hat (Qfloor h1 + 1) (Qfloor h2) up1 lo2 Hlt U1 L2) as Hmid.
    destruct (lerp_between lo1 up1 x1 (h1 - inject_Z (Qfloor h1)))
      as [_ Hx1]; try assumption; try lra.
    destruct (lerp_between lo2 up2 x2 (h2 - inject_Z (Qfloor h2)))
      as [Hx2 _]; try assumption; try lra.
    apply (float_leb_trans x1 up1 x2 Hx1).
    apply (float_leb_trans up1 lo2 x2 Hmid Hx2).
Qed.

Lemma ladder_levels :
  Forall (fun p => (p * 100 == inject_Z (pct_label p))%Q) extended_percentiles.
Proof.
  repeat constructor.
Qed.

Lemma dropna_In {B : Type} (l : list (option B)) (b : B) :
  In b (dropna l) <-> In (Some b) l.
Proof.
  induction l as [| x t IH]; [reflexivity |].
  destruct x as [x |]; cbn; rewrite IH; split.
  - intros [-> | H]; auto.
  - intros [H | H]; [injection H as ->; auto | auto].
  - auto.
  - intros [H | H]; [discriminate | auto].
Qed.

Section PercentileLadder.

Variable series_std : list float -> option float.
Variable series_skew : list float -> option float.
Variable series_kurtosis : list float -> option float.

Lemma group_percentiles_monotone (group : list (option float))
    (l1 l2 : Z) (c1 c2 : option float) :
  dropna group <> [] ->
  all_finite (dropna group) = true ->
  In (l1, c1)
     (st_percentiles (group_stats series_std series_skew series_kurtosis
                        group)) ->
  In (l2, c2)
     (st_percentiles (group_stats series_std series_skew series_kurtosis
                        group)) ->
  l1 <= l2 ->
  exists v1 v2, c1 = Some (Finite v1) /\ c2 = Some (Finite v2)
                /\ (v1 <= v2)%Q.
Proof.
  intros Hne Hfin. unfold group_stats.
  rewrite (data_group_stats series_std series_skew series_kurtosis group Hne).
  cbn [st_percentiles]. intros H1 H2 Hl.
  apply in_map_iff in H1. destruct H1 as [p1 [H1 Hp1]].
  apply in_map_iff in H2. destruct H2 as [p2 [H2 Hp2]].
  injection H1 as <- <-. injection H2 as <- <-.
  apply np_percentile_monotone; [exact Hne|exact Hfin|].
  pose proof ladder_levels as HL. rewrite Forall_forall in HL.
  rewrite (HL p1 Hp1), (HL p2 Hp2). now rewrite <- Zle_Qle.
Qed.

Lemma group_percentiles_ordered (group : list (option float))
    (l1 l2 : Z) (c1 c2 : option float) (x1 x2 : float) :
  In (l1, c1)
     (st_percentiles (group_stats series_std series_skew series_kurtosis
                        group)) ->
  In (l2, c2)
     (st_percentiles (group_stats series_std series_skew series_kurtosis
                        group)) ->
  l1 <= l2 ->
  c1 = Some x1 -> c2 = Some x2 ->
  float_leb x1 x2 = true.
Proof.
  rewrite group_stats_unfold.
  destruct (dropna group) as [| d ds] eqn:E; cbn [st_percentiles];
    intros H1 H2 Hl -> ->.
  - apply in_map_iff in H1. destruct H1 as [p [H1 _]]. discriminate H1.
  - apply in_map_iff in H1. destruct H1 as [p1 [H1 Hp1]].
    apply in_map_iff in H2. destruct H2 as [p2 [H2 Hp2]].
    injection H1 as <- E1. injection H2 as <- E2.
    apply (np_percentile_ordered (d :: ds) (p1 * 100) (p2 * 100));
      [| exact E1 | exact E2].
    pose proof ladder_levels as HL. rewrite Forall_forall in HL.
    rewrite (HL p1 Hp1), (HL p2 Hp2). now rewrite <- Zle_Qle.
Qed.

(** C9, as stated, fails: an observation with no price on record (a
    price of 0) has the book-to-market ratio +infinity; it passes the
    final filter, its month has one non-missing observation of the
    ratio, and every percentile of that month is NaN, so that no
    percentile is at most another. *)
Lemma infinite_ratio_has_no_percentiles :
  exists final table r s,
    calculate_indicators log_at_zero_and_one
      (get_crsp_data [[zero_price_obs]])
      [statement "001000" (mkdate 2018 12 31) 50%Q]
      (get_ccm_link single_link) = Some final
    /\ monthly_cross_sectional no_statistic no_statistic no_statistic
         fr_bm final = Some table
    /\ In r final /\ fr_period r = (2020, 1) /\ fr_bm r = Some PosInf
    /\ In ((2020, 1), s) table
    /\ st_count s = 1
    /\ forall l c, In (l, c) (st_percentiles s) -> c = None.
Proof.
  eexists. eexists. eexists. eexists.
  split; [vm_compute; reflexivity|].
  split; [vm_compute; reflexivity|].
  split; [left; reflexivity|].
  split; [reflexivity|]. split; [reflexivity|].
  split; [left; reflexivity|]. split; [reflexivity|].
  intros l c H. cbn [st_percentiles] in H.
  repeat (destruct H as [H|H]; [now inversion H|]). contradiction.
Qed.

(** C9, amended: in the monthly table of a variable, the row of a
    (year, month) with at least one non-missing observation has its
    percentiles that are not NaN in the order of the ladder: for keys
    p[l1] and p[l2] with l1 <= l2 whose values are not NaN, the value of
    p[l1] is at most the value of p[l2].  When no observation of the
    month is infinite, every percentile is present and finite. *)
Theorem percentile_ladder_monotone (var : final_row -> option float)
    (final : list final_row) (table : list (period * cs_stats))
    (k : period) (s : cs_stats) (l1 l2 : Z) (c1 c2 : option float) :
  monthly_cross_sectional series_std series_skew series_kurtosis var final
  = Some table ->
  In (k, s) table ->
  (exists r, In r final /\ fr_period r = k /\ var r <> None) ->
  In (l1, c1) (st_percentiles s) ->
  In (l2, c2) (st_percentiles s) ->
  l1 <= l2 ->
  (forall x1 x2, c1 = Some x1 -> c2 = Some x2 -> float_leb x1 x2 = true)
  /\ ((forall r v, In r final -> fr_period r = k -> var r = Some v ->
                   is_finite v = true) ->
      exists v1 v2, c1 = Some (Finite v1) /\ c2 = Some (Finite v2)
                    /\ (v1 <= v2)%Q).
Proof.
  rewrite monthly_cross_sectional_rows. intros Ht. injection Ht as <-.
  unfold monthly_rows, groupby_period. rewrite map_map.
  intros Hks [r [Hr [Hk Hv]]].
  apply in_map_iff in Hks. destruct Hks as [k' [Hks _]].
  cbn [fst snd] in Hks. injection Hks as -> <-.
  intros H1 H2 Hl. split.
  - intros x1 x2 E1 E2.
    exact (group_percentiles_ordered _ l1 l2 c1 c2 x1 x2 H1 H2 Hl E1 E2).
  - intros Hfin. revert H1 H2 Hl. apply group_percentiles_monotone.
    + destruct (var r) as [v|] eqn:Ev; [|congruence].
      assert (Hin : In v (dropna (map var (filter (fun r0 =>
                            period_eqb (fr_period r0) k) final)))).
      { apply dropna_In. rewrite <- Ev. apply in_map, filter_In.
        split; [exact Hr|].
        rewrite Hk. destruct k as [y m]. unfold period_eqb. simpl.
        now rewrite !Z.eqb_refl. }
      intros E. rewrite E in Hin. contradiction.
    + unfold all_finite. apply forallb_forall. intros v Hin.
      apply dropna_In, in_map_iff in Hin. destruct Hin as [r' [Ev Hr']].
      apply filter_In in Hr'. destruct Hr' as [Hr' Hp].
      apply (Hfin r' v Hr'); [|exact Ev]. now apply period_eqb_eq.
Qed.

End PercentileLadder.

(* ----------------------------------------------------------------- *)
(** ** Grouped transforms and the characteristics *)

Lemma with_rank_from_fst {A : Type} (same : A -> A -> bool)
    (before l : list A) :
  map fst (with_rank_from same before l) = l.
Proof.
  revert before. induction l as [|x t IH]; intros before; simpl.
  - reflexivity.
  - now rewrite IH.
Qed.

(** The rows of one group come with the positions 0, 1, 2, ... *)
Lemma with_rank_from_filter {A : Type} (same : A -> A -> bool)
    (P : A -> bool) (before l : list A) :
  (forall y z, P y = true -> same y z = P z) ->
  filter (fun xj => P (fst xj)) (with_rank_from same before l)
  = combine (filter P l)
            (seq (List.length (filter P before)) (List.length (filter P l))).
Proof.
  intros HP. revert before.
  induction l as [|x t IH]; intros before; simpl; [reflexivity|].
  destruct (P x) eqn:Px; simpl.
  - rewrite (filter_ext _ _ (fun z => HP x z Px)). f_equal.
    rewrite IH. simpl. now rewrite Px.
  - rewrite IH. simpl. now rewrite Px.
Qed.

Lemma combine_map {A B C : Type} (f : A -> B) (g : A -> C) (l : list A) :
  combine (map f l) (map g l) = map (fun x => (f x, g x)) l.
Proof.
  induction l as [|x t IH]; simpl; [reflexivity|]. now rewrite IH.
Qed.

Lemma indicators_rows (np_log : Q -> option float) (merged : list merged_row) :
  indicators np_log merged
  = map (assemble np_log (sort_values permno_date_leb merged))
        (with_rank_from same_permno [] (sort_values permno_date_leb merged)).
Proof.
  unfold indicators, groupby_transform.
  set (df := sort_values permno_date_leb merged).
  set (rows := with_rank_from same_permno [] df).
  fold (group_cell same_permno (fun g => shift1 (map m_ret g)) df).
  fold (group_cell same_permno
          (fun g => rolling_apply 12 8 compound (map m_ret g)) df).
  rewrite combine_map.
  rewrite <- (with_rank_from_fst same_permno [] df) at 1. fold rows.
  rewrite combine_map, map_map. reflexivity.
Qed.

(** The frame of step 4 has the rows of the joined panel, sorted. *)
Lemma indicators_panel (np_log : Q -> option float) (merged : list merged_row) :
  map df_m (indicators np_log merged) = sort_values permno_date_leb merged.
Proof.
  rewrite indicators_rows, map_map.
  apply (with_rank_from_fst same_permno []).
Qed.

Lemma same_period_count (x : merged_row) (merged : list merged_row) :
  Z.of_nat (List.length (filter (same_period x)
                           (sort_values permno_date_leb merged)))
  = rows_in_period (dyear (m_date x)) (dmonth (m_date x)) merged.
Proof.
  unfold rows_in_period. f_equal.
  rewrite (Permutation_length
             (filter_perm (same_period x) _ _
                (Permutation_sym (sort_values_perm permno_date_leb merged)))).
  f_equal. apply filter_ext. intros r. unfold same_period.
  now rewrite (Z.eqb_sym (dyear (m_date x))), (Z.eqb_sym (dmonth (m_date x))).
Qed.

(** Every row of step 4 carries the number of rows of the joined panel
    that fall in its month. *)
Lemma indicators_n (np_log : Q -> option float) (merged : list merged_row)
    (d : df_row) :
  In d (indicators np_log merged) ->
  df_year d = dyear (m_date (df_m d))
  /\ df_month d = dmonth (m_date (df_m d))
  /\ df_n d = rows_in_period (df_year d) (df_month d) merged.
Proof.
  rewrite indicators_rows. intros H.
  apply in_map_iff in H. destruct H as [xj [<- _]].
  cbn [assemble df_year df_month df_n df_m].
  repeat split. apply same_period_count.
Qed.

Lemma final_stats_n (np_log : Q -> option float) (merged : list merged_row)
    (r : final_row) :
  In r (final_stats np_log merged) ->
  fr_n r = rows_in_period (fr_year r) (fr_month r) merged.
Proof.
  unfold final_stats. rewrite filter_In. intros [H _].
  apply in_map_iff in H. destruct H as [d [<- Hd]].
  cbn [select_final fr_n fr_year fr_month].
  now apply indicators_n in Hd.
Qed.

(** C6, as stated, fails: an observation linked to two fundamentals keys
    gives two rows in its month, and both carry period_count 2 although
    the month holds a single permno. *)
Lemma period_count_exceeds_distinct_permnos :
  exists final r,
    calculate_indicators log_at_one (get_crsp_data [[sample_obs]]) two_firms
      (get_ccm_link overlapping_links) = Some final
    /\ In r final
    /\ fr_n r = 2
    /\ distinct_permnos (fr_year r) (fr_month r) final = 1.
Proof.
  eexists. eexists. split; [vm_compute; reflexivity|].
  split; [left; reflexivity|]. split; reflexivity.
Qed.

(** C6, amended: the period_count of a row of the final panel is the
    number of rows of the joined panel (before the rows with missing
    values are dropped) in that row's (year, month), a security counting
    once per row; all rows of one (year, month) carry the same value. *)
Theorem period_count_counts_rows (np_log : Q -> option float)
    (merged : list merged_row) (r : final_row) :
  In r (final_stats np_log merged) ->
  fr_n r = rows_in_period (fr_year r) (fr_month r) merged
  /\ (forall r', In r' (final_stats np_log merged) ->
                 fr_year r' = fr_year r -> fr_month r' = fr_month r ->
                 fr_n r' = fr_n r).
Proof.
  intros H. split; [now apply (final_stats_n np_log)|].
  intros r' H' Hy Hm.
  rewrite (final_stats_n _ _ _ H), (final_stats_n _ _ _ H'), Hy, Hm.
  reflexivity.
Qed.

(* ----------------------------------------------------------------- *)
(** ** Momentum *)

Lemma map_constant {A B : Type} (f : A -> B) (c : B) (l : list A) :
  (forall x, In x l -> f x = c) -> map f l = repeat c (List.length l).
Proof.
  induction l as [|x t IH]; simpl; intros H; [reflexivity|].
  rewrite (H x (or_introl eq_refl)), IH; [reflexivity|].
  intros y Hy. apply H. now right.
Qed.

(** C3, at the failing input: on twelve monthly returns of 0.01 the
    momentum that the program gives to the twelfth observation differs
    from (1.01^11 - 1) - 0.01, the value of the claim and of the
    program's own comments (the 12-month return skipping the most recent
    month; the past 11 months' return). *)
Lemma momentum_is_not_eleven_month_compound :
  exists final r,
    calculate_indicators log_at_one (get_crsp_data [twelve_months])
      [statement "001000" (mkdate 2018 12 31) 50%Q]
      (get_ccm_link single_link) = Some final
    /\ nth_error final 11 = Some r
    /\ ~ cell_eq (fr_mom r) (Some ((1.01 ^ 11 - 1) - 0.01)%Q).
Proof.
  eexists. eexists. split; [vm_compute; reflexivity|].
  split; [reflexivity|]. vm_compute. discriminate.
Qed.

(** C3, what the program computes: for a security with exactly twelve
    rows in the joined panel, all with return 0.01, the momentum of the
    twelfth row (in date order) is (1.01^12 - 1) - 0.01.  The rolling
    window of twelve rows ends at the current row, so that the compounded
    return holds the most recent month, which the claim and the
    program's comments leave out. *)
Theorem momentum_of_twelve_returns (np_log : Q -> option float)
    (merged : list merged_row) (p : Z) :
  List.length (filter (fun m => m_permno m =? p) merged) = 12%nat ->
  (forall m, In m merged -> m_permno m = p -> m_ret m = Some 0.01%Q) ->
  exists r,
    nth_error (rows_of_permno p (indicators np_log merged)) 11 = Some r
    /\ df_ret_lag1 r = Some 0.01%Q
    /\ cell_eq (df_ret_cumulative r) (Some (1.01 ^ 12 - 1)%Q)
    /\ cell_eq (df_mom r) (Some ((1.01 ^ 12 - 1) - 0.01)%Q).
Proof.
  intros Hlen Hret.
  set (P := fun m => m_permno m =? p).
  set (df := sort_values permno_date_leb merged).
  assert (HP : forall y z, P y = true -> same_permno y z = P z).
  { intros y z Hy. unfold P, same_permno in *.
    apply Z.eqb_eq in Hy. rewrite Hy. apply Z.eqb_sym. }
  assert (Hlen' : List.length (filter P df) = 12%nat).
  { rewrite <- Hlen. apply Permutation_length, filter_perm.
    apply Permutation_sym, sort_values_perm. }
  assert (Hrets : map m_ret (filter P df) = repeat (Some 0.01%Q) 12).
  { rewrite <- Hlen'. apply map_constant. intros x Hx.
    apply filter_In in Hx. destruct Hx as [Hx HPx].
    apply Hret; [now apply (sort_values_In permno_date_leb)|].
    now apply Z.eqb_eq. }
  rewrite indicators_rows. fold df. unfold rows_of_permno.
  rewrite filter_map_swap.
  change (filter (fun a => m_permno (df_m (assemble np_log df a)) =? p))
    with (filter (fun xj : merged_row * nat => P (fst xj))).
  rewrite (with_rank_from_filter same_permno P [] df HP).
  cbn [filter List.length]. rewrite Hlen'.
  destruct (filter P df) as [|g0 [|g1 [|g2 [|g3 [|g4 [|g5 [|g6 [|g7 [|g8
    [|g9 [|g10 [|g11 [|g12 G]]]]]]]]]]]]] eqn:EG; try discriminate.
  assert (HP11 : P g11 = true).
  { assert (Hin : In g11 (filter P df)) by (rewrite EG; simpl; tauto).
    apply filter_In in Hin. tauto. }
  exists (assemble np_log df (g11, 11%nat)). split; [reflexivity|].
  unfold assemble, group_cell. cbn [fst snd df_ret_lag1 df_ret_cumulative df_mom].
  rewrite (filter_ext _ _ (fun z => HP g11 z HP11)), EG, Hrets.
  split; [reflexivity|]. split; vm_compute; reflexivity.
Qed.

Lemma momentum_of_twelve_returns_witness :
  exists r,
    nth_error (rows_of_permno 10107 (indicators log_at_one twelve_month_panel))
              11 = Some r
    /\ df_ret_lag1 r = Some 0.01%Q
    /\ cell_eq (df_ret_cumulative r) (Some (1.01 ^ 12 - 1)%Q)
    /\ cell_eq (df_mom r) (Some ((1.01 ^ 12 - 1) - 0.01)%Q).
Proof.
  apply (momentum_of_twelve_returns log_at_one twelve_month_panel 10107).
  - vm_compute. reflexivity.
  - intros m Hm _. vm_compute in Hm.
    repeat (destruct Hm as [<-|Hm]; [reflexivity|]). contradiction.
Defined.

(* ----------------------------------------------------------------- *)
(** ** White space of keys *)

Lemma lstrip_idem (s : string) : lstrip (lstrip s) = lstrip s.
Proof.
  induction s as [|c t IH]; simpl; [reflexivity|].
  destruct (is_space c) eqn:E; [exact IH|]. simpl. now rewrite E.
Qed.

Lemma rstrip_idem (s : string) : rstrip (rstrip s) = rstrip s.
Proof.
  induction s as [|c t IH]; simpl; [reflexivity|].
  destruct (rstrip t) as [|c' t'] eqn:E.
  - destruct (is_space c) eqn:Ec; simpl; [reflexivity|]. now rewrite Ec.
  - change (rstrip (String c (String c' t')))
      with (match rstrip (String c' t') with
            | EmptyString =>
                if is_space c then EmptyString else String c EmptyString
            | t'' => String c t''
            end).
    now rewrite IH.
Qed.

Lemma rstrip_lstrip (u : string) : rstrip u = u -> rstrip (lstrip u) = lstrip u.
Proof.
  induction u as [|c t IH]; simpl; [reflexivity|].
  intros H. destruct (is_space c) eqn:Ec.
  - apply IH. destruct (rstrip t) as [|c' t'] eqn:E.
    + discriminate.
    + now injection H.
  - simpl. rewrite Ec. exact H.
Qed.

Lemma strip_idem (s : string) : strip (strip s) = strip s.
Proof.
  unfold strip. rewrite (rstrip_lstrip (rstrip s) (rstrip_idem s)).
  apply lstrip_idem.
Qed.

(* ----------------------------------------------------------------- *)
(** ** The first two strategies never look ahead *)

Lemma asof_step_fold (l : crsp_ccm_row) (right : list comp_row)
    (found : option comp_row) (c : comp_row) :
  fold_left (asof_step l) right found = Some c ->
  found = Some c
  \/ (In c right
      /\ cp_gvkey c = cc_gvkey l
      /\ date_leb (cp_available_date c) (cc_date l) = true).
Proof.
  revert found. induction right as [|x t IH]; simpl; intros found H.
  - now left.
  - apply IH in H. destruct H as [H|[H1 H2]]; [|right; tauto].
    unfold asof_step in H.
    destruct (String.eqb (cp_gvkey x) (cc_gvkey l)
              && date_leb (cp_available_date x) (cc_date l)) eqn:E.
    + injection H as ->. apply andb_true_iff in E. destruct E as [E1 E2].
      apply String.eqb_eq in E1. right. tauto.
    + now left.
Qed.

Lemma asof_backward_sound (l : crsp_ccm_row) (right : list comp_row)
    (c : comp_row) :
  asof_backward l right = Some c ->
  In c right
  /\ cp_gvkey c = cc_gvkey l
  /\ date_leb (cp_available_date c) (cc_date l) = true.
Proof.
  intros H. apply asof_step_fold in H. destruct H as [H|H]; [discriminate|].
  exact H.
Qed.

Lemma merge_asof_matched (left : list crsp_ccm_row) (right : list comp_row)
    (out : list merged_row) (m : merged_row) :
  merge_asof left right = Some out ->
  In m out ->
  m_be m <> None ->
  exists l c,
    m = matched l c /\ In l left
    /\ asof_backward l right = Some c
    /\ within_tolerance l c = true.
Proof.
  unfold merge_asof.
  destruct (is_monotonic date_leb (map cc_date left)
            && is_monotonic date_leb (map cp_available_date right));
    [|discriminate].
  intros H Hm Hbe. injection H as <-.
  apply in_map_iff in Hm. destruct Hm as [l [Hm Hl]].
  destruct (asof_backward l right) as [c|] eqn:E.
  - destruct (within_tolerance l c) eqn:T.
    + exists l, c. auto.
    + subst m. now elim Hbe.
  - subst m. now elim Hbe.
Qed.

Lemma tier1_matched (crsp_ccm : list crsp_ccm_row) (comp : list comp_row)
    (out : list merged_row) (m : merged_row) :
  tier1 crsp_ccm comp = Some out ->
  In m out ->
  m_be m <> None ->
  exists x c,
    In x crsp_ccm /\ In c comp
    /\ m = matched (strip_cc x) (strip_cp c)
    /\ strip (cp_gvkey c) = strip (cc_gvkey x)
    /\ date_leb (cp_available_date c) (cc_date x) = true.
Proof.
  unfold tier1.
  destruct (groups_monotonic cc_gvkey cc_date _
            && groups_monotonic cp_gvkey cp_available_date _); [|discriminate].
  intros H Hm Hbe.
  destruct (merge_asof_matched _ _ _ _ H Hm Hbe) as [l [c [-> [Hl [Ha _]]]]].
  apply asof_backward_sound in Ha. destruct Ha as [Hc [Hg Hd]].
  apply sort_values_In, in_map_iff in Hl. destruct Hl as [x [<- Hx]].
  apply sort_values_In, in_map_iff in Hc. destruct Hc as [c0 [<- Hc0]].
  exists x, c0. repeat split; assumption.
Qed.

(** The bisection only ever moves its lower bound past a date that is
    not after the searched one. *)
Lemma bisect_right_sound (fuel : nat) (a : list date) (v : date)
    (lo hi k : nat) :
  (forall j, lo = S j ->
             exists x, nth_error a j = Some x /\ date_leb x v = true) ->
  bisect_right fuel a v lo hi = S k ->
  exists x, nth_error a k = Some x /\ date_leb x v = true.
Proof.
  revert lo hi.
  induction fuel as [|fuel IH]; cbn [bisect_right]; intros lo hi Hlo H.
  - now apply Hlo.
  - destruct (lo <? hi)%nat; [|now apply Hlo].
    destruct (nth_error a (lo + (hi - lo) / 2)) as [x|] eqn:E;
      [|now apply Hlo].
    destruct (date_leb x v) eqn:Ex.
    + apply (IH (S (lo + (hi - lo) / 2)) hi); [|exact H].
      intros j Hj. injection Hj as <-. eauto.
    + now apply (IH _ _ Hlo H).
Qed.

Lemma searchsorted_right_sound (a : list date) (v : date) (k : nat) :
  searchsorted_right a v = S k ->
  exists x, nth_error a k = Some x /\ date_leb x v = true.
Proof.
  apply bisect_right_sound. intros j Hj. discriminate.
Qed.

Lemma tier2_group_matched (crsp_ccm : list crsp_ccm_row)
    (comp : list comp_row) (gvkey : string) (m : merged_row) :
  In m (tier2_group crsp_ccm comp gvkey) ->
  exists l c,
    m = matched l c /\ In l crsp_ccm /\ In c comp
    /\ cc_gvkey l = gvkey /\ cp_gvkey c = gvkey
    /\ date_leb (cp_available_date c) (cc_date l) = true.
Proof.
  unfold tier2_group, crsp_subset_of. intros H.
  apply in_flat_map in H. destruct H as [l [Hl H]].
  apply sort_values_In, filter_In in Hl. destruct Hl as [Hl Hg].
  apply String.eqb_eq in Hg.
  set (comp_subset := comp_subset_of comp gvkey) in *.
  destruct (searchsorted_right (map cp_available_date comp_subset) (cc_date l))
    as [|k] eqn:E.
  - simpl in H. contradiction.
  - replace (Z.to_nat (Z.of_nat (S k) - 1)) with k in H by lia.
    destruct (0 <=? Z.of_nat (S k) - 1); [|contradiction].
    destruct (nth_error comp_subset k) as [c|] eqn:Ec; [|contradiction].
    destruct H as [<-|[]].
    apply searchsorted_right_sound in E. destruct E as [x [Hx Hle]].
    rewrite nth_error_map, Ec in Hx. injection Hx as <-.
    apply nth_error_In in Ec. unfold comp_subset, comp_subset_of in Ec.
    apply sort_values_In, filter_In in Ec. destruct Ec as [Hc Hcg].
    apply String.eqb_eq in Hcg.
    exists l, c. repeat split; assumption.
Qed.

Lemma tier2_matched (crsp_ccm : list crsp_ccm_row) (comp : list comp_row)
    (out : list merged_row) (m : merged_row) :
  tier2 crsp_ccm comp = Some out ->
  In m out ->
  exists l c,
    m = matched l c /\ In l crsp_ccm /\ In c comp
    /\ cp_gvkey c = cc_gvkey l
    /\ date_leb (cp_available_date c) (cc_date l) = true.
Proof.
  unfold tier2.
  destruct (filter nonempty _) as [|g gs] eqn:E; [discriminate|].
  intros H Hm. injection H as <-.
  change (In m (List.concat (g :: gs))) in Hm. rewrite <- E in Hm.
  apply in_concat in Hm. destruct Hm as [grp [Hgrp Hm]].
  apply filter_In in Hgrp. destruct Hgrp as [Hgrp _].
  apply in_map_iff in Hgrp. destruct Hgrp as [gvkey [<- _]].
  apply tier2_group_matched in Hm.
  destruct Hm as [l [c [-> [Hl [Hc [Hg1 [Hg2 Hd]]]]]]].
  exists l, c. repeat split; try assumption. congruence.
Qed.

Lemma prepare_crsp_ccm_In (l : list crsp_ccm_row) (x : crsp_ccm_row) :
  In x (prepare_crsp_ccm l) -> In x l.
Proof.
  unfold prepare_crsp_ccm. intros H.
  apply drop_duplicates_In in H. now apply sort_values_In in H.
Qed.

Lemma prepare_comp_In (l : list comp_row) (c : comp_row) :
  In c (prepare_comp l) -> In c l.
Proof.
  unfold prepare_comp. intros H.
  apply drop_duplicates_In in H. now apply sort_values_In in H.
Qed.

(** C1, as stated, fails: with one calendar year of data for two firms
    the first two strategies find nothing, the calendar-year match is
    used, and the observation of 2020-03-31 receives the book equity of
    the statement of 2020-12-31, available only on 2021-06-30. *)
Lemma calendar_year_match_looks_ahead :
  exists merged,
    merge_all (get_crsp_data [one_year_crsp]) one_year_comp
              (get_ccm_link one_year_links) = Some (Tier3, merged)
    /\ ~ no_look_ahead (process_comp one_year_comp) merged.
Proof.
  eexists. split; [vm_compute; reflexivity|].
  intros H. specialize (H _ (or_introl eq_refl)).
  destruct H as [c [Hc [_ [_ Hd]]]].
  vm_compute in Hc. destruct Hc as [<-|[]].
  vm_compute in Hd. discriminate.
Qed.

(** C1, amended: when the joined panel comes from the merge_asof join or
    from the per-key binary search, every row is matched to a
    fundamentals record of its firm whose availability date is not after
    the observation date, and carries that availability date.  (The
    calendar-year match joins on the year of the statement date and gives
    no such guarantee.) *)
Theorem no_look_ahead_first_two_tiers (crsp_data : list crsp_row)
    (comp_data : list funda_row) (ccm_link : list ccm_row)
    (t : tier) (merged : list merged_row) :
  merge_all crsp_data comp_data ccm_link = Some (t, merged) ->
  t <> Tier3 ->
  no_look_ahead (process_comp comp_data) merged
  /\ (forall m, In m merged ->
        exists a, m_available_date m = Some a
                  /\ date_leb a (m_date m) = true).
Proof.
  unfold merge_all. destruct (link_join crsp_data ccm_link) as [|x0 xs];
    [discriminate|].
  set (crsp_ccm := prepare_crsp_ccm (x0 :: xs)).
  set (comp := prepare_comp (process_comp comp_data)).
  unfold joined_panel, join_ladder. intros H Ht.
  assert (Hrows : forall m, In m merged ->
            exists c, In c (process_comp comp_data)
              /\ strip (cp_gvkey c) = strip (cc_gvkey (m_row m))
              /\ cp_be c = m_be m
              /\ m_available_date m = Some (cp_available_date c)
              /\ date_leb (cp_available_date c) (m_date m) = true).
  { destruct (tier1 crsp_ccm comp) as [out1|] eqn:T1.
    - destruct (filter (fun r => notna (m_be r)) out1) as [|y ys] eqn:F;
        [discriminate|].
      injection H as _ <-. rewrite <- F. intros m Hm.
      apply filter_In in Hm. destruct Hm as [Hm Hbe].
      apply notna_true in Hbe.
      destruct (tier1_matched _ _ _ _ T1 Hm Hbe)
        as [x [c [Hx [Hc [-> [Hg Hd]]]]]].
      exists c. split; [now apply prepare_comp_In|].
      unfold matched, strip_cc, strip_cp, m_date, cc_date.
      cbn [m_row m_be m_available_date cc_gvkey cc_obs cp_be
           cp_available_date].
      rewrite strip_idem. auto.
    - destruct (tier2 crsp_ccm comp) as [out2|] eqn:T2.
      + destruct (filter (fun r => notna (m_be r)) out2) as [|y ys] eqn:F;
          [discriminate|].
        injection H as _ <-. rewrite <- F. intros m Hm.
        apply filter_In in Hm. destruct Hm as [Hm _].
        destruct (tier2_matched _ _ _ _ T2 Hm)
          as [l [c [-> [Hl [Hc [Hg Hd]]]]]].
        exists c. split; [now apply prepare_comp_In|].
        unfold matched, m_date.
        cbn [m_row m_be m_available_date]. rewrite Hg. auto.
      + destruct (tier3 crsp_ccm comp) as [|z zs]; [discriminate|].
        destruct (filter _ (z :: zs)); [discriminate|].
        injection H as <- _. congruence. }
  split.
  - intros m Hm. destruct (Hrows m Hm) as [c Hc]. exists c. tauto.
  - intros m Hm. destruct (Hrows m Hm) as [c Hc].
    exists (cp_available_date c). tauto.
Qed.

(* ----------------------------------------------------------------- *)
(** ** Both searches select the as-of record *)

Lemma is_monotonic_sorted {A : Type} (leb : A -> A -> bool) (l : list A) :
  (forall a b c, leb a b = true -> leb b c = true -> leb a c = true) ->
  is_monotonic leb l = true ->
  StronglySorted (fun a b => leb a b = true) l.
Proof.
  intros Htrans. induction l as [|x t IH]; intros H; [constructor|].
  destruct t as [|y t']; [repeat constructor|].
  cbn [is_monotonic] in H. apply andb_true_iff in H. destruct H as [Hxy Ht].
  specialize (IH Ht). constructor; [exact IH|].
  constructor; [exact Hxy|].
  apply StronglySorted_inv in IH. destruct IH as [_ Hy].
  rewrite Forall_forall in *. intros z Hz. eauto.
Qed.

Lemma sorted_app_inv {A : Type} (R : A -> A -> Prop) (l1 l2 : list A) :
  StronglySorted R (l1 ++ l2) ->
  StronglySorted R l1
  /\ (forall x y, In x l1 -> In y l2 -> R x y).
Proof.
  induction l1 as [|a t IH]; simpl; intros H.
  - split; [constructor|contradiction].
  - apply StronglySorted_inv in H. destruct H as [Ht Ha].
    destruct (IH Ht) as [IH1 IH2]. rewrite Forall_forall in Ha. split.
    + constructor; [exact IH1|]. rewrite Forall_forall. intros x Hx.
      apply Ha, in_or_app. now left.
    + intros x y [<-|Hx] Hy; [|now apply IH2].
      apply Ha, in_or_app. now right.
Qed.

Lemma sorted_nth_error (a : list date) :
  StronglySorted (fun x y => date_leb x y = true) a ->
  forall i j x y, (i <= j)%nat ->
    nth_error a i = Some x -> nth_error a j = Some y ->
    date_leb x y = true.
Proof.
  induction 1 as [|z t Hs IH Hz]; intros i j x y Hij Hi Hj.
  - destruct i; discriminate.
  - destruct i as [|i], j as [|j]; simpl in Hi, Hj; try lia.
    + injection Hi as <-. injection Hj as <-. apply date_leb_refl.
    + injection Hi as <-. rewrite Forall_forall in Hz.
      apply Hz. eapply nth_error_In. exact Hj.
    + apply (IH i j); [lia|assumption|assumption].
Qed.

(** The last matching row of a frame sorted on the date is the as-of
    record. *)
Lemma asof_backward_latest (l : crsp_ccm_row) (right : list comp_row)
    (c : comp_row) :
  StronglySorted (fun x y => date_leb x y = true)
                 (map cp_available_date right) ->
  asof_backward l right = Some c ->
  as_of_record right (cc_gvkey l) (cc_date l) c.
Proof.
  intros Hs H. pose proof (asof_backward_sound _ _ _ H) as [Hin [Hg Hd]].
  repeat split; try assumption. clear Hin Hg Hd.
  revert c Hs H. unfold asof_backward.
  induction right as [|x t IH] using rev_ind; intros c Hs H c' Hc' Hg' Hd'.
  - contradiction.
  - rewrite map_app in Hs. apply sorted_app_inv in Hs.
    destruct Hs as [Hs1 Hs2].
    rewrite fold_left_app in H. cbn [fold_left] in H.
    unfold asof_step at 1 in H.
    apply in_app_or in Hc'.
    destruct (String.eqb (cp_gvkey x) (cc_gvkey l)
              && date_leb (cp_available_date x) (cc_date l)) eqn:E.
    + injection H as <-. destruct Hc' as [Hc'|[<-|[]]].
      * apply Hs2; [now apply in_map|now left].
      * apply date_leb_refl.
    + destruct Hc' as [Hc'|[<-|[]]].
      * now apply (IH c Hs1 H).
      * rewrite Hd', Hg', String.eqb_refl in E. discriminate.
Qed.

Lemma asof_step_keeps (l : crsp_ccm_row) (right : list comp_row)
    (c : comp_row) :
  exists c', fold_left (asof_step l) right (Some c) = Some c'.
Proof.
  revert c. induction right as [|x t IH]; intros c; simpl.
  - now exists c.
  - unfold asof_step at 2. destruct (_ && _); apply IH.
Qed.

Lemma asof_backward_finds (l : crsp_ccm_row) (right : list comp_row)
    (c : comp_row) :
  In c right ->
  cp_gvkey c = cc_gvkey l ->
  date_leb (cp_available_date c) (cc_date l) = true ->
  exists c', asof_backward l right = Some c'.
Proof.
  unfold asof_backward. generalize (@None comp_row) as found.
  induction right as [|x t IH]; intros found Hin Hg Hd; [contradiction|].
  simpl. destruct Hin as [->|Hin].
  - unfold asof_step at 2. rewrite Hg, Hd, String.eqb_refl. simpl.
    apply asof_step_keeps.
  - now apply IH.
Qed.

(** The bisection on a sorted column returns the insertion point to the
    right of the searched date. *)
Lemma bisect_right_spec (a : list date) (v : date) :
  StronglySorted (fun x y => date_leb x y = true) a ->
  forall fuel lo hi,
    (lo <= hi <= List.length a)%nat ->
    (hi - lo <= fuel)%nat ->
    (forall i x, (i < lo)%nat -> nth_error a i = Some x ->
                 date_leb x v = true) ->
    (forall i x, (hi <= i)%nat -> nth_error a i = Some x ->
                 date_leb x v = false) ->
    let k := bisect_right fuel a v lo hi in
    (forall i x, (i < k)%nat -> nth_error a i = Some x ->
                 date_leb x v = true)
    /\ (forall i x, (k <= i)%nat -> nth_error a i = Some x ->
                    date_leb x v = false).
Proof.
  intros Hs. induction fuel as [|fuel IH]; intros lo hi Hb Hf Hlo Hhi.
  - cbn [bisect_right]. replace hi with lo in Hhi by lia. now split.
  - cbn [bisect_right]. destruct (lo <? hi)%nat eqn:Elt.
    + apply Nat.ltb_lt in Elt.
      set (mid := (lo + (hi - lo) / 2)%nat).
      assert (Hmid : (lo <= mid < hi)%nat).
      { unfold mid. split; [lia|].
        pose proof (Nat.div_lt (hi - lo) 2). lia. }
      destruct (nth_error a mid) as [x|] eqn:Ex.
      * destruct (date_leb x v) eqn:Exv.
        -- apply IH; [lia|lia| |exact Hhi].
           intros i y Hi Hy.
           apply (date_leb_trans y x v); [|exact Exv].
           apply (sorted_nth_error a Hs i mid); [lia|assumption|assumption].
        -- apply IH; [lia|lia|exact Hlo|].
           intros i y Hi Hy.
           destruct (date_leb y v) eqn:Eyv; [|reflexivity].
           rewrite <- Exv. symmetry.
           apply (date_leb_trans x y v); [|exact Eyv].
           apply (sorted_nth_error a Hs mid i); [lia|assumption|assumption].
      * apply nth_error_None in Ex. lia.
    + apply Nat.ltb_ge in Elt. replace hi with lo in Hhi by lia. now split.
Qed.

Lemma searchsorted_right_spec (a : list date) (v : date) :
  StronglySorted (fun x y => date_leb x y = true) a ->
  (forall i x, (i < searchsorted_right a v)%nat -> nth_error a i = Some x ->
               date_leb x v = true)
  /\ (forall i x, (searchsorted_right a v <= i)%nat ->
                  nth_error a i = Some x -> date_leb x v = false).
Proof.
  intros Hs. unfold searchsorted_right.
  apply (bisect_right_spec a v Hs); try lia.
  intros i x Hi Hx. assert (nth_error a i <> None) by congruence.
  apply nth_error_Some in H. lia.
Qed.

Lemma bisect_right_bounds (a : list date) (v : date) (fuel lo hi : nat) :
  (lo <= hi)%nat ->
  (lo <= bisect_right fuel a v lo hi <= hi)%nat.
Proof.
  revert lo hi. induction fuel as [|fuel IH]; intros lo hi Hb;
    cbn [bisect_right]; [lia|].
  destruct (lo <? hi)%nat eqn:Elt; [|lia].
  apply Nat.ltb_lt in Elt.
  assert (Hmid : (lo <= lo + (hi - lo) / 2 < hi)%nat).
  { split; [lia|]. pose proof (Nat.div_lt (hi - lo) 2). lia. }
  destruct (nth_error a (lo + (hi - lo) / 2)) as [x|]; [|lia].
  destruct (date_leb x v).
  - pose proof (IH (S (lo + (hi - lo) / 2)) hi ltac:(lia)). lia.
  - pose proof (IH lo (lo + (hi - lo) / 2)%nat ltac:(lia)). lia.
Qed.

Lemma searchsorted_right_le (a : list date) (v : date) :
  (searchsorted_right a v <= List.length a)%nat.
Proof.
  unfold searchsorted_right.
  pose proof (bisect_right_bounds a v (List.length a) 0 (List.length a)).
  lia.
Qed.

Lemma sorted_map {A : Type} (val : A -> date) (l : list A) :
  StronglySorted (fun a b => date_col_leb val a b = true) l ->
  StronglySorted (fun x y => date_leb x y = true) (map val l).
Proof.
  induction 1 as [|x t Hs IH Hx]; simpl; constructor; [exact IH|].
  rewrite Forall_forall in *. intros y Hy.
  apply in_map_iff in Hy. destruct Hy as [z [<- Hz]]. now apply Hx.
Qed.

Section PerKeySearch.

Variable crsp_ccm : list crsp_ccm_row.
Variable comp : list comp_row.
Variable gvkey : string.

Lemma comp_subset_In (c : comp_row) :
  In c (comp_subset_of comp gvkey) <-> In c comp /\ cp_gvkey c = gvkey.
Proof.
  unfold comp_subset_of. rewrite sort_values_In, filter_In, String.eqb_eq.
  reflexivity.
Qed.

Lemma comp_subset_sorted :
  StronglySorted (fun x y => date_leb x y = true)
                 (map cp_available_date (comp_subset_of comp gvkey)).
Proof.
  unfold comp_subset_of. apply sorted_map, sort_values_sorted; unfold date_col_leb.
  - intros a b. apply date_leb_total.
  - intros a b c. apply date_leb_trans.
Qed.

(** The record at the insertion point minus one is the as-of record. *)
Lemma searchsorted_as_of (d : date) (k : nat) (c : comp_row) :
  searchsorted_right (map cp_available_date (comp_subset_of comp gvkey)) d = S k ->
  nth_error (comp_subset_of comp gvkey) k = Some c ->
  as_of_record comp gvkey d c.
Proof.
  intros Hk Hc.
  destruct (searchsorted_right_spec _ d comp_subset_sorted) as [Hlt Hge].
  rewrite Hk in Hlt, Hge.
  pose proof (nth_error_In _ _ Hc) as Hin. apply comp_subset_In in Hin.
  destruct Hin as [Hin Hg]. repeat split; try assumption.
  - apply (Hlt k); [lia|]. now rewrite nth_error_map, Hc.
  - intros c' Hc' Hg' Hd'.
    assert (Hin' : In c' (comp_subset_of comp gvkey)) by now apply comp_subset_In.
    apply In_nth_error in Hin'. destruct Hin' as [j Hj].
    assert (Hjk : (j <= k)%nat).
    { destruct (Nat.le_gt_cases j k) as [H|H]; [exact H|].
      rewrite (Hge j (cp_available_date c')) in Hd'; [discriminate|lia|].
      now rewrite nth_error_map, Hj. }
    apply (sorted_nth_error _ comp_subset_sorted j k); [exact Hjk| |].
    + now rewrite nth_error_map, Hj.
    + now rewrite nth_error_map, Hc.
Qed.

Lemma tier2_group_as_of (m : merged_row) :
  In m (tier2_group crsp_ccm comp gvkey) ->
  exists l c,
    m = matched l c /\ In l crsp_ccm /\ cc_gvkey l = gvkey
    /\ as_of_record comp gvkey (cc_date l) c.
Proof.
  unfold tier2_group, crsp_subset_of. intros H.
  apply in_flat_map in H. destruct H as [l [Hl H]].
  apply sort_values_In, filter_In in Hl. destruct Hl as [Hl Hg].
  apply String.eqb_eq in Hg.
  destruct (searchsorted_right (map cp_available_date (comp_subset_of comp gvkey))
              (cc_date l)) as [|k] eqn:E.
  - simpl in H. contradiction.
  - replace (Z.to_nat (Z.of_nat (S k) - 1)) with k in H by lia.
    destruct (0 <=? Z.of_nat (S k) - 1); [|contradiction].
    destruct (nth_error (comp_subset_of comp gvkey) k) as [c|] eqn:Ec; [|contradiction].
    destruct H as [<-|[]].
    exists l, c. repeat split; try assumption.
    all: now apply (searchsorted_as_of (cc_date l) k c E Ec).
Qed.

(** An observation whose firm has a record available by its date is
    matched. *)
Lemma tier2_group_finds (l : crsp_ccm_row) (c' : comp_row) :
  In l crsp_ccm -> cc_gvkey l = gvkey ->
  In c' comp -> cp_gvkey c' = gvkey ->
  date_leb (cp_available_date c') (cc_date l) = true ->
  exists c,
    In (matched l c) (tier2_group crsp_ccm comp gvkey)
    /\ as_of_record comp gvkey (cc_date l) c.
Proof.
  intros Hl Hg Hc' Hg' Hd'.
  destruct (searchsorted_right_spec _ (cc_date l) comp_subset_sorted)
    as [Hlt Hge].
  assert (Hin' : In c' (comp_subset_of comp gvkey)) by now apply comp_subset_In.
  apply In_nth_error in Hin'. destruct Hin' as [j Hj].
  destruct (searchsorted_right (map cp_available_date (comp_subset_of comp gvkey))
              (cc_date l)) as [|k] eqn:E.
  - rewrite (Hge j (cp_available_date c')) in Hd'; [discriminate|lia|].
    now rewrite nth_error_map, Hj.
  - pose proof (searchsorted_right_le (map cp_available_date (comp_subset_of comp gvkey))
                  (cc_date l)) as Hle.
    rewrite E, length_map in Hle.
    destruct (nth_error (comp_subset_of comp gvkey) k) as [c|] eqn:Ec.
    + exists c. split; [|now apply (searchsorted_as_of (cc_date l) k c E Ec)].
      unfold tier2_group, crsp_subset_of. apply in_flat_map.
      exists l. split.
      * apply sort_values_In, filter_In. split; [exact Hl|].
        now apply String.eqb_eq.
      * rewrite E.
        replace (Z.to_nat (Z.of_nat (S k) - 1)) with k by lia.
        replace (0 <=? Z.of_nat (S k) - 1) with true
          by (symmetry; apply Z.leb_le; lia).
        rewrite Ec. now left.
    + apply nth_error_None in Ec. lia.
Qed.

End PerKeySearch.

(* ----------------------------------------------------------------- *)
(** ** Agreement of the first two strategies *)

Lemma no_dup_keys_unique {A : Type} (same : A -> A -> bool) (l : list A)
    (a b : A) :
  no_dup_keys same l = true ->
  In a l -> In b l -> same a b = true -> same b a = true -> a = b.
Proof.
  induction l as [|x t IH]; simpl; intros H Ha Hb Hab Hba; [contradiction|].
  apply andb_true_iff in H. destruct H as [Hx Ht].
  apply negb_true_iff in Hx.
  assert (Hno : forall y, In y t -> same x y = false).
  { intros y Hy. destruct (same x y) eqn:E; [|reflexivity].
    rewrite <- Hx. symmetry. apply existsb_exists. eauto. }
  destruct Ha as [<-|Ha], Hb as [<-|Hb]; try reflexivity.
  - rewrite (Hno b Hb) in Hab. discriminate.
  - rewrite (Hno a Ha) in Hba. discriminate.
  - now apply IH.
Qed.

Lemma no_dup_keys_cp (comp : list comp_row) :
  no_dup_keys cp_same_key comp = true ->
  forall a b, In a comp -> In b comp -> cp_same_key a b = true -> a = b.
Proof.
  intros H a b Ha Hb Hab.
  apply (no_dup_keys_unique cp_same_key comp); try assumption.
  unfold cp_same_key in *. apply andb_true_iff in Hab. destruct Hab as [H1 H2].
  apply String.eqb_eq in H1. apply date_eqb_eq in H2.
  rewrite H1, H2, String.eqb_refl. apply date_eqb_eq. reflexivity.
Qed.

Lemma as_of_unique (comp : list comp_row) (gvkey : string) (d : date)
    (c1 c2 : comp_row) :
  (forall a b, In a comp -> In b comp -> cp_same_key a b = true -> a = b) ->
  as_of_record comp gvkey d c1 ->
  as_of_record comp gvkey d c2 ->
  c1 = c2.
Proof.
  intros Hu [H1 [G1 [D1 M1]]] [H2 [G2 [D2 M2]]].
  pose proof (M1 c2 H2 G2 D2) as L21. pose proof (M2 c1 H1 G1 D1) as L12.
  pose proof (date_leb_antisym _ _ L12 L21) as Heq.
  apply Hu; try assumption.
  unfold cp_same_key. rewrite G1, G2, Heq, String.eqb_refl.
  apply date_eqb_eq. reflexivity.
Qed.

Lemma as_of_record_ext (comp comp' : list comp_row) (gvkey : string)
    (d : date) (c : comp_row) :
  (forall x, In x comp <-> In x comp') ->
  as_of_record comp gvkey d c -> as_of_record comp' gvkey d c.
Proof.
  intros Hext [H [G [D M]]]. repeat split; try assumption.
  - now apply Hext.
  - intros c' Hc'. apply M. now apply Hext.
Qed.

Lemma map_strip_cc_id (l : list crsp_ccm_row) :
  forallb (fun x => String.eqb (strip (cc_gvkey x)) (cc_gvkey x)) l = true ->
  map strip_cc l = l.
Proof.
  induction l as [|x t IH]; simpl; intros H; [reflexivity|].
  apply andb_true_iff in H. destruct H as [Hx Ht].
  apply String.eqb_eq in Hx. rewrite (IH Ht). f_equal.
  destruct x; unfold strip_cc; simpl in *. now rewrite Hx.
Qed.

Lemma map_strip_cp_id (l : list comp_row) :
  forallb (fun c => String.eqb (strip (cp_gvkey c)) (cp_gvkey c)) l = true ->
  map strip_cp l = l.
Proof.
  induction l as [|x t IH]; simpl; intros H; [reflexivity|].
  apply andb_true_iff in H. destruct H as [Hx Ht].
  apply String.eqb_eq in Hx. rewrite (IH Ht). f_equal.
  destruct x; unfold strip_cp; simpl in *. now rewrite Hx.
Qed.

(** On a frame sorted on the date, [merge_asof] matches an observation to
    the as-of record of its firm when that record is within the
    tolerance, and to nothing otherwise. *)
Lemma merge_asof_as_of (left : list crsp_ccm_row) (right : list comp_row)
    (out : list merged_row) :
  merge_asof left right = Some out ->
  (forall m, In m out -> m_be m <> None ->
     exists l c,
       m = matched l c /\ In l left
       /\ as_of_record right (cc_gvkey l) (cc_date l) c
       /\ within_tolerance l c = true)
  /\ ((forall a b, In a right -> In b right ->
                    cp_same_key a b = true -> a = b) ->
      forall l c,
        In l left ->
        as_of_record right (cc_gvkey l) (cc_date l) c ->
        within_tolerance l c = true ->
        In (matched l c) out).
Proof.
  intros H.
  assert (Hs : StronglySorted (fun x y => date_leb x y = true)
                 (map cp_available_date right)).
  { unfold merge_asof in H.
    destruct (is_monotonic date_leb (map cc_date left)); [|discriminate].
    destruct (is_monotonic date_leb (map cp_available_date right)) eqn:E;
      [|discriminate].
    apply is_monotonic_sorted; [exact date_leb_trans|exact E]. }
  split.
  - intros m Hm Hbe.
    destruct (merge_asof_matched _ _ _ _ H Hm Hbe) as [l [c [-> [Hl [Ha Ht]]]]].
    exists l, c. repeat split; try assumption.
    all: now apply (asof_backward_latest l right c Hs Ha).
  - intros Hnd l c Hl Hc Ht.
    unfold merge_asof in H. destruct (_ && _); [|discriminate].
    injection H as <-. apply in_map_iff. exists l. split; [|exact Hl].
    destruct Hc as [Hin [Hg [Hd Hmax]]].
    destruct (asof_backward_finds l right c Hin Hg Hd) as [c1 Hc1].
    rewrite Hc1.
    assert (c1 = c) as ->.
    { apply (as_of_unique right (cc_gvkey l) (cc_date l)); try assumption.
      - now apply asof_backward_latest.
      - repeat split; assumption. }
    now rewrite Ht.
Qed.

Lemma tier2_collects (crsp_ccm : list crsp_ccm_row) (comp : list comp_row)
    (gvkey : string) (m : merged_row) :
  In gvkey (unique String.eqb (map cc_gvkey crsp_ccm)) ->
  In m (tier2_group crsp_ccm comp gvkey) ->
  exists out, tier2 crsp_ccm comp = Some out /\ In m out.
Proof.
  intros Hg Hm. unfold tier2.
  assert (Hin : In (tier2_group crsp_ccm comp gvkey)
                   (filter nonempty
                      (map (tier2_group crsp_ccm comp)
                           (unique String.eqb (map cc_gvkey crsp_ccm))))).
  { apply filter_In. split; [now apply in_map|].
    destruct (tier2_group crsp_ccm comp gvkey); [contradiction|reflexivity]. }
  destruct (filter nonempty _) as [|g gs]; [contradiction|].
  eexists. split; [reflexivity|].
  apply in_concat. eauto.
Qed.

Lemma tier2_as_of (crsp_ccm : list crsp_ccm_row) (comp : list comp_row)
    (out : list merged_row) (m : merged_row) :
  tier2 crsp_ccm comp = Some out ->
  In m out ->
  exists l c,
    m = matched l c /\ In l crsp_ccm
    /\ as_of_record comp (cc_gvkey l) (cc_date l) c.
Proof.
  unfold tier2.
  destruct (filter nonempty _) as [|g gs] eqn:E; [discriminate|].
  intros H Hm. injection H as <-.
  change (In m (List.concat (g :: gs))) in Hm. rewrite <- E in Hm.
  apply in_concat in Hm. destruct Hm as [grp [Hgrp Hm]].
  apply filter_In in Hgrp. destruct Hgrp as [Hgrp _].
  apply in_map_iff in Hgrp. destruct Hgrp as [gvkey [<- _]].
  apply tier2_group_as_of in Hm.
  destruct Hm as [l [c [-> [Hl [<- Hc]]]]].
  exists l, c. auto.
Qed.

(** C2, as stated, fails: for an observation of 2019-08-30 of a firm with
    statements dated 2018-12-31 (book equity 50) and 2019-12-31 (book
    equity 70), clean data in the sense of the claim, the first two
    strategies assign 50 and the calendar-year match assigns 70. *)
Lemma calendar_year_match_differs :
  clean_input august_obs two_statements = true
  /\ exists m1 m3,
       tier1 august_obs two_statements = Some [m1]
       /\ tier2 august_obs two_statements = Some [m1]
       /\ tier3 august_obs two_statements = [m3]
       /\ m_row m1 = m_row m3
       /\ m_be m1 = Some 50%Q
       /\ m_be m3 = Some 70%Q.
Proof.
  split; [reflexivity|].
  eexists. eexists. repeat split; vm_compute; reflexivity.
Qed.

(** C2, amended: on clean input on which the merge_asof join runs, the
    merge_asof join and the per-key binary search assign the same
    fundamentals record (availability date and book equity) to every
    observation both keep: every matched row of the first is a row of
    the second, and every row of the second whose record is at most
    five years old is a row of the first.  (The calendar-year match is
    not part of the agreement.) *)
Theorem first_two_tiers_agree (crsp_ccm : list crsp_ccm_row)
    (comp : list comp_row) (out1 : list merged_row) :
  clean_input crsp_ccm comp = true ->
  tier1 crsp_ccm comp = Some out1 ->
  (forall m, In m out1 -> m_be m <> None ->
     exists out2, tier2 crsp_ccm comp = Some out2 /\ In m out2)
  /\ (forall out2 m a,
        tier2 crsp_ccm comp = Some out2 -> In m out2 ->
        m_available_date m = Some a ->
        to_days (m_date m) - to_days a <= tolerance_days ->
        In m out1).
Proof.
  unfold clean_input. rewrite !andb_true_iff.
  intros [[[[[[_ _] _] Hnd] _] Hs1] Hs2] H.
  unfold tier1 in H.
  rewrite (map_strip_cc_id _ Hs1), (map_strip_cp_id _ Hs2) in H.
  destruct (groups_monotonic cc_gvkey cc_date _
            && groups_monotonic cp_gvkey cp_available_date _); [|discriminate].
  destruct (merge_asof_as_of _ _ _ H) as [A B].
  pose proof (no_dup_keys_cp comp Hnd) as Hu.
  assert (Hext : forall x, In x (sort_values cp_leb comp) <-> In x comp)
    by (intros x; apply sort_values_In).
  split.
  - intros m Hm Hbe.
    destruct (A m Hm Hbe) as [l [c [-> [Hl [Hc _]]]]].
    apply sort_values_In in Hl.
    apply (as_of_record_ext _ comp) in Hc; [|exact Hext].
    destruct Hc as [Hin [Hg [Hd Hmax]]].
    destruct (tier2_group_finds crsp_ccm comp (cc_gvkey l) l c
                Hl eq_refl Hin Hg Hd) as [c2 [Hm2 Hc2]].
    assert (c2 = c) as ->.
    { apply (as_of_unique comp (cc_gvkey l) (cc_date l)); try assumption.
      repeat split; assumption. }
    apply (tier2_collects crsp_ccm comp (cc_gvkey l)); [|exact Hm2].
    apply unique_In; [intros a b; apply String.eqb_eq|now apply in_map].
  - intros out2 m a H2 Hm Ha Htol.
    destruct (tier2_as_of _ _ _ _ H2 Hm) as [l [c [-> [Hl Hc]]]].
    cbn [matched m_available_date] in Ha. injection Ha as <-.
    apply B.
    + intros x y Hx Hy. apply Hu; now apply Hext.
    + now apply sort_values_In.
    + apply (as_of_record_ext comp); [|exact Hc].
      intros x. symmetry. apply Hext.
    + unfold within_tolerance. apply Z.leb_le. exact Htol.
Qed.

Lemma first_two_tiers_agree_witness :
  (forall m, In m twelve_month_panel -> m_be m <> None ->
     exists out2,
       tier2 (prepare_crsp_ccm
                (link_join (get_crsp_data [twelve_months])
                           (get_ccm_link single_link)))
             (prepare_comp
                (process_comp [statement "001000" (mkdate 2018 12 31) 50%Q]))
       = Some out2 /\ In m out2)
  /\ (forall out2 m a,
        tier2 (prepare_crsp_ccm
                 (link_join (get_crsp_data [twelve_months])
                            (get_ccm_link single_link)))
              (prepare_comp
                 (process_comp [statement "001000" (mkdate 2018 12 31) 50%Q]))
        = Some out2 ->
        In m out2 ->
        m_available_date m = Some a ->
        to_days (m_date m) - to_days a <= tolerance_days ->
        In m twelve_month_panel).
Proof.
  apply (first_two_tiers_agree
           (prepare_crsp_ccm
              (link_join (get_crsp_data [twelve_months])
                         (get_ccm_link single_link)))
           (prepare_comp
              (process_comp [statement "001000" (mkdate 2018 12 31) 50%Q]))
           twelve_month_panel).
  - vm_compute. reflexivity.
  - vm_compute. reflexivity.
Defined.

(* ----------------------------------------------------------------- *)
(** ** One row per link in force *)

Lemma same_permno_date_refl (r : crsp_row) : same_permno_date r r = true.
Proof.
  unfold same_permno_date. rewrite Z.eqb_refl. apply date_eqb_eq. reflexivity.
Qed.

Lemma same_permno_date_sym (a b : crsp_row) :
  same_permno_date a b = same_permno_date b a.
Proof.
  unfold same_permno_date. rewrite (Z.eqb_sym (crsp_permno a)). f_equal.
  destruct (date_eqb (crsp_date a) (crsp_date b)) eqn:E.
  - apply date_eqb_eq in E. rewrite E. symmetry. apply date_eqb_eq. reflexivity.
  - destruct (date_eqb (crsp_date b) (crsp_date a)) eqn:E'; [|reflexivity].
    apply date_eqb_eq in E'. rewrite E' in E.
    rewrite (proj2 (date_eqb_eq _ _) eq_refl) in E. discriminate.
Qed.

Lemma filter_none {A : Type} (P : A -> bool) (l : list A) :
  (forall x, In x l -> P x = false) -> filter P l = [].
Proof.
  induction l as [|x t IH]; simpl; intros H; [reflexivity|].
  rewrite (H x (or_introl eq_refl)). apply IH. intros y Hy. apply H. now right.
Qed.

Section KeepFirst.

Context {A : Type}.
Variable same : A -> A -> bool.
Hypothesis same_refl : forall a, same a a = true.
Hypothesis same_sym : forall a b, same a b = same b a.

Lemma drop_dup_from_fresh (seen l : list A) (x y : A) :
  In x (drop_dup_from same seen l) -> In y seen -> same x y = false.
Proof.
  revert seen. induction l as [|z t IH]; simpl; intros seen Hx Hy.
  - contradiction.
  - destruct (existsb (same z) seen) eqn:E; [now apply (IH seen)|].
    destruct Hx as [<-|Hx].
    + destruct (same z y) eqn:Ez; [|reflexivity].
      rewrite <- E. symmetry. apply existsb_exists. eauto.
    + apply (IH (z :: seen)); [exact Hx|now right].
Qed.


(** Every row has a kept row of its key. *)
Lemma drop_dup_from_rep (seen l : list A) (x : A) :
  In x l ->
  (exists y, In y seen /\ same x y = true)
  \/ (exists y, In y (drop_dup_from same seen l) /\ In y l
                /\ same x y = true).
Proof.
  revert seen. induction l as [|z t IH]; simpl; intros seen Hx.
  - contradiction.
  - destruct (existsb (same z) seen) eqn:E.
    + destruct Hx as [<-|Hx].
      * left. now apply existsb_exists in E.
      * destruct (IH seen Hx) as [H|[y [H1 [H2 H3]]]]; [now left|].
        right. exists y. auto.
    + destruct Hx as [<-|Hx].
      * right. exists z. simpl. auto.
      * destruct (IH (z :: seen) Hx) as [[y [[<-|H1] H2]]|[y [H1 [H2 H3]]]].
        -- right. exists z. simpl. auto.
        -- left. eauto.
        -- right. exists y. simpl. auto.
Qed.

End KeepFirst.

Lemma cc_same_key_refl (x : crsp_ccm_row) : cc_same_key x x = true.
Proof.
  unfold cc_same_key. rewrite String.eqb_refl. apply date_eqb_eq. reflexivity.
Qed.



Lemma filter_length_le {A : Type} (P Q : A -> bool) (l : list A) :
  (forall x, P x = true -> Q x = true) ->
  (List.length (filter P l) <= List.length (filter Q l))%nat.
Proof.
  intros H. induction l as [|x t IH]; simpl; [lia|].
  destruct (P x) eqn:E.
  - rewrite (H x E). simpl. lia.
  - destruct (Q x); simpl; lia.
Qed.



(* ----------------------------------------------------------------- *)
(** ** When the calendar-year match is reached *)

Lemma tier3_rows (crsp_ccm : list crsp_ccm_row) (comp : list comp_row)
    (m : merged_row) :
  In m (tier3 crsp_ccm comp) -> In (m_row m) crsp_ccm.
Proof.
  unfold tier3. intros H. apply filter_In in H. destruct H as [H _].
  apply in_flat_map in H. destruct H as [l [Hl H]].
  destruct (filter _ (comp_yearly comp)) as [|k ks].
  - destruct H as [<-|[]]. exact Hl.
  - apply in_map_iff in H. destruct H as [k' [<- _]]. exact Hl.
Qed.

(** The binary search fails only when no observation has a record of its
    firm available by its date. *)
Lemma tier2_fails (crsp_ccm : list crsp_ccm_row) (comp : list comp_row)
    (l : crsp_ccm_row) (c : comp_row) :
  tier2 crsp_ccm comp = None ->
  In l crsp_ccm -> In c comp -> cp_gvkey c = cc_gvkey l ->
  date_leb (cp_available_date c) (cc_date l) = false.
Proof.
  intros H2 Hl Hc Hg.
  destruct (date_leb (cp_available_date c) (cc_date l)) eqn:Hd; [|reflexivity].
  destruct (tier2_group_finds crsp_ccm comp (cc_gvkey l) l c
              Hl eq_refl Hc Hg Hd) as [c2 [Hm _]].
  destruct (tier2_collects crsp_ccm comp (cc_gvkey l) (matched l c2))
    as [out [Hout _]]; [|exact Hm|congruence].
  apply unique_In; [intros a b; apply String.eqb_eq|now apply in_map].
Qed.

(** Whenever the joined panel comes from the calendar-year match, no row
    of it has a record of its gvkey that was available on the observation
    date: the first two strategies have found none. *)
Lemma calendar_year_rows_have_no_available_record
    (crsp_data : list crsp_row) (comp_data : list funda_row)
    (ccm_link : list ccm_row) (merged : list merged_row)
    (m : merged_row) (c : comp_row) :
  merge_all crsp_data comp_data ccm_link = Some (Tier3, merged) ->
  In m merged ->
  In c (prepare_comp (process_comp comp_data)) ->
  cp_gvkey c = cc_gvkey (m_row m) ->
  date_leb (cp_available_date c) (m_date m) = false.
Proof.
  unfold merge_all. destruct (link_join crsp_data ccm_link) as [|x0 xs];
    [discriminate|].
  set (crsp_ccm := prepare_crsp_ccm (x0 :: xs)).
  set (comp := prepare_comp (process_comp comp_data)).
  unfold joined_panel, join_ladder.
  destruct (tier1 crsp_ccm comp) as [out1|].
  { destruct (filter _ out1); discriminate. }
  destruct (tier2 crsp_ccm comp) as [out2|] eqn:T2.
  { destruct (filter _ out2); discriminate. }
  destruct (tier3 crsp_ccm comp) as [|z zs] eqn:T3; [discriminate|].
  destruct (filter (fun r => notna (m_be r)) (z :: zs)) as [|y ys] eqn:F;
    [discriminate|].
  intros H Hm Hc Hg. injection H as <-. rewrite <- F in Hm.
  apply filter_In in Hm. destruct Hm as [Hm _]. rewrite <- T3 in Hm.
  apply tier3_rows in Hm.
  now apply (tier2_fails crsp_ccm comp (m_row m) c T2).
Qed.

(* ----------------------------------------------------------------- *)
(** ** The theorems at the sample inputs *)

Lemma no_look_ahead_first_two_tiers_witness :
  no_look_ahead
    (process_comp [statement "001000" (mkdate 2018 12 31) 50%Q])
    twelve_month_panel
  /\ (forall m, In m twelve_month_panel ->
        exists a, m_available_date m = Some a
                  /\ date_leb a (m_date m) = true).
Proof.
  apply (no_look_ahead_first_two_tiers
           (get_crsp_data [twelve_months])
           [statement "001000" (mkdate 2018 12 31) 50%Q]
           (get_ccm_link single_link) Tier1 twelve_month_panel).
  - vm_compute. reflexivity.
  - discriminate.
Defined.

Lemma period_count_counts_rows_witness :
  fr_n sample_final_row = rows_in_period 2020 1 two_link_panel
  /\ (forall r', In r' (final_stats log_at_one two_link_panel) ->
                 fr_year r' = 2020 -> fr_month r' = 1 ->
                 fr_n r' = fr_n sample_final_row).
Proof.
  apply (period_count_counts_rows log_at_one two_link_panel sample_final_row).
  vm_compute. left. reflexivity.
Defined.

Lemma final_stats_complete_rows_witness :
  In sample_final_row (final_stats log_at_one two_link_panel).
Proof.
  apply (proj2 (final_stats_complete_rows log_at_one two_link_panel
                  sample_final_row)).
  - vm_compute. left. reflexivity.
  - discriminate.
  - discriminate.
  - discriminate.
  - reflexivity.
Defined.

Lemma all_missing_period_kept_witness :
  exists table,
    monthly_cross_sectional no_statistic no_statistic no_statistic
      (fun r => finite (fr_mom r)) (final_stats log_at_one two_link_panel)
    = Some table
    /\ In ((2020, 1), all_missing_stats) table.
Proof.
  apply (all_missing_period_kept no_statistic no_statistic no_statistic
           (fun r => finite (fr_mom r))
           (final_stats log_at_one two_link_panel) sample_final_row).
  - vm_compute. left. reflexivity.
  - intros r' H _. vm_compute in H.
    destruct H as [<-|[<-|[]]]; reflexivity.
Defined.

Lemma percentile_ladder_monotone_witness :
  (forall x1 x2,
     percentile [Finite 50000; Finite 70000] (0.05 * 100) = Some x1 ->
     percentile [Finite 50000; Finite 70000] (0.95 * 100) = Some x2 ->
     float_leb x1 x2 = true)
  /\ exists v1 v2,
       percentile [Finite 50000; Finite 70000] (0.05 * 100)
       = Some (Finite v1)
       /\ percentile [Finite 50000; Finite 70000] (0.95 * 100)
          = Some (Finite v2)
       /\ (v1 <= v2)%Q.
Proof.
  destruct (percentile_ladder_monotone no_statistic no_statistic
              no_statistic
              fr_bm (final_stats log_at_one two_link_panel)
              [((2020, 1),
                group_stats no_statistic no_statistic no_statistic
                  [Some (Finite 50000); Some (Finite 70000)])]
              (2020, 1)
              (group_stats no_statistic no_statistic no_statistic
                 [Some (Finite 50000); Some (Finite 70000)])
              5 95
              (percentile [Finite 50000; Finite 70000] (0.05 * 100))
              (percentile [Finite 50000; Finite 70000] (0.95 * 100)))
    as [Hordered Hfinite].
  - vm_compute. reflexivity.
  - left. reflexivity.
  - exists sample_final_row. split; [vm_compute; left; reflexivity|].
    split; [reflexivity|discriminate].
  - vm_compute. do 4 right. left. reflexivity.
  - vm_compute. do 22 right. left. reflexivity.
  - lia.
  - split; [exact Hordered |]. apply Hfinite.
    intros r v H _ Hv. vm_compute in H.
    destruct H as [<-|[<-|[]]]; injection Hv as <-; reflexivity.
Defined.

(* ================================================================= *)
(** * Part III: further properties of the program

    Properties of the steps of the pipeline that the code itself shows:
    loading the tickers and fetching the data, the link join, book equity,
    the three join strategies and the fallback between them, the
    characteristics, the monthly and overall statistics and the two report
    tables. *)

(* ----------------------------------------------------------------- *)
(** ** The link table and the link join *)

Lemma get_ccm_link_In (linktable : list ccm_row) (l' : ccm_row) :
  In l' (get_ccm_link linktable)
  <-> exists l, In l linktable /\ ccm_where l = true /\ l' = filled_link l.
Proof.
  unfold get_ccm_link. rewrite in_map_iff. split.
  - intros [l [E H]]. apply filter_In in H. exists l.
    destruct H as [H1 H2]. repeat split; auto.
  - intros [l [H1 [H2 E]]]. exists l. split; [now symmetry |].
    apply filter_In. now split.
Qed.

Lemma ccm_where_spec (l : ccm_row) :
  ccm_where l = true
  <-> (ccm_linktype l = "LU" \/ ccm_linktype l = "LC")%string
      /\ (ccm_linkprim l = "P" \/ ccm_linkprim l = "C")%string.
Proof.
  unfold ccm_where. rewrite andb_true_iff, !orb_true_iff, !String.eqb_eq.
  reflexivity.
Qed.

(** X1.  The link-joined panel holds exactly the pairs of a fetched
    observation and a link row of its permno with link type LU or LC,
    primacy P or C, a gvkey, a start date not after the observation date
    and an end date (2024-12-31 when the table has none) not before it;
    the row carries the gvkey of that link. *)
Theorem link_join_links_in_force (crsp : list crsp_row)
    (linktable : list ccm_row) (x : crsp_ccm_row) :
  In x (link_join crsp (get_ccm_link linktable))
  <-> exists r l g a,
        In r crsp /\ In l linktable
        /\ (ccm_linktype l = "LU" \/ ccm_linktype l = "LC")%string
        /\ (ccm_linkprim l = "P" \/ ccm_linkprim l = "C")%string
        /\ ccm_permno l = crsp_permno r
        /\ ccm_gvkey l = Some g
        /\ ccm_linkdt l = Some a
        /\ date_leb a (crsp_date r) = true
        /\ date_leb (crsp_date r) (link_end l) = true
        /\ x = mk_cc r (Some (filled_link l)) g.
Proof.
  rewrite link_join_rows, in_flat_map. split.
  - intros [r [Hr Hx]]. apply in_map_iff in Hx. destruct Hx as [l' [E Hl']].
    unfold qualifying_links in Hl'. apply filter_In in Hl'.
    destruct Hl' as [Hl' Hq]. apply get_ccm_link_In in Hl'.
    destruct Hl' as [l [Hl [Hw El]]]. subst l'.
    apply ccm_where_spec in Hw. destruct Hw as [Ht Hp].
    apply andb_true_iff in Hq. destruct Hq as [Hperm Hd].
    apply Z.eqb_eq in Hperm. unfold date_in_link in Hd.
    cbn [filled_link ccm_linkdt ccm_linkenddt ccm_gvkey ccm_permno] in Hd, Hperm.
    destruct (ccm_linkdt l) as [a |] eqn:Ea; [| discriminate].
    destruct (ccm_gvkey l) as [g |] eqn:Eg;
      [| rewrite andb_false_r in Hd; discriminate].
    apply andb_true_iff in Hd. destruct Hd as [Hd _].
    apply andb_true_iff in Hd. destruct Hd as [Ha Hb].
    exists r, l, g, a. repeat split; auto.
    + unfold link_end. destruct (ccm_linkenddt l); exact Hb.
    + subst x. unfold row_of_link, filled_link. cbn. rewrite Eg. reflexivity.
  - intros [r [l [g [a [Hr [Hl [Ht [Hp [Hperm [Eg [Ea [Ha [Hb E]]]]]]]]]]]]].
    exists r. split; [exact Hr |]. apply in_map_iff.
    exists (filled_link l). split.
    + subst x. unfold row_of_link, filled_link. cbn. rewrite Eg. reflexivity.
    + unfold qualifying_links. apply filter_In. split.
      * apply get_ccm_link_In. exists l. repeat split; auto.
        apply ccm_where_spec. now split.
      * unfold date_in_link.
        cbn [filled_link ccm_linkdt ccm_linkenddt ccm_gvkey ccm_permno].
        rewrite Hperm, Z.eqb_refl, Ea, Eg, Ha. cbn.
        unfold link_end in Hb. destruct (ccm_linkenddt l); cbn; now rewrite Hb.
Qed.

Lemma link_join_links_in_force_witness :
  In (mk_cc sample_obs
        (Some (filled_link
                 (mk_ccm (Some "002000") 10107 "LU" "P"
                         (Some (mkdate 2010 1 1)) None)))
        "002000")%string
     (link_join [sample_obs] (get_ccm_link overlapping_links)).
Proof.
  apply (link_join_links_in_force [sample_obs] overlapping_links).
  exists sample_obs,
    (mk_ccm (Some "002000") 10107 "LU" "P" (Some (mkdate 2010 1 1)) None)%string,
    "002000"%string, (mkdate 2010 1 1).
  repeat split; try reflexivity.
  - left. reflexivity.
  - right. left. reflexivity.
  - left. reflexivity.
  - left. reflexivity.
Defined.

(* ----------------------------------------------------------------- *)
(** ** The fetched security observations *)

Section FirstKept.

Context {A : Type}.
Variable same : A -> A -> bool.
Hypothesis same_sym : forall a b, same a b = same b a.

Lemma drop_dup_from_first (seen pre post : list A) (r : A) :
  (forall y, In y seen -> same r y = false) ->
  (forall y, In y pre -> same r y = false) ->
  In r (drop_dup_from same seen (pre ++ r :: post)).
Proof.
  revert seen. induction pre as [| p pre IH]; intros seen Hs Hp; cbn.
  - destruct (existsb (same r) seen) eqn:E.
    + apply existsb_exists in E. destruct E as [y [Hy E]].
      rewrite (Hs y Hy) in E. discriminate.
    + left. reflexivity.
  - destruct (existsb (same p) seen).
    + apply IH; [exact Hs |]. intros y Hy. apply Hp. now right.
    + right. apply IH.
      * intros y [<- | Hy]; [apply Hp; now left | now apply Hs].
      * intros y Hy. apply Hp. now right.
Qed.

Lemma drop_dup_from_distinct (seen l : list A) :
  forall i j a b, (i < j)%nat ->
    nth_error (drop_dup_from same seen l) i = Some a ->
    nth_error (drop_dup_from same seen l) j = Some b ->
    same a b = false.
Proof.
  revert seen. induction l as [| x t IH]; intros seen i j a b Hij Ha Hb.
  - destruct i; discriminate.
  - cbn [drop_dup_from] in Ha, Hb.
    destruct (existsb (same x) seen).
    + exact (IH seen i j a b Hij Ha Hb).
    + destruct j as [| j]; [lia |]. destruct i as [| i].
      * cbn in Ha, Hb. injection Ha as <-.
        apply nth_error_In in Hb. rewrite same_sym.
        apply (drop_dup_from_fresh same (x :: seen) t b x Hb). now left.
      * cbn in Ha, Hb. apply (IH (x :: seen) i j a b); [lia | auto | auto].
Qed.

End FirstKept.

(** X2.  After [drop_duplicates(subset=['permno','date'], keep='first')] no
    two rows of the observations share a (permno, date); every fetched
    row is represented by a kept row of its key; and the kept row of a
    key is the first fetched row with that key, in the order of the
    chunks. *)
Theorem crsp_data_first_of_each_key (chunks : list (list crsp_row)) :
  (forall i j a b, (i < j)%nat ->
     nth_error (get_crsp_data chunks) i = Some a ->
     nth_error (get_crsp_data chunks) j = Some b ->
     crsp_permno a <> crsp_permno b \/ crsp_date a <> crsp_date b)
  /\ (forall r, In r (List.concat chunks) ->
        exists r', In r' (get_crsp_data chunks)
                   /\ crsp_permno r' = crsp_permno r
                   /\ crsp_date r' = crsp_date r)
  /\ (forall pre r post,
        List.concat chunks = pre ++ r :: post ->
        (forall y, In y pre ->
           crsp_permno y <> crsp_permno r \/ crsp_date y <> crsp_date r) ->
        In r (get_crsp_data chunks))
  /\ (forall r, In r (get_crsp_data chunks) ->
        exists chunk, In chunk chunks /\ In r chunk).
Proof.
  assert (Hkey : forall a b, same_permno_date a b = true
                 <-> crsp_permno a = crsp_permno b /\ crsp_date a = crsp_date b).
  { intros a b. unfold same_permno_date.
    rewrite andb_true_iff, Z.eqb_eq, date_eqb_eq. reflexivity. }
  repeat split.
  - intros i j a b Hij Ha Hb.
    pose proof (drop_dup_from_distinct same_permno_date same_permno_date_sym
                  [] (List.concat chunks) i j a b Hij Ha Hb) as Hd.
    destruct (Z.eq_dec (crsp_permno a) (crsp_permno b)) as [E1 | N1];
      [| now left].
    right. intros E2.
    assert (Ht : same_permno_date a b = true) by (apply Hkey; now split).
    rewrite Ht in Hd. discriminate.
  - intros r Hr.
    destruct (drop_dup_from_rep same_permno_date same_permno_date_refl []
                (List.concat chunks) r Hr)
      as [[y [[] _]] | [y [Hy [_ Hs]]]].
    exists y. apply Hkey in Hs. destruct Hs as [E1 E2].
    split; [exact Hy | now split].
  - intros pre r post E Hpre. unfold get_crsp_data, drop_duplicates.
    rewrite E. apply (drop_dup_from_first same_permno_date).
    + intros y [].
    + intros y Hy. destruct (same_permno_date r y) eqn:Es; [| reflexivity].
      apply Hkey in Es. destruct Es as [E1 E2].
      destruct (Hpre y Hy) as [N | N]; exfalso; apply N; now symmetry.
  - intros r Hr. apply drop_duplicates_In in Hr.
    apply in_concat in Hr. destruct Hr as [chunk [H1 H2]].
    exists chunk. now split.
Qed.

(* ----------------------------------------------------------------- *)
(** ** Book equity and the availability date *)

Lemma be_defined (r : funda_row) :
  exists s t p,
    se r = Some s /\ txditc r = Some t /\ ps r = Some p
    /\ be r = Some (s + t - p)%Q.
Proof.
  unfold be, se, txditc, ps, zero_cell.
  destruct (fd_seq r), (fd_ceq r), (fd_pstk r), (fd_at r), (fd_lt r),
           (fd_txditc r), (fd_pstkrv r), (fd_pstkl r);
    cbn; eexists; eexists; eexists; repeat split.
Qed.

Lemma positive_spec (b : Q) : positive (Some b) = true <-> (0 < b)%Q.
Proof.
  unfold positive. rewrite negb_true_iff. split.
  - intros H. apply Qnot_le_lt. intros Hle.
    apply Qle_bool_iff in Hle. rewrite Hle in H. discriminate.
  - intros H. destruct (Qle_bool b 0) eqn:Eb; [| reflexivity].
    apply Qle_bool_iff in Eb. exfalso. apply (Qlt_not_le _ _ H Eb).
Qed.

(** The processed fundamentals are the records with positive book
    equity. *)
Lemma process_comp_In (funda : list funda_row) (c : comp_row) :
  In c (process_comp funda)
  <-> exists r b,
        In r funda /\ be r = Some b /\ (0 < b)%Q
        /\ c = mk_comp r (fd_gvkey r) (Some b)
                       (add_months 6 (fd_datadate r)).
Proof.
  unfold process_comp. rewrite in_map_iff. split.
  - intros [r [E Hr]]. apply filter_In in Hr. destruct Hr as [Hr Hp].
    destruct (be_defined r) as [s [t [p [_ [_ [_ Eb]]]]]].
    exists r, (s + t - p)%Q. rewrite Eb in Hp. repeat split; auto.
    + now apply positive_spec.
    + rewrite <- E, Eb. reflexivity.
  - intros [r [b [Hr [Eb [Hb E]]]]]. exists r. split.
    + rewrite E, Eb. reflexivity.
    + apply filter_In. split; [exact Hr |]. rewrite Eb.
      now apply positive_spec.
Qed.

(** X3.  Book equity is never missing: stockholders' equity, deferred
    taxes and preferred stock are all filled with 0 in the last resort, so
    the filter [be > 0] always compares a number.  The processed
    fundamentals are exactly the records with positive book equity, each
    stamped with its statement date plus six months; a record is dropped
    only if its book equity is zero or negative. *)
Theorem process_comp_positive_book_equity (funda : list funda_row) :
  (forall r, exists s t p,
     se r = Some s /\ txditc r = Some t /\ ps r = Some p
     /\ be r = Some (s + t - p)%Q)
  /\ (forall c, In c (process_comp funda)
        <-> exists r b,
              In r funda /\ be r = Some b /\ (0 < b)%Q
              /\ c = mk_comp r (fd_gvkey r) (Some b)
                             (add_months 6 (fd_datadate r)))
  /\ (forall r, In r funda ->
        (forall c, In c (process_comp funda) -> cp_src c <> r) ->
        exists b, be r = Some b /\ (b <= 0)%Q).
Proof.
  split; [exact be_defined |]. split; [exact (process_comp_In funda) |].
  intros r Hr Hno.
  destruct (be_defined r) as [s [t [p [_ [_ [_ Eb]]]]]].
  exists (s + t - p)%Q. split; [exact Eb |].
  apply Qnot_lt_le. intros Hlt.
  apply (Hno (mk_comp r (fd_gvkey r) (Some (s + t - p)%Q)
                      (add_months 6 (fd_datadate r)))).
  - apply process_comp_In. exists r, (s + t - p)%Q. auto.
  - reflexivity.
Qed.

Lemma days_in_month_bounds (y m : Z) : 28 <= days_in_month y m <= 31.
Proof.
  unfold days_in_month.
  destruct (m =? 2); [destruct (is_leap y); lia |].
  destruct ((m =? 4) || (m =? 6) || (m =? 9) || (m =? 11)); lia.
Qed.

Lemma date_leb_month_index (a b : date) :
  1 <= dmonth a <= 12 -> 1 <= dmonth b <= 12 ->
  month_index a < month_index b ->
  date_leb a b = true /\ date_leb b a = false.
Proof.
  unfold month_index, date_leb, date_compare. intros Ha Hb H.
  destruct (dyear a ?= dyear b) eqn:Ey.
  - apply Z.compare_eq in Ey.
    assert (Hm : dmonth a < dmonth b) by lia.
    rewrite Z.compare_antisym, Ey.
    rewrite (proj2 (Z.compare_eq_iff _ _) eq_refl). cbn.
    rewrite (Z.compare_antisym (dmonth a) (dmonth b)).
    apply Z.compare_lt_iff in Hm. rewrite Hm. cbn. now split.
  - rewrite (Z.compare_antisym (dyear a) (dyear b)), Ey. cbn. now split.
  - apply Z.compare_gt_iff in Ey. lia.
Qed.

(** X4.  The availability date of a statement, [datadate +
    pd.DateOffset(months=6)], is a date of the calendar exactly six months
    of the calendar after the statement date, on the same day of the month
    or on the last day of the target month when that month is shorter, and
    it is strictly later than the statement date. *)
Theorem available_date_six_months_later (d : date) :
  valid_date d = true ->
  valid_date (add_months 6 d) = true
  /\ month_index (add_months 6 d) = month_index d + 6
  /\ dday (add_months 6 d)
     = Z.min (dday d)
             (days_in_month (dyear (add_months 6 d)) (dmonth (add_months 6 d)))
  /\ date_leb d (add_months 6 d) = true
  /\ date_leb (add_months 6 d) d = false.
Proof.
  intros Hv. unfold valid_date in Hv.
  rewrite !andb_true_iff, !Z.leb_le in Hv.
  destruct Hv as [[[Hm1 Hm2] Hd1] Hd2].
  pose proof (days_in_month_bounds
                ((dyear d * 12 + (dmonth d - 1) + 6) / 12)
                ((dyear d * 12 + (dmonth d - 1) + 6) mod 12 + 1)) as Hb.
  pose proof (Z.mod_pos_bound (dyear d * 12 + (dmonth d - 1) + 6) 12
                ltac:(lia)) as Hmod.
  pose proof (Z.div_mod (dyear d * 12 + (dmonth d - 1) + 6) 12 ltac:(lia))
    as Hdiv.
  assert (Hidx : month_index (add_months 6 d) = month_index d + 6).
  { unfold month_index, add_months. cbn [dyear dmonth]. lia. }
  assert (Hmonth : 1 <= dmonth (add_months 6 d) <= 12).
  { unfold add_months. cbn [dmonth]. lia. }
  split; [| split; [exact Hidx | split; [reflexivity |]]].
  - unfold valid_date, add_months. cbn [dyear dmonth dday].
    rewrite !andb_true_iff, !Z.leb_le. lia.
  - apply date_leb_month_index; lia.
Qed.

Lemma available_date_six_months_later_witness :
  valid_date (add_months 6 (mkdate 2019 8 31)) = true
  /\ month_index (add_months 6 (mkdate 2019 8 31))
     = month_index (mkdate 2019 8 31) + 6
  /\ dday (add_months 6 (mkdate 2019 8 31))
     = Z.min (dday (mkdate 2019 8 31))
             (days_in_month (dyear (add_months 6 (mkdate 2019 8 31)))
                            (dmonth (add_months 6 (mkdate 2019 8 31))))
  /\ date_leb (mkdate 2019 8 31) (add_months 6 (mkdate 2019 8 31)) = true
  /\ date_leb (add_months 6 (mkdate 2019 8 31)) (mkdate 2019 8 31) = false.
Proof.
  apply (available_date_six_months_later (mkdate 2019 8 31)). reflexivity.
Defined.

(* ----------------------------------------------------------------- *)
(** ** The order of the keys *)

Lemma ascii_compare_lt_trans (a b c : ascii) :
  Ascii.compare a b = Lt -> Ascii.compare b c = Lt -> Ascii.compare a c = Lt.
Proof.
  unfold Ascii.compare. rewrite !N.compare_lt_iff. lia.
Qed.

Lemma ascii_compare_refl (a : ascii) : Ascii.compare a a = Eq.
Proof.
  unfold Ascii.compare. apply N.compare_refl.
Qed.

Lemma string_compare_refl (s : string) : String.compare s s = Eq.
Proof.
  induction s as [| c s IH]; [reflexivity |].
  cbn. now rewrite ascii_compare_refl.
Qed.

Lemma string_compare_lt_trans (a b c : string) :
  String.compare a b = Lt -> String.compare b c = Lt ->
  String.compare a c = Lt.
Proof.
  revert b c. induction a as [| x a IH]; intros [| y b] [| z c];
    cbn; try congruence.
  destruct (Ascii.compare x y) eqn:Exy; try discriminate;
    destruct (Ascii.compare y z) eqn:Eyz; try discriminate; intros H1 H2.
  - apply Ascii.compare_eq_iff in Exy, Eyz. subst.
    rewrite ascii_compare_refl. now apply (IH b c).
  - apply Ascii.compare_eq_iff in Exy. subst. now rewrite Eyz.
  - apply Ascii.compare_eq_iff in Eyz. subst. now rewrite Exy.
  - now rewrite (ascii_compare_lt_trans x y z Exy Eyz).
Qed.

Lemma string_compare_gt_lt (a b : string) :
  String.compare a b = Gt <-> String.compare b a = Lt.
Proof.
  rewrite (String.compare_antisym b a).
  destruct (String.compare a b); cbn; split; congruence.
Qed.

Lemma sorted_is_monotonic {A : Type} (leb : A -> A -> bool) (l : list A) :
  StronglySorted (fun a b => leb a b = true) l -> is_monotonic leb l = true.
Proof.
  induction 1 as [| a t Ht IH Hall]; [reflexivity |].
  cbn [is_monotonic]. destruct t as [| b t']; [reflexivity |].
  inversion Hall as [| ? ? Hab _]; subst.
  rewrite Hab. exact IH.
Qed.

Lemma sorted_filter {A : Type} (R : A -> A -> Prop) (f : A -> bool)
    (l : list A) :
  StronglySorted R l -> StronglySorted R (filter f l).
Proof.
  induction 1 as [| a t Ht IH Hall]; cbn; [constructor |].
  destruct (f a); [| exact IH].
  constructor; [exact IH |].
  apply Forall_forall. intros x Hx. apply filter_In in Hx.
  rewrite Forall_forall in Hall. now apply Hall.
Qed.

Lemma sorted_weaken_In {A : Type} (R R' : A -> A -> Prop) (l : list A) :
  (forall a b, In a l -> In b l -> R a b -> R' a b) ->
  StronglySorted R l -> StronglySorted R' l.
Proof.
  intros HR H. induction H as [| a t Ht IH Hall]; [constructor |].
  constructor.
  - apply IH. intros x y Hx Hy. apply HR; now right.
  - apply Forall_forall. intros x Hx. rewrite Forall_forall in Hall.
    apply HR; [now left | now right | now apply Hall].
Qed.

Lemma sorted_map_val {A : Type} (val : A -> date) (l : list A) :
  StronglySorted (fun a b => date_leb (val a) (val b) = true) l ->
  StronglySorted (fun x y => date_leb x y = true) (map val l).
Proof.
  induction 1 as [| a t Ht IH Hall]; cbn; [constructor |].
  constructor; [exact IH |].
  apply Forall_forall. intros d Hd. apply in_map_iff in Hd.
  destruct Hd as [x [<- Hx]]. rewrite Forall_forall in Hall. now apply Hall.
Qed.

Section KeyThenDate.

Context {A : Type}.
Variable key : A -> string.
Variable val : A -> date.
Variable leb : A -> A -> bool.
Hypothesis leb_def :
  forall a b, leb a b = match String.compare (key a) (key b) with
                        | Lt => true
                        | Gt => false
                        | Eq => date_leb (val a) (val b)
                        end.

Lemma key_date_total (a b : A) : leb a b = true \/ leb b a = true.
Proof.
  rewrite !leb_def, (String.compare_antisym (key a) (key b)).
  destruct (String.compare (key b) (key a)); cbn; auto.
  apply date_leb_total.
Qed.

Lemma key_date_trans (a b c : A) :
  leb a b = true -> leb b c = true -> leb a c = true.
Proof.
  rewrite !leb_def.
  destruct (String.compare (key a) (key b)) eqn:Eab; try discriminate;
    destruct (String.compare (key b) (key c)) eqn:Ebc; try discriminate;
    intros H1 H2.
  - apply String.compare_eq_iff in Eab, Ebc. rewrite Eab, Ebc.
    rewrite string_compare_refl.
    exact (date_leb_trans _ _ _ H1 H2).
  - apply String.compare_eq_iff in Eab. now rewrite Eab, Ebc.
  - apply String.compare_eq_iff in Ebc. now rewrite <- Ebc, Eab.
  - now rewrite (string_compare_lt_trans _ _ _ Eab Ebc).
Qed.

Lemma sorted_by_key_groups_monotonic (l : list A) :
  groups_monotonic key val (sort_values leb l) = true.
Proof.
  unfold groups_monotonic. apply forallb_forall. intros g _.
  apply sorted_is_monotonic. apply sorted_map_val.
  apply (sorted_weaken_In (fun a b => leb a b = true)).
  - intros a b Ha Hb. apply filter_In in Ha, Hb.
    destruct Ha as [_ Ha], Hb as [_ Hb].
    apply String.eqb_eq in Ha, Hb.
    rewrite leb_def, Ha, Hb, string_compare_refl. auto.
  - apply sorted_filter.
    apply (sort_values_sorted leb key_date_total key_date_trans).
Qed.

Lemma sorted_twice_no_inversion (s : list A) :
  StronglySorted (fun a b => leb a b = true) s ->
  StronglySorted (fun x y => date_leb x y = true) (map val s) ->
  forall x y, In x s -> In y s -> leb y x = false ->
              date_leb (val x) (val y) = true.
Proof.
  induction 1 as [| a t Ht IH Hall]; intros Hd x y Hx Hy Hyx; [destruct Hx |].
  cbn in Hd. inversion Hd as [| ? ? Hd' Hall']; subst.
  rewrite Forall_forall in Hall, Hall'.
  destruct Hx as [<- | Hx], Hy as [<- | Hy].
  - apply date_leb_refl.
  - apply Hall'. now apply in_map.
  - rewrite (Hall x Hx) in Hyx. discriminate.
  - now apply IH.
Qed.

Lemma sorted_by_key_dates_monotonic (l : list A) :
  is_monotonic date_leb (map val (sort_values leb l)) = true
  <-> (forall x y, In x l -> In y l ->
         String.compare (key x) (key y) = Lt ->
         date_leb (val x) (val y) = true).
Proof.
  pose proof (sort_values_sorted leb key_date_total key_date_trans l) as Hs.
  split.
  - intros Hm x y Hx Hy Hlt.
    apply (is_monotonic_sorted date_leb _ date_leb_trans) in Hm.
    apply (sorted_twice_no_inversion _ Hs Hm).
    + now apply sort_values_In.
    + now apply sort_values_In.
    + rewrite leb_def.
      rewrite (proj2 (string_compare_gt_lt (key y) (key x)) Hlt).
      reflexivity.
  - intros H. apply sorted_is_monotonic, sorted_map_val.
    apply (sorted_weaken_In (fun a b => leb a b = true)); [| exact Hs].
    intros a b Ha Hb. apply sort_values_In in Ha, Hb.
    rewrite leb_def.
    destruct (String.compare (key a) (key b)) eqn:E; try discriminate.
    + auto.
    + intros _. now apply H.
Qed.

End KeyThenDate.

(* ----------------------------------------------------------------- *)
(** ** When the first strategy runs *)

Lemma cc_leb_def (a b : crsp_ccm_row) :
  cc_leb a b = match String.compare (cc_gvkey a) (cc_gvkey b) with
               | Lt => true
               | Gt => false
               | Eq => date_leb (cc_date a) (cc_date b)
               end.
Proof. reflexivity. Qed.

Lemma cp_leb_def (a b : comp_row) :
  cp_leb a b = match String.compare (cp_gvkey a) (cp_gvkey b) with
               | Lt => true
               | Gt => false
               | Eq => date_leb (cp_available_date a) (cp_available_date b)
               end.
Proof. reflexivity. Qed.

Lemma tier1_unfold (crsp_ccm : list crsp_ccm_row) (comp : list comp_row) :
  tier1 crsp_ccm comp
  = merge_asof (sort_values cc_leb (map strip_cc crsp_ccm))
               (sort_values cp_leb (map strip_cp comp)).
Proof.
  unfold tier1.
  rewrite (sorted_by_key_groups_monotonic cc_gvkey cc_date cc_leb cc_leb_def).
  rewrite (sorted_by_key_groups_monotonic cp_gvkey cp_available_date cp_leb
             cp_leb_def).
  reflexivity.
Qed.

(** X5.  The sort check of the first strategy never fails: after
    [sort_values(['gvkey', date])] the dates of every gvkey group are
    increasing, so the branch that raises "sort validation failed" is never
    taken and the first strategy is [merge_asof] on the two sorted
    frames. *)
Theorem tier1_sort_check_always_passes (crsp_ccm : list crsp_ccm_row)
    (comp : list comp_row) :
  groups_monotonic cc_gvkey cc_date
    (sort_values cc_leb (map strip_cc crsp_ccm)) = true
  /\ groups_monotonic cp_gvkey cp_available_date
       (sort_values cp_leb (map strip_cp comp)) = true
  /\ tier1 crsp_ccm comp
     = merge_asof (sort_values cc_leb (map strip_cc crsp_ccm))
                  (sort_values cp_leb (map strip_cp comp)).
Proof.
  split; [| split].
  - apply (sorted_by_key_groups_monotonic cc_gvkey cc_date cc_leb cc_leb_def).
  - apply (sorted_by_key_groups_monotonic cp_gvkey cp_available_date cp_leb
             cp_leb_def).
  - apply tier1_unfold.
Qed.

(** X6.  [merge_asof] needs its two date columns sorted over the whole
    frame, while the frames are sorted by gvkey first.  So the first
    strategy returns a result if and only if, in both frames, every row of
    a smaller gvkey is dated no later than every row of a greater gvkey:
    as soon as the dates of two firms interleave, it raises and the second
    strategy takes over.  When it runs it keeps every observation, matched
    or not, in the order of the sorted frame. *)
Theorem tier1_runs_iff_dates_follow_keys (crsp_ccm : list crsp_ccm_row)
    (comp : list comp_row) :
  ((exists out, tier1 crsp_ccm comp = Some out)
   <-> (forall x y, In x crsp_ccm -> In y crsp_ccm ->
          String.compare (strip (cc_gvkey x)) (strip (cc_gvkey y)) = Lt ->
          date_leb (cc_date x) (cc_date y) = true)
       /\ (forall c d, In c comp -> In d comp ->
             String.compare (strip (cp_gvkey c)) (strip (cp_gvkey d)) = Lt ->
             date_leb (cp_available_date c) (cp_available_date d) = true))
  /\ (forall out, tier1 crsp_ccm comp = Some out ->
        map m_row out = sort_values cc_leb (map strip_cc crsp_ccm)).
Proof.
  rewrite tier1_unfold. unfold merge_asof.
  pose proof (sorted_by_key_dates_monotonic cc_gvkey cc_date cc_leb cc_leb_def
                (map strip_cc crsp_ccm)) as H1.
  pose proof (sorted_by_key_dates_monotonic cp_gvkey cp_available_date cp_leb
                cp_leb_def (map strip_cp comp)) as H2.
  split; [split |].
  - intros [out Hout].
    destruct (is_monotonic date_leb
                (map cc_date (sort_values cc_leb (map strip_cc crsp_ccm))))
      eqn:E1; [| discriminate].
    destruct (is_monotonic date_leb
                (map cp_available_date
                   (sort_values cp_leb (map strip_cp comp))))
      eqn:E2; [| discriminate].
    split.
    + intros x y Hx Hy Hlt.
      apply (proj1 H1 eq_refl (strip_cc x) (strip_cc y));
        [now apply in_map | now apply in_map | exact Hlt].
    + intros c d Hc Hd Hlt.
      apply (proj1 H2 eq_refl (strip_cp c) (strip_cp d));
        [now apply in_map | now apply in_map | exact Hlt].
  - intros [Hx Hc].
    rewrite (proj2 H1), (proj2 H2); [eexists; reflexivity | |].
    + intros c d Hc' Hd'. apply in_map_iff in Hc', Hd'.
      destruct Hc' as [c0 [<- Hc0]], Hd' as [d0 [<- Hd0]].
      exact (Hc c0 d0 Hc0 Hd0).
    + intros x y Hx' Hy'. apply in_map_iff in Hx', Hy'.
      destruct Hx' as [x0 [<- Hx0]], Hy' as [y0 [<- Hy0]].
      exact (Hx x0 y0 Hx0 Hy0).
  - intros out Hout.
    destruct (is_monotonic date_leb _ && is_monotonic date_leb _);
      [| discriminate].
    injection Hout as <-. rewrite map_map.
    rewrite <- (map_id (sort_values cc_leb (map strip_cc crsp_ccm))) at 2.
    apply map_ext. intros l.
    destruct (asof_backward l _) as [c |]; [| reflexivity].
    destruct (within_tolerance l c); reflexivity.
Qed.

Lemma tier1_runs_iff_dates_follow_keys_witness :
  (exists out, tier1 august_obs two_statements = Some out)
  /\ tier1 (prepare_crsp_ccm
              (link_join (get_crsp_data [one_year_crsp])
                         (get_ccm_link one_year_links)))
           (prepare_comp (process_comp one_year_comp)) = None.
Proof.
  split.
  - apply (proj1 (tier1_runs_iff_dates_follow_keys august_obs two_statements)).
    split.
    + intros x y Hx Hy. vm_compute in Hx, Hy.
      destruct Hx as [<- | []], Hy as [<- | []]. vm_compute. discriminate.
    + intros c d Hc Hd. vm_compute in Hc, Hd.
      destruct Hc as [<- | [<- | []]], Hd as [<- | [<- | []]];
        vm_compute; congruence.
  - destruct (tier1 _ _) as [out |] eqn:E; [| reflexivity].
    exfalso.
    destruct (proj1 (proj1 (tier1_runs_iff_dates_follow_keys _ _))
                (ex_intro _ out E)) as [H _].
    specialize (H (mk_cc (mk_crsp 10107 (mkdate 2020 3 31) "MSFT"
                                  (Some 0.01%Q) (Some 1%Q) (Some 1%Q))
                         (Some (filled_link
                                  (mk_ccm (Some "001000") 10107 "LU" "P"
                                          (Some (mkdate 2000 1 1)) None)))
                         "001000")%string
                  (mk_cc (mk_crsp 10108 (mkdate 2020 1 31) "ORCL"
                                  (Some 0.02%Q) (Some 1%Q) (Some 1%Q))
                         (Some (filled_link
                                  (mk_ccm (Some "002000") 10108 "LC" "C"
                                          (Some (mkdate 2000 1 1)) None)))
                         "002000")%string).
    vm_compute in H.
    assert (Hf : false = true); [| discriminate Hf].
    apply H; auto.
Defined.

(* ----------------------------------------------------------------- *)
(** ** What the second and the third strategy keep *)

Lemma tier2_nonempty (crsp_ccm : list crsp_ccm_row) (comp : list comp_row)
    (out : list merged_row) :
  tier2 crsp_ccm comp = Some out -> out <> [].
Proof.
  unfold tier2.
  destruct (filter nonempty _) as [| g gs] eqn:F; [discriminate |].
  intros H. injection H as <-.
  assert (Hg : In g (g :: gs)) by now left.
  rewrite <- F in Hg. apply filter_In in Hg. destruct Hg as [_ Hg].
  destruct g as [| m g']; [discriminate |]. cbn. discriminate.
Qed.

(** X7.  The per-gvkey binary search keeps exactly the observations that
    have a fundamentals record of their gvkey available by their date, and
    it raises (so that the calendar-year match is tried) if and only if no
    observation has one. *)
Theorem tier2_keeps_observations_with_a_record (crsp_ccm : list crsp_ccm_row)
    (comp : list comp_row) :
  (tier2 crsp_ccm comp = None
   <-> (forall l c, In l crsp_ccm -> In c comp ->
          cp_gvkey c = cc_gvkey l ->
          date_leb (cp_available_date c) (cc_date l) = false))
  /\ (forall out, tier2 crsp_ccm comp = Some out ->
        out <> []
        /\ (forall l, In l crsp_ccm ->
              ((exists m, In m out /\ m_row m = l)
               <-> (exists c, In c comp /\ cp_gvkey c = cc_gvkey l
                              /\ date_leb (cp_available_date c) (cc_date l)
                                 = true)))).
Proof.
  split; [split |].
  - intros H l c. now apply tier2_fails.
  - intros H. destruct (tier2 crsp_ccm comp) as [out |] eqn:E;
      [| reflexivity].
    exfalso. pose proof (tier2_nonempty _ _ _ E) as Hne.
    destruct out as [| m out']; [now apply Hne |].
    destruct (tier2_matched crsp_ccm comp (m :: out') m E (or_introl eq_refl))
      as [l [c [_ [Hl [Hc [Hg Hd]]]]]].
    rewrite (H l c Hl Hc Hg) in Hd. discriminate.
  - intros out E. split; [exact (tier2_nonempty _ _ _ E) |].
    intros l Hl. split.
    + intros [m [Hm Hrow]].
      destruct (tier2_matched crsp_ccm comp out m E Hm)
        as [l' [c [Em [_ [Hc [Hg Hd]]]]]].
      subst m. cbn in Hrow. subst l'. exists c. auto.
    + intros [c [Hc [Hg Hd]]].
      destruct (tier2_group_finds crsp_ccm comp (cc_gvkey l) l c
                  Hl eq_refl Hc Hg Hd) as [c2 [Hm _]].
      destruct (tier2_collects crsp_ccm comp (cc_gvkey l) (matched l c2))
        as [out' [Hout Hin]]; [| exact Hm |].
      * apply unique_In; [intros a b; apply String.eqb_eq | now apply in_map].
      * rewrite E in Hout. injection Hout as <-.
        exists (matched l c2). split; [exact Hin | reflexivity].
Qed.

Lemma last_In {B : Type} (l : list (option B)) (b : B) :
  last l None = Some b -> In (Some b) l.
Proof.
  induction l as [| x t IH]; [discriminate |].
  destruct t as [| y t'].
  - cbn. intros ->. now left.
  - intros H. right. apply IH. exact H.
Qed.

Lemma last_notna_In {B : Type} (col : list (option B)) (b : B) :
  last_notna col = Some b -> In (Some b) col.
Proof.
  unfold last_notna. intros H. apply last_In in H.
  apply in_map_iff in H. destruct H as [x [E Hx]]. injection E as ->.
  now apply dropna_In.
Qed.

Lemma last_some {B : Type} (l : list B) :
  l <> [] -> exists b, last (map Some l) None = Some b.
Proof.
  induction l as [| x t IH]; [congruence |]. intros _.
  destruct t as [| y t'].
  - exists x. reflexivity.
  - destruct IH as [b Hb]; [discriminate |]. exists b. exact Hb.
Qed.

Lemma same_gvkey_year_spec (a b : comp_row) :
  same_gvkey_year a b = true
  <-> cp_gvkey a = cp_gvkey b /\ cp_year a = cp_year b.
Proof.
  unfold same_gvkey_year. now rewrite andb_true_iff, String.eqb_eq, Z.eqb_eq.
Qed.

Lemma comp_yearly_In (comp : list comp_row) (k : yearly_row) (b : Q) :
  In k (comp_yearly comp) -> y_be k = Some b ->
  exists c, In c comp /\ cp_gvkey c = y_gvkey k /\ cp_year c = y_year k
            /\ cp_be c = Some b.
Proof.
  unfold comp_yearly. intros Hk Hb. apply in_map_iff in Hk.
  destruct Hk as [k0 [<- Hk0]]. cbn in Hb |- *.
  apply last_notna_In in Hb. apply in_map_iff in Hb.
  destruct Hb as [c [Ec Hc]]. apply filter_In in Hc. destruct Hc as [Hc Hs].
  apply sort_values_In in Hc. apply same_gvkey_year_spec in Hs.
  destruct Hs as [Hg Hy]. exists c. auto.
Qed.

Lemma comp_yearly_finds (comp : list comp_row) (c : comp_row) :
  In c comp -> cp_be c <> None ->
  exists k b, In k (comp_yearly comp) /\ y_gvkey k = cp_gvkey c
              /\ y_year k = cp_year c /\ y_be k = Some b.
Proof.
  intros Hc Hbe. unfold comp_yearly.
  assert (Hs : In c (sort_values yearly_leb comp)) by now apply sort_values_In.
  destruct (drop_dup_from_rep same_gvkey_year) with
    (seen := @nil comp_row) (l := sort_values yearly_leb comp) (x := c)
    as [[y [[] _]] | [k0 [Hk0 [_ Hsame]]]].
  { intros a. apply same_gvkey_year_spec. now split. }
  { exact Hs. }
  apply same_gvkey_year_spec in Hsame. destruct Hsame as [Hg Hy].
  destruct (last_some
              (dropna (map cp_be (filter (same_gvkey_year k0)
                                         (sort_values yearly_leb comp)))))
    as [b Hb].
  { destruct (cp_be c) as [b |] eqn:Eb; [| congruence].
    intros Hnil.
    assert (Hin : In b (dropna (map cp_be
                     (filter (same_gvkey_year k0)
                             (sort_values yearly_leb comp))))).
    { apply dropna_In. rewrite <- Eb. apply in_map. apply filter_In.
      split; [exact Hs |]. apply same_gvkey_year_spec. now split. }
    rewrite Hnil in Hin. destruct Hin. }
  exists (mk_yearly (cp_gvkey k0) (cp_year k0)
            (last_notna (map cp_be (filter (same_gvkey_year k0)
                                           (sort_values yearly_leb comp))))),
         b.
  repeat split; auto.
  apply in_map_iff. exists k0. split; [reflexivity | exact Hk0].
Qed.

(** The book equity of a row of the calendar-year match comes from a
    record of the same gvkey and calendar year. *)
Lemma tier3_row_source (crsp_ccm : list crsp_ccm_row) (comp : list comp_row)
    (m : merged_row) :
  In m (tier3 crsp_ccm comp) ->
  In (m_row m) crsp_ccm
  /\ m_available_date m = None
  /\ exists c b, In c comp
                 /\ cp_gvkey c = cc_gvkey (m_row m)
                 /\ dyear (cp_datadate c) = dyear (m_date m)
                 /\ cp_be c = Some b /\ m_be m = Some b.
Proof.
  intros Hm. split; [exact (tier3_rows crsp_ccm comp m Hm) |].
  unfold tier3 in Hm. apply filter_In in Hm. destruct Hm as [Hm Hbe].
  apply in_flat_map in Hm. destruct Hm as [l [Hl Hm]].
  destruct (filter _ (comp_yearly comp)) as [| k ks] eqn:F.
  - destruct Hm as [<- | []]. discriminate.
  - apply in_map_iff in Hm. destruct Hm as [k' [<- Hk']].
    rewrite <- F in Hk'. apply filter_In in Hk'. destruct Hk' as [Hk' Hkey].
    apply andb_true_iff in Hkey. destruct Hkey as [Hg Hy].
    apply String.eqb_eq in Hg. apply Z.eqb_eq in Hy.
    cbn in Hbe |- *. split; [reflexivity |].
    destruct (y_be k') as [b |] eqn:Eb; [| discriminate].
    destruct (comp_yearly_In comp k' b Hk' Eb) as [c [Hc [Hcg [Hcy Hcb]]]].
    exists c, b. repeat split; auto.
    + now rewrite Hcg.
    + unfold cp_year in Hcy. unfold m_date. cbn. now rewrite Hcy.
Qed.

(** X8.  The calendar-year match keeps an observation if and only if the
    fundamentals hold a record of its gvkey whose statement date lies in
    the calendar year of the observation date and whose book equity is
    present; the book equity of a kept row is that of such a record, and
    the row carries no availability date (the column is never read by this
    strategy). *)
Theorem tier3_matches_on_calendar_year (crsp_ccm : list crsp_ccm_row)
    (comp : list comp_row) :
  (forall m, In m (tier3 crsp_ccm comp) ->
     In (m_row m) crsp_ccm
     /\ m_available_date m = None
     /\ exists c b, In c comp
                    /\ cp_gvkey c = cc_gvkey (m_row m)
                    /\ dyear (cp_datadate c) = dyear (m_date m)
                    /\ cp_be c = Some b /\ m_be m = Some b)
  /\ (forall l c, In l crsp_ccm -> In c comp ->
        cp_gvkey c = cc_gvkey l ->
        dyear (cp_datadate c) = dyear (cc_date l) ->
        cp_be c <> None ->
        exists m, In m (tier3 crsp_ccm comp) /\ m_row m = l).
Proof.
  split; [exact (tier3_row_source crsp_ccm comp) |].
  intros l c Hl Hc Hg Hy Hbe.
  destruct (comp_yearly_finds comp c Hc Hbe) as [k [b [Hk [Hkg [Hky Hkb]]]]].
  exists (mk_merged l None (y_be k)). split; [| reflexivity].
  unfold tier3. apply filter_In. split; [| cbn; now rewrite Hkb].
  apply in_flat_map. exists l. split; [exact Hl |].
  assert (Hin : In k (filter (fun k0 => String.eqb (y_gvkey k0) (cc_gvkey l)
                                        && (y_year k0 =? dyear (cc_date l)))
                             (comp_yearly comp))).
  { apply filter_In. split; [exact Hk |].
    apply andb_true_iff. split.
    - apply String.eqb_eq. now rewrite Hkg.
    - apply Z.eqb_eq. rewrite Hky. exact Hy. }
  destruct (filter _ (comp_yearly comp)) as [| k1 ks]; [destruct Hin |].
  apply in_map_iff. exists k. split; [reflexivity | exact Hin].
Qed.

(* ----------------------------------------------------------------- *)
(** ** The joined panel *)

Lemma join_ladder_rows (crsp_ccm : list crsp_ccm_row) (comp : list comp_row)
    (t : tier) (out : list merged_row) (m : merged_row) :
  join_ladder crsp_ccm comp = Some (t, out) ->
  In m out -> m_be m <> None ->
  exists x c b,
    In x crsp_ccm /\ In c comp
    /\ cc_obs (m_row m) = cc_obs x /\ cc_link (m_row m) = cc_link x
    /\ strip (cc_gvkey (m_row m)) = strip (cc_gvkey x)
    /\ strip (cp_gvkey c) = strip (cc_gvkey x)
    /\ cp_be c = Some b /\ m_be m = Some b.
Proof.
  unfold join_ladder. intros H Hm Hbe.
  destruct (tier1 crsp_ccm comp) as [out1 |] eqn:T1.
  - injection H as _ <-.
    destruct (tier1_matched _ _ _ _ T1 Hm Hbe)
      as [x [c [Hx [Hc [-> [Hg Hd]]]]]].
    unfold matched, strip_cp in Hbe. cbn [m_be cp_be] in Hbe.
    destruct (cp_be c) as [b |] eqn:Eb; [| congruence].
    exists x, c, b. unfold matched, strip_cc, strip_cp.
    cbn [m_row m_be cc_gvkey cc_obs cc_link cp_be cp_gvkey].
    rewrite strip_idem. auto 10.
  - destruct (tier2 crsp_ccm comp) as [out2 |] eqn:T2.
    + injection H as _ <-.
      destruct (tier2_matched _ _ _ _ T2 Hm)
        as [l [c [-> [Hl [Hc [Hg Hd]]]]]].
      unfold matched in Hbe. cbn [m_be] in Hbe.
      destruct (cp_be c) as [b |] eqn:Eb; [| congruence].
      exists l, c, b. unfold matched. cbn [m_row m_be].
      rewrite Hg. auto 10.
    + destruct (tier3 crsp_ccm comp) as [| z zs] eqn:T3; [discriminate |].
      injection H as _ <-. rewrite <- T3 in Hm.
      destruct (tier3_row_source crsp_ccm comp m Hm)
        as [Hrow [_ [c [b [Hc [Hg [_ [Hcb Hmb]]]]]]]].
      exists (m_row m), c, b. rewrite Hg. auto 10.
Qed.

Lemma merge_all_inv (crsp_data : list crsp_row) (comp_data : list funda_row)
    (ccm_link : list ccm_row) (t : tier) (merged : list merged_row) :
  merge_all crsp_data comp_data ccm_link = Some (t, merged) ->
  merged <> []
  /\ exists out,
       join_ladder (prepare_crsp_ccm (link_join crsp_data ccm_link))
                   (prepare_comp (process_comp comp_data)) = Some (t, out)
       /\ merged = filter (fun r => notna (m_be r)) out.
Proof.
  unfold merge_all.
  destruct (link_join crsp_data ccm_link) as [| x0 xs]; [discriminate |].
  unfold joined_panel.
  destruct (join_ladder _ _) as [[t' out] |]; [| discriminate].
  destruct (filter (fun r => notna (m_be r)) out) as [| y ys] eqn:F;
    [discriminate |].
  intros H. injection H as <- <-. split; [discriminate |].
  exists out. split; [reflexivity | now symmetry].
Qed.

(** X9.  Whatever strategy produced it, the joined panel is not empty and
    each of its rows stems from a fetched observation and a link row of
    its permno in force on the observation date, and carries the book
    equity of a fundamentals record of the linked gvkey (up to surrounding
    white space), which is present and positive. *)
Theorem joined_panel_rows_linked_with_positive_equity
    (crsp_data : list crsp_row) (comp_data : list funda_row)
    (ccm_link : list ccm_row) (t : tier) (merged : list merged_row) :
  merge_all crsp_data comp_data ccm_link = Some (t, merged) ->
  merged <> []
  /\ (forall m, In m merged ->
        exists r l f b,
          In r crsp_data /\ In l ccm_link /\ In f comp_data
          /\ cc_obs (m_row m) = r /\ cc_link (m_row m) = Some l
          /\ ccm_permno l = crsp_permno r
          /\ date_in_link (crsp_date r) l = true
          /\ strip (cc_gvkey (m_row m)) = strip (astype_str (ccm_gvkey l))
          /\ strip (fd_gvkey f) = strip (cc_gvkey (m_row m))
          /\ be f = Some b /\ (0 < b)%Q /\ m_be m = Some b).
Proof.
  intros H. destruct (merge_all_inv _ _ _ _ _ H) as [Hne [out [HL ->]]].
  split; [exact Hne |]. intros m Hm.
  apply filter_In in Hm. destruct Hm as [Hm Hbe]. apply notna_true in Hbe.
  destruct (join_ladder_rows _ _ _ _ _ HL Hm Hbe)
    as [x [c [b [Hx [Hc [Hobs [Hlink [Hgx [Hgc [Hcb Hmb]]]]]]]]]].
  apply prepare_crsp_ccm_In in Hx. apply prepare_comp_In in Hc.
  rewrite link_join_rows in Hx. apply in_flat_map in Hx.
  destruct Hx as [r [Hr Hx]]. apply in_map_iff in Hx.
  destruct Hx as [l [<- Hl]]. unfold qualifying_links in Hl.
  apply filter_In in Hl. destruct Hl as [Hl Hq].
  apply andb_true_iff in Hq. destruct Hq as [Hp Hd]. apply Z.eqb_eq in Hp.
  apply process_comp_In in Hc.
  destruct Hc as [f [b' [Hf [Hfb [Hpos ->]]]]].
  cbn [cp_be cp_gvkey] in Hcb, Hgc. injection Hcb as ->.
  unfold row_of_link in Hobs, Hlink, Hgx, Hgc.
  cbn [cc_obs cc_link cc_gvkey] in Hobs, Hlink, Hgx, Hgc.
  exists r, l, f, b. repeat split; auto.
  now rewrite Hgc, Hgx.
Qed.

Lemma joined_panel_rows_linked_with_positive_equity_witness :
  two_link_panel <> []
  /\ (forall m, In m two_link_panel ->
        exists r l f b,
          In r (get_crsp_data [[sample_obs]])
          /\ In l (get_ccm_link overlapping_links) /\ In f two_firms
          /\ cc_obs (m_row m) = r /\ cc_link (m_row m) = Some l
          /\ ccm_permno l = crsp_permno r
          /\ date_in_link (crsp_date r) l = true
          /\ strip (cc_gvkey (m_row m)) = strip (astype_str (ccm_gvkey l))
          /\ strip (fd_gvkey f) = strip (cc_gvkey (m_row m))
          /\ be f = Some b /\ (0 < b)%Q /\ m_be m = Some b).
Proof.
  apply (joined_panel_rows_linked_with_positive_equity
           (get_crsp_data [[sample_obs]]) two_firms
           (get_ccm_link overlapping_links) Tier1).
  vm_compute. reflexivity.
Defined.

(* ----------------------------------------------------------------- *)
(** ** The rows of the final panel *)

Lemma indicators_In (np_log : Q -> option float) (merged : list merged_row)
    (d : df_row) :
  In d (indicators np_log merged) ->
  exists j,
    In (df_m d) merged
    /\ d = assemble np_log (sort_values permno_date_leb merged) (df_m d, j).
Proof.
  intros H. pose proof H as H'. rewrite indicators_rows in H'.
  apply in_map_iff in H'. destruct H' as [[x j] [E Hx]].
  exists j. split.
  - apply (sort_values_In permno_date_leb). rewrite <- indicators_panel
      with (np_log := np_log). now apply in_map.
  - rewrite <- E. reflexivity.
Qed.

(** X10.  Every row of the final panel is a row of the joined panel with
    return, price, shares outstanding and book equity all present; its
    size is the logarithm of |prc| * shrout and, when that market equity is
    not zero, its book-to-market ratio is be * 1000 / (|prc| * shrout): the
    sign that CRSP gives to a price plays no part.  When the market equity
    is zero, the number of shares not being negative, the ratio is the
    infinity of the sign of be. *)
Theorem final_rows_have_price_and_shares (np_log : Q -> option float)
    (merged : list merged_row) (r : final_row) :
  In r (final_stats np_log merged) ->
  exists m b p s,
    In m merged
    /\ fr_permno r = m_permno m /\ fr_date r = m_date m
    /\ fr_year r = dyear (m_date m) /\ fr_month r = dmonth (m_date m)
    /\ fr_ret r = m_ret m /\ m_ret m <> None
    /\ m_be m = Some b /\ m_prc m = Some p /\ m_shrout m = Some s
    /\ fr_size r = np_log (Qabs p * s)%Q
    /\ (~ (Qabs p * s == 0)%Q ->
        fr_bm r = Some (Finite (b * 1000 / (Qabs p * s))))
    /\ ((Qabs p * s == 0)%Q -> (0 <= s)%Q ->
        fr_bm r = infinity (Z.sgn (Qnum (b * 1000)))).
Proof.
  unfold final_stats. rewrite filter_In. intros [H Hc].
  apply in_map_iff in H. destruct H as [d [<- Hd]].
  destruct (indicators_In np_log merged d Hd) as [j [Hm Ed]].
  unfold complete in Hc. rewrite !andb_true_iff in Hc.
  destruct Hc as [[Hret Hsize] Hbm].
  rewrite Ed in Hret, Hsize, Hbm |- *.
  cbn [select_final assemble fr_ret fr_size fr_bm fr_permno fr_date fr_year
       fr_month df_m df_size df_bm df_year df_month fst snd] in *.
  set (m := df_m d) in *. clearbody m.
  unfold bm, size, me, prc_abs, cell_abs, cell_mul, cell_div, lift2 in *.
  destruct (m_be m) as [b |] eqn:Eb, (m_prc m) as [p |] eqn:Ep,
           (m_shrout m) as [s |] eqn:Es;
    cbn [option_map notna] in *; try discriminate.
  exists m, b, p, s. repeat split; auto.
  - now apply notna_true.
  - intros Hne. unfold float_div, finite, option_map.
    destruct (Qeq_bool (Qabs p * s) 0) eqn:E; [| reflexivity].
    apply Qeq_bool_iff in E. contradiction.
  - intros He _. unfold float_div, finite, option_map.
    apply Qeq_bool_iff in He. now rewrite He.
Qed.

Lemma final_rows_have_price_and_shares_witness :
  exists m b p s,
    In m two_link_panel
    /\ fr_permno sample_final_row = m_permno m
    /\ fr_date sample_final_row = m_date m
    /\ fr_year sample_final_row = dyear (m_date m)
    /\ fr_month sample_final_row = dmonth (m_date m)
    /\ fr_ret sample_final_row = m_ret m /\ m_ret m <> None
    /\ m_be m = Some b /\ m_prc m = Some p /\ m_shrout m = Some s
    /\ fr_size sample_final_row = log_at_one (Qabs p * s)%Q
    /\ (~ (Qabs p * s == 0)%Q ->
        fr_bm sample_final_row = Some (Finite (b * 1000 / (Qabs p * s))))
    /\ ((Qabs p * s == 0)%Q -> (0 <= s)%Q ->
        fr_bm sample_final_row = infinity (Z.sgn (Qnum (b * 1000)))).
Proof.
  apply (final_rows_have_price_and_shares log_at_one two_link_panel).
  vm_compute. left. reflexivity.
Defined.

(* ----------------------------------------------------------------- *)
(** ** Momentum needs eight returns *)

Lemma dropna_length_le {B : Type} (l : list (option B)) :
  (List.length (dropna l) <= List.length l)%nat.
Proof.
  induction l as [| [x |] t IH]; cbn; lia.
Qed.

Lemma dropna_skipn_length {B : Type} (n : nat) (l : list (option B)) :
  (List.length (dropna (skipn n l)) <= List.length (dropna l))%nat.
Proof.
  revert l. induction n as [| n IH]; intros l; [cbn; lia |].
  destruct l as [| [x |] t]; cbn [skipn dropna List.length];
    [lia | |]; specialize (IH t); lia.
Qed.

Lemma dropna_firstn_length {B : Type} (n : nat) (l : list (option B)) :
  (List.length (dropna (firstn n l)) <= List.length (dropna l))%nat.
Proof.
  revert l. induction n as [| n IH]; intros l; [cbn; lia |].
  destruct l as [| [x |] t]; cbn [firstn dropna List.length];
    [lia | |]; specialize (IH t); lia.
Qed.

Lemma dropna_map_length {A B : Type} (f : A -> option B) (l : list A) :
  List.length (dropna (map f l))
  = List.length (filter (fun x => notna (f x)) l).
Proof.
  induction l as [| x t IH]; [reflexivity |].
  cbn. destruct (f x); cbn; now rewrite IH.
Qed.

Lemma nth_some_In {B : Type} (l : list (option B)) (j : nat) :
  nth j l None <> None -> exists v, In (Some v) l.
Proof.
  revert j. induction l as [| x t IH]; intros [| j] H; cbn in H;
    try congruence.
  - destruct x as [v |]; [| congruence]. exists v. now left.
  - destruct (IH j H) as [v Hv]. exists v. now right.
Qed.

(** A cell of a rolling statistic is present only if the whole column
    holds at least [min_periods] non-missing cells. *)
Lemma rolling_apply_some (window min_periods : nat)
    (f : list (option Q) -> Q) (col : list (option Q)) (j : nat) :
  nth j (rolling_apply window min_periods f col) None <> None ->
  (min_periods <= List.length (dropna col))%nat.
Proof.
  intros H. apply nth_some_In in H. destruct H as [v Hv].
  unfold rolling_apply in Hv. apply in_map_iff in Hv.
  destruct Hv as [i [Hi _]].
  destruct (min_periods <=? List.length (dropna (window_at window col i)))%nat
    eqn:E; [| discriminate].
  apply Nat.leb_le in E. unfold window_at in E.
  pose proof (dropna_skipn_length (S i - window) (firstn (S i) col)).
  pose proof (dropna_firstn_length (S i) col). lia.
Qed.

(** The number of rows of a security with a return is the same in the
    joined panel and in the sorted frame of step 4. *)
Lemma returns_of_permno (x : merged_row) (merged : list merged_row) :
  List.length (dropna (map m_ret
     (filter (same_permno x) (sort_values permno_date_leb merged))))
  = List.length
      (filter (fun m => (m_permno m =? m_permno x) && notna (m_ret m)) merged).
Proof.
  rewrite dropna_map_length, filter_filter.
  rewrite (Permutation_length
             (filter_perm _ _ _
                (Permutation_sym (sort_values_perm permno_date_leb merged)))).
  f_equal. apply filter_ext. intros m. unfold same_permno.
  now rewrite Z.eqb_sym.
Qed.

(** X11.  A row has a momentum value only if the joined panel holds at
    least eight rows of its permno with a return ([min_periods=8] of the
    rolling window): a security with fewer rows never has momentum. *)
Theorem momentum_needs_eight_returns (np_log : Q -> option float)
    (merged : list merged_row) (d : df_row) :
  In d (indicators np_log merged) ->
  df_mom d <> None ->
  (8 <= List.length
          (filter (fun m => (m_permno m =? m_permno (df_m d))%Z
                            && notna (m_ret m)) merged))%nat.
Proof.
  intros Hd Hmom.
  destruct (indicators_In np_log merged d Hd) as [j [_ Ed]].
  rewrite Ed in Hmom. cbn [assemble df_mom] in Hmom.
  rewrite <- returns_of_permno.
  apply (rolling_apply_some 12 8 compound _ j).
  unfold group_cell in Hmom. cbn [fst snd] in Hmom.
  destruct (nth j (rolling_apply 12 8 compound _) None); [discriminate |].
  exfalso. apply Hmom. reflexivity.
Qed.

Lemma momentum_needs_eight_returns_witness :
  (8 <= List.length
          (filter (fun m => (m_permno m =? 10107)%Z && notna (m_ret m))
                  twelve_month_panel))%nat.
Proof.
  destruct (nth_error (indicators log_at_one twelve_month_panel) 11)
    as [d |] eqn:E; [| vm_compute in E; discriminate].
  pose proof (nth_error_In _ _ E) as Hin.
  assert (Hmom : df_mom d <> None).
  { vm_compute in E. injection E as <-. discriminate. }
  assert (Hp : m_permno (df_m d) = 10107).
  { vm_compute in E. injection E as <-. reflexivity. }
  pose proof (momentum_needs_eight_returns log_at_one twelve_month_panel d
                Hin Hmom) as H.
  rewrite Hp in H. exact H.
Defined.

(* ----------------------------------------------------------------- *)
(** ** The period count and the rows of the month *)

Lemma filter_map_length {A B : Type} (P : B -> bool) (f : A -> B)
    (l : list A) :
  List.length (filter P (map f l))
  = List.length (filter (fun x => P (f x)) l).
Proof.
  induction l as [| x t IH]; [reflexivity |].
  cbn. destruct (P (f x)); cbn; now rewrite IH.
Qed.

(** The rows of a period among the candidates of the final panel are the
    rows of the joined panel in that period. *)
Lemma candidates_in_period (np_log : Q -> option float)
    (merged : list merged_row) (y mo : Z) :
  Z.of_nat (List.length
    (filter (fun r => period_eqb (fr_period r) (y, mo))
            (map select_final (indicators np_log merged))))
  = rows_in_period y mo merged.
Proof.
  unfold rows_in_period. f_equal.
  rewrite filter_map_length.
  rewrite (Permutation_length
             (filter_perm _ _ _ (sort_values_perm permno_date_leb merged))).
  rewrite <- (indicators_panel np_log merged), filter_map_length.
  f_equal. apply filter_ext_in. intros d Hd.
  destruct (indicators_n np_log merged d Hd) as [Hy [Hm _]].
  unfold period_eqb, fr_period. cbn [select_final fr_year fr_month fst snd].
  now rewrite Hy, Hm.
Qed.

(** The final panel keeps, for a month, no more rows than the period
    count of the month. *)
Lemma final_rows_of_month_le (np_log : Q -> option float)
    (merged : list merged_row) (r : final_row) :
  In r (final_stats np_log merged) ->
  Z.of_nat (List.length
     (filter (fun r' => period_eqb (fr_period r') (fr_period r))
             (final_stats np_log merged)))
  <= fr_n r.
Proof.
  intros Hr. rewrite (final_stats_n np_log merged r Hr).
  rewrite <- (candidates_in_period np_log merged).
  apply inj_le. unfold final_stats. rewrite filter_filter.
  apply filter_length_le. intros x Hx.
  apply andb_true_iff in Hx. apply Hx.
Qed.

(** X12.  The period count of a row of the final panel is at least the
    number of rows that the final panel itself holds for the month (and at
    least one): it is counted before the rows with a missing return, size
    or book-to-market ratio are dropped. *)
Theorem period_count_bounds_final_rows (np_log : Q -> option float)
    (merged : list merged_row) (r : final_row) :
  In r (final_stats np_log merged) ->
  1 <= Z.of_nat (List.length
         (filter (fun r' => period_eqb (fr_period r') (fr_period r))
                 (final_stats np_log merged)))
    <= fr_n r.
Proof.
  intros Hr. split; [| now apply final_rows_of_month_le].
  assert (Hin : In r (filter (fun r' => period_eqb (fr_period r')
                                          (fr_period r))
                             (final_stats np_log merged))).
  { apply filter_In. split; [exact Hr |].
    unfold period_eqb. now rewrite !Z.eqb_refl. }
  destruct (filter _ (final_stats np_log merged)); [destruct Hin |].
  cbn [List.length]. lia.
Qed.

Lemma period_count_bounds_final_rows_witness :
  1 <= Z.of_nat (List.length
         (filter (fun r' => period_eqb (fr_period r')
                                       (fr_period sample_final_row))
                 (final_stats log_at_one two_link_panel)))
    <= fr_n sample_final_row.
Proof.
  apply (period_count_bounds_final_rows log_at_one two_link_panel).
  vm_compute. left. reflexivity.
Defined.

(* ----------------------------------------------------------------- *)
(** ** The statistics of a cross-section lie within its range *)

Lemma fold_float_min (t : list float) (x : float) :
  In (fold_left float_min t x) (x :: t)
  /\ (forall v, In v (x :: t) ->
                float_leb (fold_left float_min t x) v = true).
Proof.
  revert x. induction t as [| y t IH]; intros x.
  - cbn. split; [now left |]. intros v [<- | []]. apply float_leb_refl.
  - cbn [fold_left]. destruct (IH (float_min x y)) as [Hin Hle].
    assert (Hxy : float_leb (float_min x y) x = true
                  /\ float_leb (float_min x y) y = true
                  /\ (float_min x y = x \/ float_min x y = y)).
    { unfold float_min. destruct (float_leb x y) eqn:E.
      - repeat split; auto. apply float_leb_refl.
      - destruct (float_leb_total x y) as [H | H]; [congruence |].
        repeat split; auto. apply float_leb_refl. }
    destruct Hxy as [Hx [Hy Hor]]. split.
    + destruct Hin as [Hin | Hin].
      * rewrite <- Hin. destruct Hor as [-> | ->]; [now left | right; now left].
      * right. now right.
    + intros v [<- | [<- | Hv]].
      * eapply float_leb_trans; [apply Hle; now left | exact Hx].
      * eapply float_leb_trans; [apply Hle; now left | exact Hy].
      * apply Hle. now right.
Qed.

Lemma fold_float_max (t : list float) (x : float) :
  In (fold_left float_max t x) (x :: t)
  /\ (forall v, In v (x :: t) ->
                float_leb v (fold_left float_max t x) = true).
Proof.
  revert x. induction t as [| y t IH]; intros x.
  - cbn. split; [now left |]. intros v [<- | []]. apply float_leb_refl.
  - cbn [fold_left]. destruct (IH (float_max x y)) as [Hin Hle].
    assert (Hxy : float_leb x (float_max x y) = true
                  /\ float_leb y (float_max x y) = true
                  /\ (float_max x y = x \/ float_max x y = y)).
    { unfold float_max. destruct (float_leb x y) eqn:E.
      - repeat split; auto. apply float_leb_refl.
      - destruct (float_leb_total x y) as [H | H]; [congruence |].
        repeat split; auto. apply float_leb_refl. }
    destruct Hxy as [Hx [Hy Hor]]. split.
    + destruct Hin as [Hin | Hin].
      * rewrite <- Hin. destruct Hor as [-> | ->]; [now left | right; now left].
      * right. now right.
    + intros v [<- | [<- | Hv]].
      * eapply float_leb_trans; [exact Hx | apply Hle; now left].
      * eapply float_leb_trans; [exact Hy | apply Hle; now left].
      * apply Hle. now right.
Qed.

Lemma interpolate_between (arr : list Q) (a0 q lo hi : Q) :
  StronglySorted (fun a b => Qle_bool a b = true) arr ->
  arr <> [] ->
  (forall v, In v arr -> (lo <= v <= hi)%Q) ->
  (lo <= interpolate arr a0 q <= hi)%Q.
Proof.
  intros Hsorted Hne Hrange. unfold interpolate.
  set (n := Z.of_nat (List.length arr)).
  assert (Hn : 1 <= n) by (unfold n; destruct arr; [congruence | cbn; lia]).
  set (h := (inject_Z (n - 1) * (q / 100))%Q).
  set (i := Z.to_nat (clip (Qfloor h) 0 (n - 1))).
  set (j := Z.to_nat (clip (Qfloor h + 1) 0 (n - 1))).
  assert (Hi : (i < List.length arr)%nat).
  { unfold i. pose proof (clip_bounds (Qfloor h) (n - 1)). unfold n in *. lia. }
  assert (Hj : (j < List.length arr)%nat).
  { unfold j. pose proof (clip_bounds (Qfloor h + 1) (n - 1)).
    unfold n in *. lia. }
  assert (Hij : (i <= j)%nat).
  { unfold i, j.
    pose proof (clip_mono (Qfloor h) (Qfloor h + 1) (n - 1) ltac:(lia)).
    pose proof (clip_bounds (Qfloor h) (n - 1)). lia. }
  pose proof (sorted_nth_Qle arr a0 Hsorted i j Hij Hj) as Hlu.
  destruct (Hrange (nth i arr a0) (nth_In arr a0 Hi)) as [Hl1 Hl2].
  destruct (Hrange (nth j arr a0) (nth_In arr a0 Hj)) as [Hu1 Hu2].
  pose proof (Qfloor_le h) as Hf. pose proof (Qlt_floor h) as Hc.
  rewrite inject_Z_plus in Hc. change (inject_Z 1) with 1%Q in Hc.
  generalize dependent (nth i arr a0). generalize dependent (nth j arr a0).
  generalize dependent (inject_Z (Qfloor h)). generalize dependent h.
  clear. intros. split; nra.
Qed.

(** On finite data every percentile is finite and lies between any two
    bounds of the data. *)
Lemma percentile_between (values : list Q) (q lo hi : Q) :
  values <> [] ->
  (forall v, In v values -> (lo <= v <= hi)%Q) ->
  exists v, percentile (map Finite values) q = Some (Finite v)
            /\ (lo <= v <= hi)%Q.
Proof.
  intros Hne H.
  destruct (np_percentile_finite values q Hne) as [v [Hv Ev]].
  exists v. unfold percentile. rewrite Hv. split; [reflexivity|].
  rewrite Ev. apply interpolate_between.
  - apply sort_values_sorted; [exact Qle_bool_total|exact Qle_bool_trans].
  - intros E. apply (f_equal (@List.length Q)) in E.
    rewrite sort_values_length in E. destruct values; [congruence|discriminate].
  - intros x Hx. apply H. now apply (sort_values_In Qle_bool).
Qed.

Section RangeOfStatistics.

Variable series_std : list float -> option float.
Variable series_skew : list float -> option float.
Variable series_kurtosis : list float -> option float.

(** X13.  For a cross-section with at least one non-missing value the
    statistics are computed; the count is the number of non-missing
    values; minimum and maximum are values of the cross-section that
    bound all the others, in the order of the floating-point values
    with the infinities.  When no value is infinite, every percentile of
    the ladder is present, finite and between the minimum and the
    maximum. *)
Theorem cross_section_statistics_within_range
    (group : list (option float)) :
  dropna group <> [] ->
  exists s lo hi,
    calculate_cross_sectional_stats series_std series_skew series_kurtosis
      group = Some s
    /\ st_count s = Z.of_nat (List.length (dropna group))
    /\ st_min s = Some lo /\ st_max s = Some hi
    /\ In (Some lo) group /\ In (Some hi) group
    /\ (forall v, In (Some v) group ->
                  float_leb lo v = true /\ float_leb v hi = true)
    /\ (all_finite (dropna group) = true ->
        exists a b,
          lo = Finite a /\ hi = Finite b
          /\ forall l c, In (l, c) (st_percentiles s) ->
               exists x, c = Some (Finite x) /\ (a <= x <= b)%Q).
Proof.
  intros Hne.
  rewrite (data_group_stats series_std series_skew series_kurtosis group Hne).
  destruct (dropna group) as [| x t] eqn:E; [congruence |].
  destruct (fold_float_min t x) as [Hmin_in Hmin].
  destruct (fold_float_max t x) as [Hmax_in Hmax].
  exists (mk_stats (Z.of_nat (List.length (x :: t)))
            (series_mean (x :: t)) (series_std (x :: t))
            (series_min (x :: t)) (series_max (x :: t))
            (if (3 <=? List.length (x :: t))%nat
             then series_skew (x :: t) else None)
            (if (4 <=? List.length (x :: t))%nat
             then series_kurtosis (x :: t) else None)
            (map (fun p => (pct_label p, percentile (x :: t) (p * 100)))
                 extended_percentiles)),
         (fold_left float_min t x), (fold_left float_max t x).
  cbn [st_count st_min st_max st_percentiles series_min series_max].
  split; [reflexivity |]. split; [reflexivity |].
  split; [reflexivity |]. split; [reflexivity |].
  split; [apply dropna_In; now rewrite E |].
  split; [apply dropna_In; now rewrite E |].
  split.
  - intros v Hv. apply dropna_In in Hv. rewrite E in Hv.
    split; [now apply Hmin | now apply Hmax].
  - intros Hfin.
    destruct (all_finite_values (x :: t) Hfin) as [values Ev].
    rewrite Ev in Hmin_in, Hmax_in.
    apply in_map_iff in Hmin_in. destruct Hmin_in as [a [Ea _]].
    apply in_map_iff in Hmax_in. destruct Hmax_in as [b [Eb _]].
    exists a, b. split; [now symmetry |]. split; [now symmetry |].
    intros l c Hc. apply in_map_iff in Hc. destruct Hc as [p [Ep _]].
    injection Ep as _ <-. rewrite Ev.
    apply percentile_between.
    + destruct values; [discriminate | discriminate].
    + intros v Hv.
      assert (Hin : In (Finite v) (x :: t))
        by (rewrite Ev; now apply in_map).
      pose proof (Hmin _ Hin) as H1. pose proof (Hmax _ Hin) as H2.
      rewrite <- Ea in H1. rewrite <- Eb in H2.
      split; now apply Qle_bool_iff.
Qed.

End RangeOfStatistics.

Lemma cross_section_statistics_within_range_witness :
  exists s lo hi,
    calculate_cross_sectional_stats no_statistic no_statistic no_statistic
      [Some (Finite 3); None; Some (Finite 1); Some (Finite 2)] = Some s
    /\ st_count s
       = Z.of_nat (List.length
                     (dropna [Some (Finite 3); None; Some (Finite 1);
                              Some (Finite 2)]))
    /\ st_min s = Some lo /\ st_max s = Some hi
    /\ In (Some lo) [Some (Finite 3); None; Some (Finite 1); Some (Finite 2)]
    /\ In (Some hi) [Some (Finite 3); None; Some (Finite 1); Some (Finite 2)]
    /\ (forall v,
          In (Some v) [Some (Finite 3); None; Some (Finite 1); Some (Finite 2)] ->
          float_leb lo v = true /\ float_leb v hi = true)
    /\ (all_finite
          (dropna [Some (Finite 3); None; Some (Finite 1); Some (Finite 2)])
        = true ->
        exists a b,
          lo = Finite a /\ hi = Finite b
          /\ forall l c, In (l, c) (st_percentiles s) ->
               exists x, c = Some (Finite x) /\ (a <= x <= b)%Q).
Proof.
  apply (cross_section_statistics_within_range
           no_statistic no_statistic no_statistic
           [Some (Finite 3); None; Some (Finite 1); Some (Finite 2)]).
  discriminate.
Defined.

(* ----------------------------------------------------------------- *)
(** ** The months of the monthly table *)

Lemma period_eqb_iff (a b : period) : period_eqb a b = true <-> a = b.
Proof.
  split; [apply period_eqb_eq |]. intros <-. unfold period_eqb.
  now rewrite !Z.eqb_refl.
Qed.

Lemma period_leb_total (a b : period) :
  period_leb a b = true \/ period_leb b a = true.
Proof.
  unfold period_leb. rewrite (Z.compare_antisym (fst a) (fst b)).
  destruct (fst a ?= fst b) eqn:E; cbn; auto.
  destruct (Z.leb_spec (snd a) (snd b)); [now left |].
  right. apply Z.leb_le. lia.
Qed.

Lemma period_leb_trans (a b c : period) :
  period_leb a b = true -> period_leb b c = true -> period_leb a c = true.
Proof.
  unfold period_leb.
  destruct (fst a ?= fst b) eqn:Eab; try discriminate;
    destruct (fst b ?= fst c) eqn:Ebc; try discriminate; intros H1 H2.
  - apply Z.compare_eq in Eab, Ebc.
    rewrite (proj2 (Z.compare_eq_iff (fst a) (fst c))) by lia.
    apply Z.leb_le in H1, H2. apply Z.leb_le. lia.
  - apply Z.compare_eq in Eab. rewrite Z.compare_lt_iff in Ebc.
    rewrite (proj2 (Z.compare_lt_iff (fst a) (fst c))) by lia. reflexivity.
  - apply Z.compare_eq in Ebc. rewrite Z.compare_lt_iff in Eab.
    rewrite (proj2 (Z.compare_lt_iff (fst a) (fst c))) by lia. reflexivity.
  - rewrite Z.compare_lt_iff in Eab, Ebc.
    rewrite (proj2 (Z.compare_lt_iff (fst a) (fst c))) by lia. reflexivity.
Qed.

Lemma drop_dup_from_NoDup {K : Type} (eqb : K -> K -> bool)
    (seen l : list K) :
  (forall a, eqb a a = true) ->
  NoDup (drop_dup_from eqb seen l).
Proof.
  intros Hrefl. revert seen. induction l as [| x t IH]; intros seen.
  - constructor.
  - cbn [drop_dup_from]. destruct (existsb (eqb x) seen); [apply IH |].
    constructor; [| apply IH].
    intros Hin.
    pose proof (drop_dup_from_fresh eqb (x :: seen) t x x Hin
                  (or_introl eq_refl)) as Hf.
    rewrite Hrefl in Hf. discriminate.
Qed.

Lemma sorted_strict {A : Type} (R : A -> A -> Prop) (l : list A) :
  StronglySorted R l -> NoDup l ->
  StronglySorted (fun a b => R a b /\ a <> b) l.
Proof.
  induction 1 as [| a t Ht IH Hall]; intros Hnd; [constructor |].
  inversion Hnd as [| ? ? Hnotin Hnd']; subst.
  constructor; [now apply IH |].
  apply Forall_forall. intros x Hx. rewrite Forall_forall in Hall.
  split; [now apply Hall |]. intros ->. contradiction.
Qed.

Lemma groupby_period_keys (final : list final_row) :
  map fst (groupby_period final)
  = sort_values period_leb (unique period_eqb (map fr_period final)).
Proof.
  unfold groupby_period. rewrite map_map. cbn [fst]. apply map_id.
Qed.

Lemma groupby_period_keys_sorted (final : list final_row) :
  StronglySorted (fun a b => period_leb a b = true /\ a <> b)
                 (map fst (groupby_period final)).
Proof.
  rewrite groupby_period_keys. apply sorted_strict.
  - apply (sort_values_sorted period_leb period_leb_total period_leb_trans).
  - apply (Permutation_NoDup (sort_values_perm period_leb _)).
    apply drop_dup_from_NoDup. intros a. now apply period_eqb_iff.
Qed.

Lemma groupby_period_keys_In (final : list final_row) (k : period) :
  In k (map fst (groupby_period final))
  <-> exists r, In r final /\ fr_period r = k.
Proof.
  rewrite groupby_period_keys, (sort_values_In period_leb). split.
  - intros H. apply drop_duplicates_In in H. apply in_map_iff in H.
    destruct H as [r [E Hr]]. exists r. now split.
  - intros [r [Hr <-]]. apply unique_In; [apply period_eqb_eq |].
    now apply in_map.
Qed.

Section MonthsOfTheTable.

Variable series_std : list float -> option float.
Variable series_skew : list float -> option float.
Variable series_kurtosis : list float -> option float.

Lemma monthly_keys (var : final_row -> option float)
    (final : list final_row) (table : list (period * cs_stats)) :
  monthly_cross_sectional series_std series_skew series_kurtosis var final
  = Some table ->
  map fst table = map fst (groupby_period final).
Proof.
  rewrite monthly_cross_sectional_rows. intros H. injection H as <-.
  unfold monthly_rows. rewrite map_map. reflexivity.
Qed.

(** X14.  The monthly table of a variable is always built; it has
    exactly one row for every (year, month) in which the final panel has
    a row, in strictly increasing order of (year, month), and the row of
    a month holds the statistics of that variable over the rows of the
    month. *)
Theorem monthly_table_one_row_per_month (var : final_row -> option float)
    (final : list final_row) :
  exists table,
    monthly_cross_sectional series_std series_skew series_kurtosis var final
    = Some table
    /\ (forall k,
          In k (map fst table) <-> exists r, In r final /\ fr_period r = k)
    /\ StronglySorted (fun a b => period_leb a b = true /\ a <> b)
         (map fst table)
    /\ (forall k s,
          In (k, s) table ->
          calculate_cross_sectional_stats
            series_std series_skew series_kurtosis
            (map var (filter (fun r => period_eqb (fr_period r) k) final))
          = Some s).
Proof.
  eexists. split; [apply monthly_cross_sectional_rows |].
  pose proof (monthly_keys var final _
                (monthly_cross_sectional_rows series_std series_skew
                   series_kurtosis var final)) as Hkeys.
  split; [| split].
  - intros k. rewrite Hkeys. apply groupby_period_keys_In.
  - rewrite Hkeys. apply groupby_period_keys_sorted.
  - intros k s H. unfold monthly_rows, groupby_period in H.
    rewrite map_map in H. apply in_map_iff in H.
    destruct H as [k' [E _]]. cbn [fst snd] in E. injection E as <- <-.
    apply cross_section_defined.
Qed.

End MonthsOfTheTable.

(* ----------------------------------------------------------------- *)
(** ** Loading the tickers and fetching the data *)

Lemma find_split {A : Type} (f : A -> bool) (l : list A) (x : A) :
  find f l = Some x ->
  exists pre post,
    l = pre ++ x :: post /\ f x = true
    /\ (forall y, In y pre -> f y = false).
Proof.
  induction l as [| a t IH]; [discriminate |]. cbn.
  destruct (f a) eqn:E.
  - intros H. injection H as <-. exists [], t. repeat split; auto.
    intros y [].
  - intros H. destruct (IH H) as [pre [post [-> [Hx Hpre]]]].
    exists (a :: pre), post. repeat split; auto.
    intros y [<- | Hy]; auto.
Qed.

Lemma has_column_get (df : csv_frame) (col : string) :
  has_column df col = true -> exists cells, get_column df col = Some cells.
Proof.
  unfold has_column, get_column. intros H. apply existsb_exists in H.
  destruct H as [c [Hc E]].
  destruct (find (fun c0 => String.eqb col (fst c0)) df) as [c' |] eqn:F.
  - exists (snd c'). reflexivity.
  - rewrite (find_none _ _ F c Hc) in E. discriminate.
Qed.

(** The column that [load_tickers] reads. *)
Lemma ticker_column_choice (df : csv_frame) (col : string) :
  ticker_column df = Some col ->
  (exists pre post,
     possible_columns = pre ++ col :: post
     /\ has_column df col = true
     /\ (forall c, In c pre -> has_column df c = false))
  \/ ((forall c, In c possible_columns -> has_column df c = false)
      /\ exists cells rest, df = (col, cells) :: rest).
Proof.
  unfold ticker_column.
  destruct (find (has_column df) possible_columns) as [c |] eqn:F.
  - intros H. injection H as <-. left. now apply find_split.
  - intros H. right. split; [exact (find_none _ _ F) |].
    destruct df as [| [name cells] rest]; [discriminate |].
    injection H as <-. now exists cells, rest.
Qed.

Lemma ticker_column_get (df : csv_frame) (col : string) :
  ticker_column df = Some col ->
  exists cells, get_column df col = Some cells.
Proof.
  intros H.
  destruct (ticker_column_choice df col H)
    as [[pre [post [_ [Hh _]]]] | [_ Hd]].
  - now apply has_column_get.
  - destruct Hd as [cells [rest ->]]. exists cells.
    unfold get_column. cbn. now rewrite String.eqb_refl.
Qed.

Section TickersLoaded.

Variable read_csv : string -> option csv_frame.

(** X15.  [load_tickers] fails exactly when reading the file raises or
    the frame read has no columns.  Otherwise the tickers are the
    distinct non-missing cells of one column of the frame: the first
    name of [ticker, TICKER, symbol, SYMBOL, permno, PERMNO] that the
    file has, whatever the order of the columns in the file, and the
    first column of the file when it has none of them. *)
Theorem load_tickers_column_priority (path : string) :
  (load_tickers read_csv path = None
   <-> read_csv path = None \/ read_csv path = Some [])
  /\ (forall tickers, load_tickers read_csv path = Some tickers ->
        exists df col cells,
          read_csv path = Some df
          /\ ticker_column df = Some col
          /\ get_column df col = Some cells
          /\ NoDup tickers
          /\ (forall t, In t tickers <-> In (Some t) cells)
          /\ ((exists pre post,
                 possible_columns = pre ++ col :: post
                 /\ has_column df col = true
                 /\ (forall c, In c pre -> has_column df c = false))
              \/ ((forall c, In c possible_columns ->
                             has_column df c = false)
                  /\ exists rest, df = (col, cells) :: rest))).
Proof.
  unfold load_tickers. destruct (read_csv path) as [df |]; cycle 1.
  { split; [split; [now left | reflexivity] | discriminate]. }
  split; [split |].
  - destruct (ticker_column df) as [col |] eqn:T.
    + destruct (ticker_column_get df col T) as [cells ->]. discriminate.
    + intros _. right. unfold ticker_column in T.
      destruct (find (has_column df) possible_columns); [discriminate |].
      destruct df; [reflexivity | discriminate].
  - intros [H | H]; [discriminate |]. injection H as ->. reflexivity.
  - intros tickers.
    destruct (ticker_column df) as [col |] eqn:T; [| discriminate].
    destruct (ticker_column_get df col T) as [cells Hc]. rewrite Hc.
    intros H. injection H as <-. exists df, col, cells.
    split; [reflexivity |]. split; [exact T |]. split; [exact Hc |].
    split; [| split].
    + apply drop_dup_from_NoDup. apply String.eqb_refl.
    + intros t. rewrite <- dropna_In. split.
      * apply drop_duplicates_In.
      * apply unique_In. intros a b. apply String.eqb_eq.
    + destruct (ticker_column_choice df col T)
        as [H | [Hn [cells' [rest E]]]]; [now left |].
      right. split; [exact Hn |]. exists rest.
      rewrite E in Hc. unfold get_column in Hc. cbn in Hc.
      rewrite String.eqb_refl in Hc. cbn in Hc. injection Hc as ->.
      exact E.
Qed.

End TickersLoaded.

(* ----------------------------------------------------------------- *)
(** *** The chunks of the query loop *)

Lemma firstn_add {A : Type} (a b : nat) (l : list A) :
  firstn (a + b) l = firstn a l ++ firstn b (skipn a l).
Proof.
  revert l. induction a as [| a IH]; intros l; [reflexivity |].
  destruct l as [| x t]; [now rewrite !firstn_nil |].
  cbn. now rewrite IH.
Qed.

Lemma slice_chunk {A : Type} (l : list A) (i c : nat) :
  slice l i (i + c) = firstn c (skipn i l).
Proof.
  unfold slice. f_equal. lia.
Qed.

Section Chunks.

Context {A : Type}.
Variable c : nat.
Hypothesis c_pos : (0 < c)%nat.

Lemma chunks_concat (l : list A) (m : nat) :
  List.concat (map (fun i => slice l i (i + c))
                   (map (fun k => (k * c)%nat) (seq 0 m)))
  = firstn (m * c) l.
Proof.
  induction m as [| m IH]; [reflexivity |].
  rewrite seq_S, !map_app, concat_app, IH. cbn [map List.concat plus].
  rewrite app_nil_r, slice_chunk.
  replace (S m * c)%nat with (m * c + c)%nat by lia.
  now rewrite firstn_add.
Qed.

Lemma chunks_cover (n : nat) : (n <= (n + c - 1) / c * c)%nat.
Proof.
  pose proof (Nat.div_mod (n + c - 1) c ltac:(lia)) as H.
  pose proof (Nat.mod_upper_bound (n + c - 1) c ltac:(lia)) as Hr.
  nia.
Qed.

Lemma chunks_start (n k : nat) :
  (k < (n + c - 1) / c)%nat -> (k * c < n)%nat.
Proof.
  intros Hk.
  pose proof (Nat.div_mod (n + c - 1) c ltac:(lia)) as H.
  pose proof (Nat.mod_upper_bound (n + c - 1) c ltac:(lia)) as Hr.
  nia.
Qed.

End Chunks.

Lemma ticker_chunks_nth (tickers : list string) (i : nat)
    (chunk : list string) :
  nth_error (ticker_chunks tickers) i = Some chunk ->
  (i * chunk_size < List.length tickers)%nat
  /\ chunk = firstn chunk_size (skipn (i * chunk_size) tickers).
Proof.
  unfold ticker_chunks, py_range. rewrite map_map, nth_error_map. intros H.
  destruct (nth_error (seq 0 _) i) as [k |] eqn:Hk; [| discriminate].
  cbn [option_map] in H. injection H as E.
  assert (Hi : (i < (List.length tickers + chunk_size - 1) / chunk_size)%nat).
  { rewrite <- (length_seq ((List.length tickers + chunk_size - 1)
                              / chunk_size) 0).
    apply nth_error_Some. congruence. }
  rewrite (nth_error_nth' _ 0%nat) in Hk by (now rewrite length_seq).
  rewrite seq_nth in Hk by exact Hi. injection Hk as <-. cbn [plus] in E.
  split.
  - apply chunks_start; [unfold chunk_size; lia | exact Hi].
  - rewrite <- E. apply slice_chunk.
Qed.

(** X16.  The query loop cuts the ticker list into consecutive chunks of
    500 tickers, the last one possibly shorter: the chunks are never
    empty, never longer than 500, and put together they give the ticker
    list back, every ticker in exactly one chunk. *)
Theorem ticker_chunks_partition (tickers : list string) :
  List.concat (ticker_chunks tickers) = tickers
  /\ List.length (ticker_chunks tickers)
     = ((List.length tickers + 499) / 500)%nat
  /\ (forall i chunk, nth_error (ticker_chunks tickers) i = Some chunk ->
        chunk = firstn 500 (skipn (i * 500) tickers)
        /\ (1 <= List.length chunk <= 500)%nat).
Proof.
  split; [| split].
  - unfold ticker_chunks, py_range.
    rewrite (chunks_concat chunk_size ltac:(unfold chunk_size; lia)).
    apply firstn_all2. apply chunks_cover. unfold chunk_size. lia.
  - unfold ticker_chunks, py_range. rewrite !length_map, length_seq.
    unfold chunk_size. f_equal. lia.
  - intros i chunk H. destruct (ticker_chunks_nth tickers i chunk H) as [Hi ->].
    split; [reflexivity |].
    rewrite length_firstn, length_skipn. unfold chunk_size in *. lia.
Qed.

Lemma concat_filter_nonempty {A : Type} (l : list (list A)) :
  List.concat (filter nonempty l) = List.concat l.
Proof.
  induction l as [| x t IH]; [reflexivity |].
  destruct x as [| a x']; cbn; [exact IH | now rewrite IH].
Qed.

Lemma filter_nonempty_nil {A : Type} (l : list (list A)) :
  filter nonempty l = [] <-> (forall x, In x l -> x = []).
Proof.
  split.
  - intros H x Hx. destruct x as [| a x']; [reflexivity |].
    assert (Hin : In (a :: x') (filter nonempty l))
      by (apply filter_In; now split).
    rewrite H in Hin. destruct Hin.
  - intros H. apply filter_none. intros x Hx. now rewrite (H x Hx).
Qed.

Lemma drop_duplicates_nonempty {A : Type} (same : A -> A -> bool)
    (l : list A) :
  l <> [] -> drop_duplicates same l <> [].
Proof.
  destruct l as [| x t]; [congruence |]. intros _. cbn. discriminate.
Qed.

Section FetchedData.

Variable linktable : option (list ccm_row).
Variable crsp_query : list string -> option (list crsp_row).
Variable comp_query : option (list funda_row).

(** The loop over the chunks fails exactly when a query raises. *)
Lemma query_chunks_none (chunks : list (list string)) :
  query_chunks crsp_query chunks = None
  <-> exists chunk, In chunk chunks /\ crsp_query chunk = None.
Proof.
  induction chunks as [| c rest IH]; cbn [query_chunks].
  - split; [discriminate | intros [chunk [[] _]]].
  - destruct (crsp_query c) as [a |] eqn:E.
    + destruct (query_chunks crsp_query rest) as [all |].
      * split; [discriminate |]. intros [chunk [[<- | Hc] Hn]].
        -- congruence.
        -- assert (H : Some all = None) by (apply IH; eauto).
           discriminate.
      * split; [| reflexivity]. intros _.
        destruct (proj1 IH eq_refl) as [chunk [Hc Hn]].
        exists chunk. split; [now right | exact Hn].
    + split; [| reflexivity]. intros _. exists c. split; [now left | exact E].
Qed.

(** Otherwise it collects the non-empty answers in chunk order. *)
Lemma query_chunks_some (chunks : list (list string))
    (all_crsp_data : list (list crsp_row)) :
  query_chunks crsp_query chunks = Some all_crsp_data ->
  exists answers,
    map crsp_query chunks = map Some answers
    /\ all_crsp_data = filter nonempty answers.
Proof.
  revert all_crsp_data.
  induction chunks as [| c rest IH]; cbn [query_chunks]; intros all H.
  - injection H as <-. now exists [].
  - destruct (crsp_query c) as [a |] eqn:E; [| discriminate].
    destruct (query_chunks crsp_query rest) as [more |]; [| discriminate].
    destruct (IH more eq_refl) as [answers [Hm ->]].
    injection H as <-. exists (a :: answers). cbn [map filter].
    rewrite E, Hm. split; [reflexivity |].
    destruct (nonempty a); reflexivity.
Qed.

(** X17.  [get_stock_data] gives up exactly when the ticker list is
    empty, the link table cannot be fetched, a CRSP query raises, no
    chunk of tickers returns a row, or the Compustat query raises.
    Otherwise it holds the filtered link table, the fundamentals as
    fetched, and the observations of all chunks in chunk order with the
    later rows of a repeated (permno, date) dropped: leaving out the
    empty chunks changes nothing, and the observations are never
    empty. *)
Theorem get_stock_data_outcome (tickers : list string) :
  (get_stock_data linktable crsp_query comp_query tickers = None
   <-> tickers = []
       \/ linktable = None
       \/ (exists chunk, In chunk (ticker_chunks tickers)
                         /\ crsp_query chunk = None)
       \/ (forall chunk, In chunk (ticker_chunks tickers) ->
                         crsp_query chunk = Some [])
       \/ comp_query = None)
  /\ (forall ccm_link crsp_data comp_data,
        get_stock_data linktable crsp_query comp_query tickers
        = Some (ccm_link, crsp_data, comp_data) ->
        exists rows answers,
          linktable = Some rows
          /\ ccm_link = get_ccm_link rows
          /\ comp_query = Some comp_data
          /\ map crsp_query (ticker_chunks tickers) = map Some answers
          /\ crsp_data = get_crsp_data answers
          /\ crsp_data <> []).
Proof.
  unfold get_stock_data. split; [split |].
  - destruct tickers as [| t ts] eqn:Et; [now left |]. rewrite <- Et.
    destruct linktable as [rows |]; [| now right; left].
    destruct (query_chunks crsp_query (ticker_chunks tickers))
      as [all |] eqn:Q.
    + destruct (query_chunks_some _ _ Q) as [answers [Hm ->]].
      destruct (filter nonempty answers) as [| g gs] eqn:F.
      * intros _. do 3 right. left. intros chunk Hc.
        assert (Hin : In (crsp_query chunk)
                         (map crsp_query (ticker_chunks tickers)))
          by now apply in_map.
        rewrite Hm in Hin. apply in_map_iff in Hin.
        destruct Hin as [a [<- Ha]].
        now rewrite (proj1 (filter_nonempty_nil _) F a Ha).
      * destruct comp_query; [discriminate |]. intros _. now do 4 right.
    + intros _. do 2 right. left. now apply query_chunks_none.
  - intros H. destruct tickers as [| t ts] eqn:Et; [reflexivity |].
    rewrite <- Et in *.
    destruct H as [H | [H | [H | [H | H]]]].
    + congruence.
    + now rewrite H.
    + destruct linktable; [| reflexivity].
      now rewrite (proj2 (query_chunks_none _) H).
    + destruct linktable; [| reflexivity].
      destruct (query_chunks crsp_query (ticker_chunks tickers))
        as [all |] eqn:Q; [| reflexivity].
      destruct (query_chunks_some _ _ Q) as [answers [Hm ->]].
      rewrite (proj2 (filter_nonempty_nil answers)); [reflexivity |].
      intros a Ha.
      assert (Hin : In (Some a) (map crsp_query (ticker_chunks tickers)))
        by (rewrite Hm; now apply in_map).
      apply in_map_iff in Hin. destruct Hin as [chunk [Ec Hc]].
      rewrite (H chunk Hc) in Ec. now injection Ec.
    + destruct linktable; [| reflexivity].
      destruct (query_chunks crsp_query (ticker_chunks tickers))
        as [[| g gs] |]; try reflexivity.
      now rewrite H.
  - intros ccm_link crsp_data comp_data.
    destruct tickers as [| t ts] eqn:Et; [discriminate |]. rewrite <- Et.
    destruct linktable as [rows |]; [| discriminate].
    destruct (query_chunks crsp_query (ticker_chunks tickers))
      as [all |] eqn:Q; [| discriminate].
    destruct (query_chunks_some _ _ Q) as [answers [Hm ->]].
    destruct (filter nonempty answers) as [| g gs] eqn:F; [discriminate |].
    destruct comp_query as [comp |]; [| discriminate].
    intros H. injection H as <- <- <-. exists rows, answers.
    repeat split; try assumption.
    + unfold get_crsp_data. rewrite <- F. now rewrite concat_filter_nonempty.
    + unfold get_crsp_data. apply drop_duplicates_nonempty.
      assert (Hg : In g (g :: gs)) by now left.
      rewrite <- F in Hg. apply filter_In in Hg. destruct Hg as [_ Hg].
      destruct g as [| r g']; [discriminate |]. cbn. discriminate.
Qed.

End FetchedData.

(* ----------------------------------------------------------------- *)
(** ** The series of the period counts *)

Lemma groupby_period_groups (final : list final_row) (k : period)
    (g : list final_row) :
  In (k, g) (groupby_period final) ->
  g = filter (fun r => period_eqb (fr_period r) k) final /\ g <> [].
Proof.
  intros H.
  assert (Hk : In k (map fst (groupby_period final))).
  { apply in_map_iff. exists (k, g). now split. }
  apply groupby_period_keys_In in Hk. destruct Hk as [r [Hr Ek]].
  unfold groupby_period in H. apply in_map_iff in H.
  destruct H as [k' [E _]]. injection E as -> <-. split; [reflexivity |].
  intros Hnil.
  assert (Hin : In r (filter (fun r0 => period_eqb (fr_period r0) k) final)).
  { apply filter_In. split; [exact Hr |]. now apply period_eqb_iff. }
  rewrite Hnil in Hin. destruct Hin.
Qed.

Lemma n_monthly_keys (final : list final_row) :
  map fst (n_monthly final) = map fst (groupby_period final).
Proof.
  unfold n_monthly.
  assert (H : forall kg, In kg (groupby_period final) -> snd kg <> []).
  { intros [k g] Hkg. now apply groupby_period_groups in Hkg. }
  induction (groupby_period final) as [| [k g] t IH]; [reflexivity |].
  cbn [flat_map map fst snd].
  destruct g as [| r g'].
  - exfalso. apply (H (k, [])); [now left | reflexivity].
  - cbn. f_equal. apply IH. intros kg Hkg. apply H. now right.
Qed.

Lemma n_monthly_In (final : list final_row) (k : period) (v : Z) :
  In (k, v) (n_monthly final) ->
  exists r, In r final /\ fr_period r = k /\ fr_n r = v.
Proof.
  unfold n_monthly. intros H. apply in_flat_map in H.
  destruct H as [[k' g] [Hg H]]. cbn [fst snd] in H.
  destruct g as [| r g']; [destruct H |].
  destruct H as [E | []]. injection E as -> <-.
  apply groupby_period_groups in Hg. destruct Hg as [Eg _].
  assert (Hr : In r (r :: g')) by now left.
  rewrite Eg in Hr. apply filter_In in Hr. destruct Hr as [Hr Hp].
  exists r. repeat split; auto. now apply period_eqb_iff.
Qed.

(** X18.  The series behind the statistics of [n] has one entry for every
    month of the final panel, in increasing order of (year, month), and
    the entry of a month is the number of rows of the joined panel in
    that month, complete or not; it is at least 1. *)
Theorem n_monthly_counts_joined_rows (np_log : Q -> option float)
    (merged : list merged_row) :
  map fst (n_monthly (final_stats np_log merged))
  = map fst (groupby_period (final_stats np_log merged))
  /\ StronglySorted (fun a b => period_leb a b = true /\ a <> b)
       (map fst (n_monthly (final_stats np_log merged)))
  /\ (forall k v, In (k, v) (n_monthly (final_stats np_log merged)) ->
        v = rows_in_period (fst k) (snd k) merged /\ 1 <= v).
Proof.
  split; [apply n_monthly_keys | split].
  - rewrite n_monthly_keys. apply groupby_period_keys_sorted.
  - intros k v H. apply n_monthly_In in H. destruct H as [r [Hr [<- <-]]].
    split.
    + apply (final_stats_n np_log merged r Hr).
    + pose proof (final_rows_of_month_le np_log merged r Hr) as Hle.
      assert (Hin : In r (filter (fun r' => period_eqb (fr_period r')
                                              (fr_period r))
                                 (final_stats np_log merged))).
      { apply filter_In. split; [exact Hr |]. now apply period_eqb_iff. }
      destruct (filter _ (final_stats np_log merged)); [destruct Hin |].
      cbn [List.length] in Hle. lia.
Qed.

(* ----------------------------------------------------------------- *)
(** ** Looking up the dictionaries of results *)

Section DictFacts.

Context {V : Type}.

Lemma dict_get_cons (k : string) (kv : string * V) (d : list (string * V)) :
  dict_get k (kv :: d)
  = if String.eqb k (fst kv) then Some (snd kv) else dict_get k d.
Proof.
  unfold dict_get. cbn. destruct (String.eqb k (fst kv)); reflexivity.
Qed.

Lemma dict_get_set (k k' : string) (v : V) (d : list (string * V)) :
  dict_get k (dict_set k' v d)
  = if String.eqb k k' then Some v else dict_get k d.
Proof.
  induction d as [| kv t IH].
  - cbn [dict_set]. rewrite dict_get_cons. reflexivity.
  - cbn [dict_set]. destruct (String.eqb k' (fst kv)) eqn:E.
    + apply String.eqb_eq in E. rewrite !dict_get_cons. cbn [fst snd].
      rewrite <- E. destruct (String.eqb k k'); reflexivity.
    + rewrite !dict_get_cons, IH.
      destruct (String.eqb k (fst kv)) eqn:E2; [| reflexivity].
      apply String.eqb_eq in E2. subst k. rewrite String.eqb_sym, E.
      reflexivity.
Qed.

Lemma dict_get_app (k : string) (d1 d2 : list (string * V)) :
  dict_get k (d1 ++ d2)
  = match dict_get k d1 with Some v => Some v | None => dict_get k d2 end.
Proof.
  induction d1 as [| kv t IH]; [reflexivity |].
  cbn [app]. rewrite !dict_get_cons, IH.
  destruct (String.eqb k (fst kv)); reflexivity.
Qed.

Lemma dict_get_update (k : string) (d items : list (string * V)) :
  dict_get k (dict_update d items)
  = match dict_get k (rev items) with
    | Some v => Some v
    | None => dict_get k d
    end.
Proof.
  unfold dict_update. revert d. induction items as [| kv t IH]; intros d.
  - reflexivity.
  - cbn [fold_left rev]. rewrite IH, dict_get_app, dict_get_set.
    destruct (dict_get k (rev t)); [reflexivity |].
    rewrite dict_get_cons. cbn [fst snd].
    destruct (String.eqb k (fst kv)); reflexivity.
Qed.

Lemma dict_get_of (k : string) (items : list (string * V)) :
  dict_get k (dict_of items) = dict_get k (rev items).
Proof.
  unfold dict_of. rewrite dict_get_update.
  destruct (dict_get k (rev items)); reflexivity.
Qed.

Lemma dict_get_In (k : string) (v : V) (d : list (string * V)) :
  dict_get k d = Some v -> In (k, v) d.
Proof.
  induction d as [| kv t IH]; [discriminate |].
  rewrite dict_get_cons. destruct (String.eqb k (fst kv)) eqn:E.
  - apply String.eqb_eq in E. intros H. injection H as <-. left.
    rewrite E. now destruct kv.
  - intros H. right. now apply IH.
Qed.

Lemma dict_set_In (kv : string * V) (k : string) (v : V)
    (d : list (string * V)) :
  In kv (dict_set k v d) -> kv = (k, v) \/ In kv d.
Proof.
  induction d as [| x t IH]; cbn [dict_set].
  - intros [<- | []]. now left.
  - destruct (String.eqb k (fst x)).
    + intros [<- | H]; [now left | right; now right].
    + intros [<- | H]; [right; now left |].
      destruct (IH H) as [-> | H']; [now left | right; now right].
Qed.

Lemma dict_update_In (kv : string * V) (d items : list (string * V)) :
  In kv (dict_update d items) -> In kv d \/ In kv items.
Proof.
  unfold dict_update. revert d. induction items as [| x t IH]; intros d H.
  - now left.
  - cbn [fold_left] in H. destruct (IH _ H) as [H' | H'].
    + apply dict_set_In in H'. destruct H' as [-> | H'].
      * right. left. now destruct x.
      * now left.
    + right. now right.
Qed.

(** A dictionary built from one item per name, under prefixed keys. *)
Lemma dict_get_prefixed (pre k : string) (h : string -> V)
    (names : list string) :
  In k names ->
  dict_get (pre ++ k)
           (map (fun name => ((pre ++ name)%string, h name)) names)
  = Some (h k).
Proof.
  assert (Hinj : forall a b, ((pre ++ a)%string = (pre ++ b)%string) -> a = b).
  { induction pre as [| c pre IH]; intros a b H; [exact H |].
    cbn in H. injection H as H. now apply IH. }
  induction names as [| n t IH]; [intros [] |].
  intros Hin. cbn [map]. rewrite dict_get_cons. cbn [fst snd].
  destruct (String.eqb (pre ++ k) (pre ++ n)) eqn:E.
  - apply String.eqb_eq, Hinj in E. now subst.
  - destruct Hin as [-> | Hin]; [now rewrite String.eqb_refl in E |].
    now apply IH.
Qed.

End DictFacts.

(* ----------------------------------------------------------------- *)
(** *** The series of a cross-section, by key *)

Lemma stats_series_get (c : Z) (m sd mn mx sk ku : option float)
    (X : Q -> option float) :
  dict_get "mean"
    (stats_series
       (mk_stats c m sd mn mx sk ku
                 (map (fun p => (pct_label p, X p)) extended_percentiles)))
  = Some m.
Proof.
  unfold stats_series. rewrite dict_get_of. reflexivity.
Qed.

(** *** The mean of a series *)

Lemma one_sided_incl (d1 d2 : list float) :
  incl d1 d2 -> one_sided d2 = true -> one_sided d1 = true.
Proof.
  unfold one_sided. intros Hincl H. apply orb_true_iff in H.
  apply orb_true_iff. destruct H as [H | H]; [left | right];
    apply negb_true_iff in H; apply negb_true_iff;
    (destruct (existsb _ d1) eqn:E; [| reflexivity]);
    apply existsb_exists in E; destruct E as [v [Hv Ev]];
    rewrite <- H; symmetry; apply existsb_exists; exists v;
    (split; [now apply Hincl | exact Ev]).
Qed.

Lemma sum_without_neg_inf (data : list float) (acc : option float) :
  existsb is_neg_inf data = false ->
  (exists x, acc = Some (Finite x)) \/ acc = Some PosInf ->
  (exists x, fold_left float_add (map Some data) acc = Some (Finite x))
  \/ fold_left float_add (map Some data) acc = Some PosInf.
Proof.
  revert acc. induction data as [| v t IH]; intros acc Hn Hacc; [exact Hacc |].
  cbn [existsb] in Hn. apply orb_false_iff in Hn. destruct Hn as [Hv Ht].
  cbn [map fold_left]. apply IH; [exact Ht |].
  destruct Hacc as [[x ->] | ->]; destruct v; try discriminate; cbn; eauto.
Qed.

Lemma sum_without_pos_inf (data : list float) (acc : option float) :
  existsb is_pos_inf data = false ->
  (exists x, acc = Some (Finite x)) \/ acc = Some NegInf ->
  (exists x, fold_left float_add (map Some data) acc = Some (Finite x))
  \/ fold_left float_add (map Some data) acc = Some NegInf.
Proof.
  revert acc. induction data as [| v t IH]; intros acc Hn Hacc; [exact Hacc |].
  cbn [existsb] in Hn. apply orb_false_iff in Hn. destruct Hn as [Hv Ht].
  cbn [map fold_left]. apply IH; [exact Ht |].
  destruct Hacc as [[x ->] | ->]; destruct v; try discriminate; cbn; eauto.
Qed.

Lemma count_not_zero (n : nat) :
  Qeq_bool (inject_Z (Z.of_nat (S n))) 0 = false.
Proof.
  destruct (Qeq_bool (inject_Z (Z.of_nat (S n))) 0) eqn:E; [| reflexivity].
  apply Qeq_bool_iff in E. unfold Qeq in E. cbn in E. lia.
Qed.

(** The mean of a series with data that does not hold infinities of
    both signs is not NaN. *)
Lemma series_mean_defined (data : list float) :
  data <> [] -> one_sided data = true -> series_mean data <> None.
Proof.
  intros Hne Hs. unfold series_mean, series_sum.
  destruct data as [| v t] eqn:E; [congruence |]. rewrite <- E in *.
  assert (Hlen : List.length data = S (List.length t)) by now rewrite E.
  rewrite Hlen. unfold one_sided in Hs. apply orb_true_iff in Hs.
  destruct Hs as [Hs | Hs]; apply negb_true_iff in Hs.
  - destruct (sum_without_pos_inf data (Some (Finite 0)) Hs)
      as [[x ->] | ->]; [left; eauto | |].
    + cbn [float_div]. rewrite count_not_zero. discriminate.
    + cbn [float_div float_sign]. rewrite count_not_zero.
      cbn [Qnum inject_Z]. rewrite Z.sgn_pos by lia. discriminate.
  - destruct (sum_without_neg_inf data (Some (Finite 0)) Hs)
      as [[x ->] | ->]; [left; eauto | |].
    + cbn [float_div]. rewrite count_not_zero. discriminate.
    + cbn [float_div float_sign]. rewrite count_not_zero.
      cbn [Qnum inject_Z]. rewrite Z.sgn_pos by lia. discriminate.
Qed.

Section ResultsFacts.

Variable series_std : list float -> option float.
Variable series_skew : list float -> option float.
Variable series_kurtosis : list float -> option float.

Lemma cross_section_mean_key (group : list (option float)) :
  dict_get "mean"
    (stats_series (group_stats series_std series_skew series_kurtosis group))
  = Some (st_mean (group_stats series_std series_skew series_kurtosis group)).
Proof.
  rewrite group_stats_unfold.
  destruct (dropna group) as [| x t].
  - exact (stats_series_get 0 None None None None None None (fun _ => None)).
  - cbn [st_mean]. apply stats_series_get.
Qed.

Lemma cross_section_count (group : list (option float)) :
  st_count (group_stats series_std series_skew series_kurtosis group)
  = Z.of_nat (List.length (dropna group)).
Proof.
  rewrite group_stats_unfold.
  destruct (dropna group); reflexivity.
Qed.

(** A month with a mean has an observation. *)
Lemma cross_section_mean_count (group : list (option float)) :
  notna (st_mean (group_stats series_std series_skew series_kurtosis group))
  = true ->
  (0 <? st_count (group_stats series_std series_skew series_kurtosis group))
  = true.
Proof.
  rewrite group_stats_unfold.
  destruct (dropna group) as [| x t]; [discriminate |].
  intros _. cbn [st_count]. apply Z.ltb_lt. cbn [List.length]. lia.
Qed.

(** A month with an observation has a mean, unless it holds infinities
    of both signs. *)
Lemma cross_section_mean_present (group : list (option float)) :
  one_sided (dropna group) = true ->
  notna (st_mean (group_stats series_std series_skew series_kurtosis group))
  = (0 <? st_count (group_stats series_std series_skew series_kurtosis
                      group)).
Proof.
  intros Hs.
  destruct (0 <? st_count (group_stats series_std series_skew
                             series_kurtosis group)) eqn:E.
  - rewrite cross_section_count in E. apply Z.ltb_lt in E.
    rewrite group_stats_unfold.
    destruct (dropna group) as [| x t] eqn:Ed; [cbn in E; lia |].
    cbn [st_mean]. apply notna_true.
    apply series_mean_defined; [discriminate | exact Hs].
  - destruct (notna (st_mean _)) eqn:N; [| reflexivity].
    apply cross_section_mean_count in N. congruence.
Qed.

End ResultsFacts.

Section ResultsByKey.

Variable series_std : list float -> option float.
Variable series_skew : list float -> option float.
Variable series_kurtosis : list float -> option float.

(** On data the overall statistics are computed. *)
Lemma overall_stats_defined (data : list float) :
  data <> [] ->
  overall_stats series_std series_skew series_kurtosis data
  = Some (overall_dict series_std series_skew series_kurtosis data).
Proof.
  intros H. unfold overall_stats, overall_dict.
  rewrite (percentile_items_defined _ _ _ H), map_map. reflexivity.
Qed.

(** On no data [np.percentile] raises. *)
Lemma overall_stats_raises :
  overall_stats series_std series_skew series_kurtosis [] = None.
Proof.
  unfold overall_stats. now rewrite percentile_items_raises.
Qed.

(** The overall statistics, by key. *)
Lemma overall_stats_get (data : list float) :
  dict_get "overall_count"
           (rev (overall_dict series_std series_skew series_kurtosis data))
  = Some (RInt (Z.of_nat (List.length data)))
  /\ (forall key,
        In key ["overall_mean"; "overall_std"; "overall_min"; "overall_max";
                "overall_skew"; "overall_kurt"]%string ->
        exists x,
          dict_get key
            (rev (overall_dict series_std series_skew series_kurtosis data))
          = Some (RNum x))
  /\ Forall
       (fun p =>
          dict_get ("overall_p" ++ string_of_Z (pct_label p))
            (rev (overall_dict series_std series_skew series_kurtosis data))
          = Some (RNum (percentile data (p * 100))))
       extended_percentiles
  /\ (forall key,
        In key ["ts_mean"; "ts_std"; "ts_skew"; "ts_kurt"]%string ->
        dict_get key
          (rev (overall_dict series_std series_skew series_kurtosis data))
        = None).
Proof.
  split; [reflexivity |]. split; [| split].
  - intros key H. cbn [In] in H.
    destruct H as [<- | [<- | [<- | [<- | [<- | [<- | []]]]]]];
      eexists; reflexivity.
  - repeat (constructor; [reflexivity |]). constructor.
  - intros key H. cbn [In] in H.
    destruct H as [<- | [<- | [<- | [<- | []]]]]; reflexivity.
Qed.

(** The statistics of the period counts are computed on a panel that is
    not empty. *)
Lemma results_n_defined (final : list final_row) :
  final <> [] ->
  results_n series_std final = Some (n_dict series_std final).
Proof.
  intros H. unfold results_n, n_dict. cbv zeta.
  rewrite percentile_items_defined, map_map; [reflexivity |].
  intros E. apply map_eq_nil in E.
  apply (f_equal (map fst)) in E. rewrite n_monthly_keys in E.
  destruct final as [| r rest]; [congruence |].
  assert (Hk : In (fr_period r) (map fst (groupby_period (r :: rest)))).
  { apply groupby_period_keys_In. exists r. split; [now left | reflexivity]. }
  rewrite E in Hk. destruct Hk.
Qed.

End ResultsByKey.

(* ----------------------------------------------------------------- *)
(** ** Counting the observations month by month *)

Lemma list_sum_zero {A : Type} (l : list A) :
  list_sum (map (fun _ => 0%nat) l) = 0%nat.
Proof.
  induction l as [| x t IH]; [reflexivity | exact IH].
Qed.

Lemma list_sum_plus {A : Type} (f g : A -> nat) (l : list A) :
  list_sum (map (fun x => (f x + g x)%nat) l)
  = (list_sum (map f l) + list_sum (map g l))%nat.
Proof.
  induction l as [| x t IH]; [reflexivity |].
  cbn [map]. change (list_sum (?a :: ?t)) with (a + list_sum t)%nat.
  rewrite IH.
  change (list_sum (f x :: map f t)) with (f x + list_sum (map f t))%nat.
  change (list_sum (g x :: map g t)) with (g x + list_sum (map g t))%nat.
  lia.
Qed.

Lemma list_sum_one (ks : list period) (a : period) :
  NoDup ks -> In a ks ->
  list_sum (map (fun k => if period_eqb a k then 1%nat else 0%nat) ks)
  = 1%nat.
Proof.
  induction 1 as [| k t Hk Hnd IH]; [intros [] |].
  intros Hin. cbn [map]. change (list_sum (?x :: ?l)) with (x + list_sum l)%nat.
  destruct (period_eqb a k) eqn:E.
  - apply period_eqb_iff in E. subst k.
    rewrite (map_ext_in _ (fun _ => 0%nat)); [now rewrite list_sum_zero |].
    intros k Hk'. destruct (period_eqb a k) eqn:E; [| reflexivity].
    apply period_eqb_iff in E. subst k. contradiction.
  - destruct Hin as [-> | Hin].
    + rewrite (proj2 (period_eqb_iff a a) eq_refl) in E. discriminate.
    + now apply IH.
Qed.

(** The rows that satisfy a condition, counted month by month. *)
Lemma count_by_month (P : final_row -> bool) (ks : list period)
    (l : list final_row) :
  NoDup ks ->
  (forall r, In r l -> In (fr_period r) ks) ->
  list_sum
    (map (fun k =>
            List.length
              (filter P (filter (fun r => period_eqb (fr_period r) k) l)))
         ks)
  = List.length (filter P l).
Proof.
  intros Hnd. induction l as [| r t IH]; intros Hin.
  - cbn. apply list_sum_zero.
  - rewrite (map_ext _
      (fun k => ((if period_eqb (fr_period r) k && P r then 1 else 0)
                 + List.length
                     (filter P (filter (fun r0 => period_eqb (fr_period r0) k)
                                       t)))%nat)).
    + rewrite list_sum_plus, IH by (intros r' Hr'; apply Hin; now right).
      cbn [filter]. destruct (P r).
      * rewrite (map_ext _ (fun k => if period_eqb (fr_period r) k
                                     then 1%nat else 0%nat))
          by (intros k; now rewrite andb_true_r).
        rewrite list_sum_one; [reflexivity | exact Hnd |].
        apply Hin. now left.
      * rewrite (map_ext _ (fun _ => 0%nat))
          by (intros k; now rewrite andb_false_r).
        now rewrite list_sum_zero.
    + intros k. cbn [filter].
      destruct (period_eqb (fr_period r) k); cbn [andb filter];
        [| reflexivity].
      destruct (P r); reflexivity.
Qed.

Lemma filter_length_bound {A : Type} (P : A -> bool) (l : list A) :
  (List.length (filter P l) <= List.length l)%nat.
Proof.
  induction l as [| x t IH]; [cbn; lia |].
  cbn. destruct (P x); cbn; lia.
Qed.

Lemma fold_add_of_nat {A : Type} (f : A -> nat) (l : list A) :
  fold_right Z.add 0 (map (fun x => Z.of_nat (f x)) l)
  = Z.of_nat (list_sum (map f l)).
Proof.
  induction l as [| x t IH]; [reflexivity |]. cbn [map fold_right].
  change (list_sum (f x :: map f t)) with (f x + list_sum (map f t))%nat.
  rewrite IH. lia.
Qed.

Lemma groupby_period_keys_NoDup (final : list final_row) :
  NoDup (sort_values period_leb (unique period_eqb (map fr_period final))).
Proof.
  apply (Permutation_NoDup (sort_values_perm period_leb _)).
  apply drop_dup_from_NoDup. intros a. now apply period_eqb_iff.
Qed.

Section CountsOfTheResults.

Variable series_std : list float -> option float.
Variable series_skew : list float -> option float.
Variable series_kurtosis : list float -> option float.

Lemma monthly_table_defined (var : final_row -> option float)
    (final : list final_row) :
  monthly_table series_std series_skew series_kurtosis var final
  = Some (monthly_series series_std series_skew series_kurtosis var final).
Proof.
  unfold monthly_table. now rewrite monthly_cross_sectional_rows.
Qed.

(** The results of a variable are computed when it has data. *)
Lemma results_var_defined (var : final_row -> option float)
    (final : list final_row) :
  has_data var final = true ->
  results_var series_std series_skew series_kurtosis var final
  = Some (results_dict series_std series_skew series_kurtosis var final).
Proof.
  intros H. unfold results_var, results_dict.
  rewrite monthly_table_defined, overall_stats_defined; [reflexivity |].
  unfold has_data in H. intros E. rewrite E in H. discriminate.
Qed.

(** Without data [np.percentile] raises. *)
Lemma results_var_raises (var : final_row -> option float)
    (final : list final_row) :
  has_data var final = false ->
  results_var series_std series_skew series_kurtosis var final = None.
Proof.
  intros H. unfold results_var.
  rewrite monthly_table_defined. unfold has_data in H.
  destruct (dropna (map var final)); [| discriminate].
  now rewrite overall_stats_raises.
Qed.

Lemma total_count_all (var : final_row -> option float)
    (final : list final_row) :
  total_count (monthly_rows series_std series_skew series_kurtosis var final)
  = Z.of_nat (List.length (dropna (map var final))).
Proof.
  unfold total_count, monthly_rows, groupby_period.
  rewrite !map_map. cbn [fst snd].
  rewrite (map_ext _
    (fun k => Z.of_nat
       (List.length
          (filter (fun r => notna (var r))
                  (filter (fun r => period_eqb (fr_period r) k) final)))))
    by (intros k; now rewrite cross_section_count, dropna_map_length).
  rewrite fold_add_of_nat, count_by_month.
  - now rewrite dropna_map_length.
  - apply groupby_period_keys_NoDup.
  - intros r Hr. apply (sort_values_In period_leb).
    apply unique_In; [apply period_eqb_eq | now apply in_map].
Qed.

Lemma results_var_get (var : final_row -> option float)
    (final : list final_row) (key : string) :
  dict_get key (results_dict series_std series_skew series_kurtosis var final)
  = match dict_get key
            (rev (overall_dict series_std series_skew series_kurtosis
                    (dropna (map var final)))) with
    | Some v => Some v
    | None =>
        dict_get key
          (time_series_stats series_std
             (monthly_series series_std series_skew series_kurtosis
                var final))
    end.
Proof.
  unfold results_dict. apply dict_get_update.
Qed.

Lemma overall_count_positive (var : final_row -> option float)
    (final : list final_row) :
  has_data var final = true ->
  1 <= total_count (monthly_rows series_std series_skew series_kurtosis
                      var final).
Proof.
  intros Hdata. rewrite total_count_all. unfold has_data in Hdata.
  destruct (dropna (map var final)); [discriminate |].
  cbn [List.length]. lia.
Qed.

(** Without a month with data, the monthly counts sum to 0. *)
Lemma total_count_no_data (var : final_row -> option float)
    (final : list final_row) :
  months_with_data (monthly_rows series_std series_skew series_kurtosis
                      var final) = [] ->
  total_count (monthly_rows series_std series_skew series_kurtosis var final)
  = 0.
Proof.
  unfold months_with_data, total_count. intros H.
  assert (Hz : forall ks,
            In ks (monthly_rows series_std series_skew series_kurtosis
                     var final) ->
            st_count (snd ks) = 0).
  { intros ks Hks.
    destruct (0 <? st_count (snd ks)) eqn:E.
    - assert (Hin : In ks (filter (fun ks0 => 0 <? st_count (snd ks0))
                             (monthly_rows series_std series_skew
                                series_kurtosis var final)))
        by (apply filter_In; now split).
      rewrite H in Hin. destruct Hin.
    - apply Z.ltb_ge in E.
      unfold monthly_rows in Hks. apply in_map_iff in Hks.
      destruct Hks as [kg [<- _]]. cbn [snd] in E |- *.
      rewrite cross_section_count in E |- *. lia. }
  induction (monthly_rows series_std series_skew series_kurtosis var final)
    as [| ks t IH]; [reflexivity |].
  cbn [map fold_right]. rewrite (Hz ks (or_introl eq_refl)).
  rewrite IH; [reflexivity | |].
  - cbn [filter] in H. destruct (0 <? st_count (snd ks)); [discriminate |].
    exact H.
  - intros k Hk. apply Hz. now right.
Qed.

(** X19.  For a variable with at least one observation the results are
    computed, and the overall count that they hold, the number of its
    non-missing observations in the final panel, is the sum of the
    counts of its monthly cross-sections: every observation falls in
    exactly one month of the monthly table. *)
Theorem overall_count_is_sum_of_monthly_counts
    (var : final_row -> option float) (final : list final_row) :
  has_data var final = true ->
  exists stats table,
    results_var series_std series_skew series_kurtosis var final = Some stats
    /\ monthly_cross_sectional series_std series_skew series_kurtosis
         var final = Some table
    /\ dict_get "overall_count" stats = Some (RInt (total_count table))
    /\ total_count table = Z.of_nat (List.length (dropna (map var final)))
    /\ 1 <= total_count table.
Proof.
  intros Hdata. eexists. eexists.
  split; [now apply results_var_defined |].
  split; [apply monthly_cross_sectional_rows |].
  split; [| split].
  - rewrite results_var_get.
    rewrite (proj1 (overall_stats_get series_std series_skew series_kurtosis
                      (dropna (map var final)))).
    now rewrite total_count_all.
  - apply total_count_all.
  - now apply overall_count_positive.
Qed.

Lemma monthly_table_mean_column (var : final_row -> option float)
    (final : list final_row) :
  table_column
    (monthly_series series_std series_skew series_kurtosis var final) "mean"
  = map (fun ks => st_mean (snd ks))
        (monthly_rows series_std series_skew series_kurtosis var final).
Proof.
  unfold table_column, monthly_series. rewrite map_map. cbn [fst snd].
  apply map_ext_in. intros [k s] H.
  unfold monthly_rows in H. apply in_map_iff in H.
  destruct H as [kg [E _]]. injection E as _ <-. cbn [snd].
  now rewrite cross_section_mean_key.
Qed.

Lemma safe_ts_stats_count (series : list (option float)) :
  ts_count (safe_ts_stats series_std series)
  = Z.of_nat (List.length (dropna series)).
Proof.
  unfold safe_ts_stats. destruct (dropna series); reflexivity.
Qed.

Lemma time_series_values
    (table : list (period * list (string * option float)))
    (k : string) (v : result_value) :
  dict_get k (time_series_stats series_std table) = Some v ->
  exists t, v = RStats t.
Proof.
  intros H. apply dict_get_In in H. unfold time_series_stats, dict_of in H.
  apply dict_update_In in H. destruct H as [[] | H].
  apply in_map_iff in H. destruct H as [col [E _]]. injection E as _ <-.
  eexists. reflexivity.
Qed.

Lemma time_series_mean_key (var : final_row -> option float)
    (final : list final_row) :
  final <> [] ->
  dict_get "ts_mean"
    (time_series_stats series_std
       (monthly_series series_std series_skew series_kurtosis var final))
  = Some (RStats
            (safe_ts_stats series_std
               (table_column
                  (monthly_series series_std series_skew series_kurtosis
                     var final) "mean"))).
Proof.
  intros Hne. unfold time_series_stats. rewrite dict_get_of, <- map_rev.
  change "ts_mean"%string with ("ts_" ++ "mean")%string.
  apply (dict_get_prefixed "ts_" "mean"
           (fun col => RStats (safe_ts_stats series_std
              (table_column
                 (monthly_series series_std series_skew series_kurtosis
                    var final) col)))).
  apply in_rev. rewrite rev_involutive.
  unfold table_columns. apply unique_In; [intros a b; apply String.eqb_eq |].
  destruct final as [| r0 rest]; [congruence |].
  assert (Hk : In (fr_period r0)
                  (map fst (groupby_period (r0 :: rest)))).
  { apply groupby_period_keys_In. exists r0. split; [now left | reflexivity]. }
  apply in_map_iff in Hk. destruct Hk as [[k g] [_ Hkg]].
  apply in_flat_map.
  exists (k, stats_series
               (group_stats series_std series_skew series_kurtosis
                  (map var g))).
  split.
  - unfold monthly_series, monthly_rows. rewrite map_map.
    apply in_map_iff. exists (k, g). split; [reflexivity | exact Hkg].
  - cbn [snd].
    pose proof (cross_section_mean_key series_std series_skew series_kurtosis
                  (map var g)) as Hm.
    apply dict_get_In in Hm.
    apply in_map_iff. eexists. split; [| exact Hm]. reflexivity.
Qed.

(** The count of the series of monthly means is the number of months
    whose mean is not NaN; with no month at all the key is absent and
    the report falls back on 0. *)
Lemma time_series_length_value (var : final_row -> option float)
    (final : list final_row) :
  match dict_get "ts_mean"
          (time_series_stats series_std
             (monthly_series series_std series_skew series_kurtosis
                var final)) with
  | Some (RStats t) => ts_count t
  | _ => 0
  end
  = Z.of_nat (List.length
      (months_with_mean
         (monthly_rows series_std series_skew series_kurtosis var final))).
Proof.
  destruct final as [| r0 rest] eqn:E; [reflexivity |]. rewrite <- E.
  rewrite time_series_mean_key by (rewrite E; discriminate).
  rewrite safe_ts_stats_count, monthly_table_mean_column.
  rewrite dropna_map_length. reflexivity.
Qed.

Lemma filter_length_le_in {A : Type} (P Q : A -> bool) (l : list A) :
  (forall x, In x l -> P x = true -> Q x = true) ->
  (List.length (filter P l) <= List.length (filter Q l))%nat.
Proof.
  induction l as [| x t IH]; intros H; [cbn; lia |].
  assert (Ht : (List.length (filter P t) <= List.length (filter Q t))%nat)
    by (apply IH; intros y Hy; apply H; now right).
  cbn [filter]. destruct (P x) eqn:E.
  - rewrite (H x (or_introl eq_refl) E). cbn [List.length]. lia.
  - destruct (Q x); cbn [List.length]; lia.
Qed.

(** A month with a mean is a month with data. *)
Lemma months_with_mean_bound (var : final_row -> option float)
    (final : list final_row) :
  (List.length
     (months_with_mean
        (monthly_rows series_std series_skew series_kurtosis var final))
   <= List.length
        (months_with_data
           (monthly_rows series_std series_skew series_kurtosis var final)))%nat.
Proof.
  unfold months_with_mean, months_with_data.
  apply filter_length_le_in. intros [k s] Hin Hm.
  unfold monthly_rows in Hin. apply in_map_iff in Hin.
  destruct Hin as [kg [E _]]. injection E as _ <-. cbn [snd] in *.
  now apply cross_section_mean_count.
Qed.

(** When the variable does not hold infinities of both signs, every
    month with data has a mean. *)
Lemma months_with_mean_one_sided (var : final_row -> option float)
    (final : list final_row) :
  one_sided (dropna (map var final)) = true ->
  months_with_mean
    (monthly_rows series_std series_skew series_kurtosis var final)
  = months_with_data
      (monthly_rows series_std series_skew series_kurtosis var final).
Proof.
  intros Hs. unfold months_with_mean, months_with_data.
  apply filter_ext_in. intros [k s] Hin.
  unfold monthly_rows, groupby_period in Hin. rewrite map_map in Hin.
  apply in_map_iff in Hin. destruct Hin as [k' [E _]].
  cbn [fst snd] in E. injection E as _ <-. cbn [snd].
  apply cross_section_mean_present.
  apply (one_sided_incl _ (dropna (map var final))); [| exact Hs].
  intros v Hv. apply dropna_In in Hv. apply dropna_In.
  apply in_map_iff in Hv. destruct Hv as [r [Er Hr]].
  apply filter_In in Hr. apply in_map_iff. exists r. tauto.
Qed.

Lemma months_with_data_bound (var : final_row -> option float)
    (final : list final_row) :
  (List.length
     (months_with_data
        (monthly_rows series_std series_skew series_kurtosis var final))
   <= List.length (n_monthly final))%nat.
Proof.
  rewrite <- (length_map fst (n_monthly final)), n_monthly_keys.
  rewrite length_map.
  replace (List.length (groupby_period final))
    with (List.length (monthly_rows series_std series_skew series_kurtosis
                         var final))
    by (unfold monthly_rows; apply length_map).
  apply filter_length_bound.
Qed.

Lemma has_data_nonempty (var : final_row -> option float)
    (final : list final_row) :
  has_data var final = true -> final <> [].
Proof.
  intros H ->. discriminate H.
Qed.

(** X20.  For a variable with at least one observation, the time-series
    length reported for it (the count of the series of monthly
    cross-sectional means) is the number of months whose mean is not
    NaN; it never exceeds the number of months in which the variable has
    a non-missing observation, nor the number of months of the final
    panel, which is the length reported for [n].  When the variable does
    not hold infinities of both signs (their sum is NaN), it is the
    number of months in which the variable has at least one non-missing
    observation, and it is at least 1. *)
Theorem time_series_length_counts_months_with_data
    (var : final_row -> option float) (final : list final_row) :
  has_data var final = true ->
  exists stats table t,
    results_var series_std series_skew series_kurtosis var final = Some stats
    /\ monthly_cross_sectional series_std series_skew series_kurtosis
         var final = Some table
    /\ dict_get "ts_mean" stats = Some (RStats t)
    /\ ts_count t = Z.of_nat (List.length (months_with_mean table))
    /\ ts_count t <= Z.of_nat (List.length (months_with_data table))
    /\ Z.of_nat (List.length (months_with_data table))
       <= Z.of_nat (List.length (n_monthly final))
    /\ (one_sided (dropna (map var final)) = true ->
        ts_count t = Z.of_nat (List.length (months_with_data table))
        /\ 1 <= ts_count t).
Proof.
  intros Hdata. pose proof (has_data_nonempty var final Hdata) as Hne.
  pose proof (time_series_length_value var final) as Hv.
  rewrite (time_series_mean_key var final Hne) in Hv.
  eexists. eexists. eexists.
  split; [now apply results_var_defined |].
  split; [apply monthly_cross_sectional_rows |].
  split; [| split; [exact Hv | split; [| split]]].
  - rewrite results_var_get.
    rewrite (proj2 (proj2 (proj2
               (overall_stats_get series_std series_skew series_kurtosis
                  (dropna (map var final))))) "ts_mean"%string)
      by (now left).
    now apply time_series_mean_key.
  - rewrite Hv. apply inj_le, months_with_mean_bound.
  - apply inj_le, months_with_data_bound.
  - intros Hs. rewrite Hv, (months_with_mean_one_sided var final Hs).
    split; [reflexivity |].
    pose proof (overall_count_positive var final Hdata) as Hp.
    destruct (months_with_data _) as [| ks rest] eqn:E;
      [| cbn [List.length]; lia].
    exfalso. apply (total_count_no_data var final) in E. lia.
Qed.

End CountsOfTheResults.

(* ----------------------------------------------------------------- *)
(** ** The report tables read only keys that exist *)

Lemma percentile_rows_built (var : string)
    (stats : list (string * result_value)) (data : list float)
    (percentiles : list Q) :
  Forall (fun p =>
            dict_get ("overall_p" ++ string_of_Z (pct_label p)) stats
            = Some (RNum (percentile data (p * 100))))
         percentiles ->
  percentile_rows var stats percentiles
  = Some (map (percentile_row_of var data) percentiles).
Proof.
  induction 1 as [| p ps Hp _ IH]; [reflexivity |].
  cbn [percentile_rows map]. rewrite Hp, IH. reflexivity.
Qed.

Lemma all_finite_one_sided (data : list float) :
  all_finite data = true -> one_sided data = true.
Proof.
  intros H. unfold one_sided. apply orb_true_iff. left.
  apply negb_true_iff. destruct (existsb is_pos_inf data) eqn:E;
    [| reflexivity].
  apply existsb_exists in E. destruct E as [v [Hv Ev]].
  unfold all_finite in H. rewrite forallb_forall in H.
  specialize (H v Hv). destruct v; discriminate.
Qed.

(** A column of rationals holds finite values only. *)
Lemma finite_column (var : final_row -> option Q) (final : list final_row) :
  all_finite (dropna (map (fun r => finite (var r)) final)) = true.
Proof.
  unfold all_finite. apply forallb_forall. intros v Hv.
  apply dropna_In, in_map_iff in Hv. destruct Hv as [r [E _]].
  destruct (var r); [injection E as <-; reflexivity | discriminate].
Qed.

Section Tables.

Variable format_float : string -> option float -> string.
Variable format_int : string -> Z -> string.
Variable series_std : list float -> option float.
Variable series_skew : list float -> option float.
Variable series_kurtosis : list float -> option float.

(** The loop over the variables succeeds when each of ret, size, bm and
    mom has data. *)
Lemma results_of_variables (final : list final_row) :
  all_have_data final = true ->
  results_of series_std series_skew series_kurtosis variables final []
  = Some [("ret", results_dict series_std series_skew series_kurtosis
                    (fun r => finite (fr_ret r)) final);
          ("size", results_dict series_std series_skew series_kurtosis
                     fr_size final);
          ("bm", results_dict series_std series_skew series_kurtosis
                   fr_bm final);
          ("mom", results_dict series_std series_skew series_kurtosis
                    (fun r => finite (fr_mom r)) final);
          ("n", n_dict series_std final)]%string.
Proof.
  intros H. unfold all_have_data in H.
  cbn [forallb percentile_variables snd] in H.
  rewrite !andb_true_iff in H. destruct H as [Hret [Hsize [Hbm [Hmom _]]]].
  pose proof (has_data_nonempty _ _ Hret) as Hne.
  cbn [results_of variables].
  change (String.eqb "ret" "n") with false.
  change (String.eqb "size" "n") with false.
  change (String.eqb "bm" "n") with false.
  change (String.eqb "mom" "n") with false.
  change (String.eqb "n" "n") with true.
  change (final_column "ret")
    with (Some (fun r : final_row => finite (fr_ret r))).
  change (final_column "size") with (Some fr_size).
  change (final_column "bm") with (Some fr_bm).
  change (final_column "mom")
    with (Some (fun r : final_row => finite (fr_mom r))).
  cbv iota.
  rewrite (results_var_defined series_std series_skew series_kurtosis
             _ final Hret).
  rewrite (results_var_defined series_std series_skew series_kurtosis
             _ final Hsize).
  rewrite (results_var_defined series_std series_skew series_kurtosis
             _ final Hbm).
  rewrite (results_var_defined series_std series_skew series_kurtosis
             _ final Hmom).
  rewrite (results_n_defined series_std final Hne).
  reflexivity.
Qed.

(** It raises when one of them has none. *)
Lemma results_of_raises (final : list final_row) :
  all_have_data final = false ->
  results_of series_std series_skew series_kurtosis variables final [] = None.
Proof.
  intros H. unfold all_have_data in H.
  cbn [forallb percentile_variables snd] in H.
  cbn [results_of variables].
  change (String.eqb "ret" "n") with false.
  change (String.eqb "size" "n") with false.
  change (String.eqb "bm" "n") with false.
  change (String.eqb "mom" "n") with false.
  change (final_column "ret")
    with (Some (fun r : final_row => finite (fr_ret r))).
  change (final_column "size") with (Some fr_size).
  change (final_column "bm") with (Some fr_bm).
  change (final_column "mom")
    with (Some (fun r : final_row => finite (fr_mom r))).
  cbv iota.
  destruct (has_data (fun r => finite (fr_ret r)) final) eqn:Hret;
    [| now rewrite (results_var_raises series_std series_skew
                      series_kurtosis _ final Hret)].
  rewrite (results_var_defined series_std series_skew series_kurtosis
             _ final Hret).
  destruct (has_data fr_size final) eqn:Hsize;
    [| now rewrite (results_var_raises series_std series_skew
                      series_kurtosis _ final Hsize)].
  rewrite (results_var_defined series_std series_skew series_kurtosis
             _ final Hsize).
  destruct (has_data fr_bm final) eqn:Hbm;
    [| now rewrite (results_var_raises series_std series_skew
                      series_kurtosis _ final Hbm)].
  rewrite (results_var_defined series_std series_skew series_kurtosis
             _ final Hbm).
  destruct (has_data (fun r => finite (fr_mom r)) final) eqn:Hmom;
    [discriminate H |].
  now rewrite (results_var_raises series_std series_skew series_kurtosis
                 _ final Hmom).
Qed.

Lemma results_var_percentiles (var : final_row -> option float)
    (final : list final_row) :
  Forall (fun p =>
            dict_get ("overall_p" ++ string_of_Z (pct_label p))
              (results_dict series_std series_skew series_kurtosis var final)
            = Some (RNum (percentile (dropna (map var final)) (p * 100))))
         extended_percentiles.
Proof.
  pose proof (proj1 (proj2 (proj2
                (overall_stats_get series_std series_skew series_kurtosis
                   (dropna (map var final)))))) as H.
  apply Forall_forall. intros p Hp. rewrite Forall_forall in H.
  rewrite results_var_get, (H p Hp). reflexivity.
Qed.

(** The percentile table, row by row. *)
Lemma percentile_table_built (final : list final_row) :
  _generate_percentile_distribution_table
    [("ret", results_dict series_std series_skew series_kurtosis
               (fun r => finite (fr_ret r)) final);
     ("size", results_dict series_std series_skew series_kurtosis
                fr_size final);
     ("bm", results_dict series_std series_skew series_kurtosis fr_bm final);
     ("mom", results_dict series_std series_skew series_kurtosis
               (fun r => finite (fr_mom r)) final);
     ("n", n_dict series_std final)]%string
    variables extended_percentiles
  = Some (flat_map
            (fun vc => map (percentile_row_of (fst vc)
                              (dropna (map (snd vc) final)))
                           extended_percentiles)
            percentile_variables).
Proof.
  cbn [_generate_percentile_distribution_table variables].
  change (String.eqb "ret" "n") with false.
  change (String.eqb "size" "n") with false.
  change (String.eqb "bm" "n") with false.
  change (String.eqb "mom" "n") with false.
  change (String.eqb "n" "n") with true.
  cbv iota.
  change (dict_get "ret" _)
    with (Some (results_dict series_std series_skew series_kurtosis
                  (fun r => finite (fr_ret r)) final)).
  change (dict_get "size" _)
    with (Some (results_dict series_std series_skew series_kurtosis
                  fr_size final)).
  change (dict_get "bm" _)
    with (Some (results_dict series_std series_skew series_kurtosis
                  fr_bm final)).
  change (dict_get "mom" _)
    with (Some (results_dict series_std series_skew series_kurtosis
                  (fun r => finite (fr_mom r)) final)).
  cbv iota.
  rewrite !(percentile_rows_built _ _ _ _ (results_var_percentiles _ final)).
  cbn [flat_map percentile_variables fst snd]. rewrite !app_nil_r.
  reflexivity.
Qed.

(** X21.  Once the statistics of the variables are computed (each of ret,
    size, bm and mom having at least one observation), the percentile
    table is always built: every key [overall_p<k>] that it reads has been
    written, under a label that no other level of the ladder shares.  The
    table has 27 rows for each of ret, size, bm and mom (none for n), and
    the row of a variable and a level holds the percentile of that level
    over the non-missing observations of the variable: a finite number
    when none of these observations is infinite. *)
Theorem percentile_table_rows (final : list final_row)
    (results : list (string * list (string * result_value))) :
  all_have_data final = true ->
  results_of series_std series_skew series_kurtosis variables final []
  = Some results ->
  _generate_percentile_distribution_table results variables
    extended_percentiles
  = Some (flat_map
            (fun vc => map (percentile_row_of (fst vc)
                              (dropna (map (snd vc) final)))
                           extended_percentiles)
            percentile_variables)
  /\ List.length
       (flat_map
          (fun vc => map (percentile_row_of (fst vc)
                            (dropna (map (snd vc) final)))
                         extended_percentiles)
          percentile_variables) = 108%nat
  /\ (forall vc p,
        In vc percentile_variables ->
        all_finite (dropna (map (snd vc) final)) = true ->
        exists x,
          pr_overall_value
            (percentile_row_of (fst vc) (dropna (map (snd vc) final)) p)
          = RNum (Some (Finite x))).
Proof.
  intros Hdata H. rewrite (results_of_variables final Hdata) in H.
  injection H as <-.
  split; [apply percentile_table_built |]. split; [reflexivity |].
  intros vc p Hvc Hfin. cbn [percentile_row_of pr_overall_value].
  unfold all_have_data in Hdata. rewrite forallb_forall in Hdata.
  specialize (Hdata vc Hvc). unfold has_data in Hdata.
  destruct (all_finite_values _ Hfin) as [values Ev]. rewrite Ev in *.
  destruct (np_percentile_finite values (p * 100)) as [x [Hx _]].
  - destruct values; [discriminate Hdata | discriminate].
  - exists x. unfold percentile. now rewrite Hx.
Qed.

End Tables.

Section SummaryRows.

Variable format_float : string -> option float -> string.
Variable format_int : string -> Z -> string.

(** The row of a variable, from a dictionary that holds the overall
    statistics and, under other keys, only statistics of time series. *)
Lemma summary_row_var_built (var : string)
    (d : list (string * result_value)) (n : Z)
    (x2 x3 x4 x5 x6 x7 : option float) (f : Q -> option float) :
  (forall k v, dict_get k d = Some v -> exists t, v = RStats t) ->
  exists row,
    summary_row_var format_float format_int var
      (dict_update d
         (dict_update
            (dict_of
               [("overall_count", RInt n); ("overall_mean", RNum x2);
                ("overall_std", RNum x3); ("overall_min", RNum x4);
                ("overall_max", RNum x5); ("overall_skew", RNum x6);
                ("overall_kurt", RNum x7)]%string)
            (map (fun p => (("overall_" ++ pct_key p)%string, RNum (f p)))
                 extended_percentiles)))
    = Some row
    /\ dict_get "Variable" row = Some (CText var)
    /\ dict_get "Time_Series_Length" row
       = Some (CValue (RInt (match dict_get "ts_mean" d with
                             | Some (RStats t) => ts_count t
                             | _ => 0
                             end))).
Proof.
  intros Hd. unfold summary_row_var, get_ts, summary_percentiles.
  cbn [map]. unfold formatted. rewrite !dict_get_update.
  destruct (dict_get "ts_mean" d) as [v1 |] eqn:E1;
    [destruct (Hd _ _ E1) as [t1 ->] |];
    (destruct (dict_get "ts_std" d) as [v2 |] eqn:E2;
       [destruct (Hd _ _ E2) as [t2 ->] |]);
    (destruct (dict_get "ts_skew" d) as [v3 |] eqn:E3;
       [destruct (Hd _ _ E3) as [t3 ->] |]);
    (destruct (dict_get "ts_kurt" d) as [v4 |] eqn:E4;
       [destruct (Hd _ _ E4) as [t4 ->] |]);
    (vm_compute; eexists; (split; [reflexivity | split; reflexivity])).
Qed.

Lemma summary_row_n_built (x1 x2 x3 x4 : option float) (c : Z)
    (f : Q -> option float) :
  exists row,
    summary_row_n format_float format_int
      (dict_update
         (dict_of [("mean", RNum x1); ("std", RNum x2); ("min", RNum x3);
                   ("max", RNum x4); ("count", RInt c)]%string)
         (map (fun p => (pct_key p, RNum (f p))) extended_percentiles))
    = Some row
    /\ dict_get "Variable" row = Some (CText "n")
    /\ dict_get "Time_Series_Length" row = Some (CValue (RInt c)).
Proof.
  vm_compute. eexists. split; [reflexivity | split; reflexivity].
Qed.

End SummaryRows.

Section SummaryTableBuilt.

Variable format_float : string -> option float -> string.
Variable format_int : string -> Z -> string.
Variable series_std : list float -> option float.
Variable series_skew : list float -> option float.
Variable series_kurtosis : list float -> option float.

Lemma summary_row_of_results (name : string)
    (var : final_row -> option float) (final : list final_row) :
  exists row,
    summary_row_var format_float format_int name
      (results_dict series_std series_skew series_kurtosis var final)
    = Some row
    /\ dict_get "Variable" row = Some (CText name)
    /\ dict_get "Time_Series_Length" row
       = Some (CValue (RInt (Z.of_nat (List.length
            (months_with_mean
               (table_of
                  (monthly_cross_sectional
                     series_std series_skew series_kurtosis var final))))))).
Proof.
  destruct (summary_row_var_built format_float format_int name
              (time_series_stats series_std
                 (monthly_series series_std series_skew series_kurtosis
                    var final))
              (Z.of_nat (List.length (dropna (map var final))))
              (series_mean (dropna (map var final)))
              (series_std (dropna (map var final)))
              (series_min (dropna (map var final)))
              (series_max (dropna (map var final)))
              (if (3 <=? List.length (dropna (map var final)))%nat
               then series_skew (dropna (map var final)) else None)
              (if (4 <=? List.length (dropna (map var final)))%nat
               then series_kurtosis (dropna (map var final)) else None)
              (fun p => percentile (dropna (map var final)) (p * 100))
              (time_series_values series_std _))
    as [row [E [V T]]].
  exists row. split; [exact E |]. split; [exact V |].
  rewrite T, time_series_length_value, monthly_cross_sectional_rows.
  reflexivity.
Qed.

Lemma summary_row_of_n (final : list final_row) :
  exists row,
    summary_row_n format_float format_int (n_dict series_std final)
    = Some row
    /\ dict_get "Variable" row = Some (CText "n")
    /\ dict_get "Time_Series_Length" row
       = Some (CValue (RInt (Z.of_nat (List.length (n_monthly final))))).
Proof.
  exact (summary_row_n_built format_float format_int
           (series_mean (map (fun kn => Finite (inject_Z (snd kn)))
                             (n_monthly final)))
           (series_std (map (fun kn => Finite (inject_Z (snd kn)))
                            (n_monthly final)))
           (series_min (map (fun kn => Finite (inject_Z (snd kn)))
                            (n_monthly final)))
           (series_max (map (fun kn => Finite (inject_Z (snd kn)))
                            (n_monthly final)))
           (Z.of_nat (List.length (n_monthly final)))
           (fun p => percentile
                       (map (fun kn => Finite (inject_Z (snd kn)))
                            (n_monthly final))
                       (p * 100))).
Qed.

Lemma calculate_descriptive_stats_nonempty (final : list final_row) :
  final <> [] ->
  calculate_descriptive_stats format_float format_int
    series_std series_skew series_kurtosis final
  = match results_of series_std series_skew series_kurtosis
            variables final [] with
    | None => None
    | Some results =>
        Some (results,
              _generate_comprehensive_summary_table format_float format_int
                results variables extended_percentiles)
    end.
Proof.
  intros Hne. unfold calculate_descriptive_stats.
  destruct final; [congruence | reflexivity].
Qed.

Lemma all_have_data_nonempty (final : list final_row) :
  all_have_data final = true -> final <> [].
Proof.
  intros H ->. discriminate H.
Qed.

(** X22.  When each of ret, size, bm and mom has at least one
    observation, [calculate_descriptive_stats] succeeds and builds the
    summary table and the percentile table: no key that a row reads is
    absent and no dictionary is formatted as a number.  The summary has
    one row per variable, in the order ret, size, bm, mom, n; the
    time-series length shown for ret, size, bm and mom is the number of
    months in which the variable has a cross-sectional mean (one that
    is not NaN), and the one shown for n is the number of months of the
    panel.  When neither size nor bm holds infinities of both signs, the
    months with a mean are the months in which the variable has an
    observation. *)
Theorem summary_table_always_built (final : list final_row) :
  all_have_data final = true ->
  exists results table ptable,
    calculate_descriptive_stats format_float format_int
      series_std series_skew series_kurtosis final
    = Some (results, (Some table, Some ptable))
    /\ map fst results = variables
    /\ map (dict_get "Variable") table
       = map (fun name => Some (CText name)) variables
    /\ map (dict_get "Time_Series_Length") table
       = map (fun vc =>
                Some (CValue (RInt (Z.of_nat (List.length
                  (months_with_mean
                     (table_of
                        (monthly_cross_sectional
                           series_std series_skew series_kurtosis
                           (snd vc) final))))))))
             percentile_variables
         ++ [Some (CValue (RInt (Z.of_nat (List.length (n_monthly final)))))]
    /\ (all_one_sided final = true ->
        forall vc, In vc percentile_variables ->
          months_with_mean
            (table_of (monthly_cross_sectional
                         series_std series_skew series_kurtosis
                         (snd vc) final))
          = months_with_data
              (table_of (monthly_cross_sectional
                           series_std series_skew series_kurtosis
                           (snd vc) final)))
    /\ List.length ptable = 108%nat.
Proof.
  intros Hdata.
  pose proof (all_have_data_nonempty final Hdata) as Hne.
  destruct (summary_row_of_results "ret" (fun r => finite (fr_ret r)) final)
    as [r1 [E1 [V1 T1]]].
  destruct (summary_row_of_results "size" fr_size final) as [r2 [E2 [V2 T2]]].
  destruct (summary_row_of_results "bm" fr_bm final) as [r3 [E3 [V3 T3]]].
  destruct (summary_row_of_results "mom" (fun r => finite (fr_mom r)) final)
    as [r4 [E4 [V4 T4]]].
  destruct (summary_row_of_n final) as [r5 [E5 [V5 T5]]].
  eexists. exists [r1; r2; r3; r4; r5]. eexists.
  split; [| split; [| split; [| split; [| split]]]].
  - rewrite (calculate_descriptive_stats_nonempty final Hne).
    rewrite (results_of_variables series_std series_skew series_kurtosis
               final Hdata).
    unfold _generate_comprehensive_summary_table.
    cbn [summary_rows variables].
    change (String.eqb "ret" "n") with false.
    change (String.eqb "size" "n") with false.
    change (String.eqb "bm" "n") with false.
    change (String.eqb "mom" "n") with false.
    change (String.eqb "n" "n") with true.
    cbv iota.
    change (dict_get "ret" _)
      with (Some (results_dict series_std series_skew series_kurtosis
                    (fun r => finite (fr_ret r)) final)).
    change (dict_get "size" _)
      with (Some (results_dict series_std series_skew series_kurtosis
                    fr_size final)).
    change (dict_get "bm" _)
      with (Some (results_dict series_std series_skew series_kurtosis
                    fr_bm final)).
    change (dict_get "mom" _)
      with (Some (results_dict series_std series_skew series_kurtosis
                    (fun r => finite (fr_mom r)) final)).
    change (dict_get "n" _) with (Some (n_dict series_std final)).
    cbv iota. rewrite E1, E2, E3, E4, E5.
    rewrite (percentile_table_built series_std series_skew series_kurtosis
               final).
    reflexivity.
  - reflexivity.
  - cbn [map variables]. now rewrite V1, V2, V3, V4, V5.
  - cbn [map percentile_variables snd app]. now rewrite T1, T2, T3, T4, T5.
  - intros Hs vc Hvc. rewrite monthly_cross_sectional_rows.
    cbn [table_of]. apply months_with_mean_one_sided.
    unfold all_one_sided in Hs. apply andb_true_iff in Hs.
    destruct Hs as [Hsize Hbm].
    cbn [percentile_variables In] in Hvc.
    destruct Hvc as [<- | [<- | [<- | [<- | []]]]]; cbn [snd];
      try assumption; apply all_finite_one_sided, finite_column.
  - reflexivity.
Qed.

(** X30.  [calculate_descriptive_stats] fails exactly when the final
    panel is empty or one of ret, size, bm and mom has no non-missing
    observation: [np.percentile] raises on the empty series of the
    overall statistics and the exception ends the computation. *)
Theorem descriptive_stats_need_data (final : list final_row) :
  calculate_descriptive_stats format_float format_int
    series_std series_skew series_kurtosis final = None
  <-> final = [] \/ all_have_data final = false.
Proof.
  destruct (all_have_data final) eqn:Hdata.
  - pose proof (all_have_data_nonempty final Hdata) as Hne.
    split; [| intros [H | H]; [contradiction | discriminate]]. intros H.
    rewrite (calculate_descriptive_stats_nonempty final Hne) in H.
    rewrite (results_of_variables series_std series_skew series_kurtosis
               final Hdata) in H.
    discriminate.
  - split; [now right |]. intros _.
    unfold calculate_descriptive_stats. destruct final; [reflexivity |].
    now rewrite (results_of_raises series_std series_skew series_kurtosis
                   _ Hdata).
Qed.

End SummaryTableBuilt.

(* ----------------------------------------------------------------- *)
(** ** The tolerance of the first strategy and the fallback *)

(** X23.  A row that the first strategy matches carries a record that
    became available at most 5 * 365 days before the observation date and
    not after it. *)
Theorem tier1_matches_within_five_years (crsp_ccm : list crsp_ccm_row)
    (comp : list comp_row) (out : list merged_row) (m : merged_row) :
  tier1 crsp_ccm comp = Some out ->
  In m out ->
  m_be m <> None ->
  exists a,
    m_available_date m = Some a
    /\ date_leb a (m_date m) = true
    /\ to_days (m_date m) - to_days a <= 5 * 365.
Proof.
  rewrite tier1_unfold. intros H Hm Hbe.
  destruct (merge_asof_matched _ _ _ _ H Hm Hbe) as [l [c [-> [_ [Ha Ht]]]]].
  apply asof_backward_sound in Ha. destruct Ha as [_ [_ Hd]].
  exists (cp_available_date c). repeat split; auto.
  unfold within_tolerance, tolerance_days in Ht. apply Z.leb_le in Ht.
  exact Ht.
Qed.

Lemma tier1_matches_within_five_years_witness :
  exists a,
    m_available_date
      (mk_merged
         (mk_cc (mk_crsp 10107 (mkdate 2019 8 30) "MSFT" (Some 0.01%Q)
                         (Some 1%Q) (Some 1%Q))
                (Some (filled_link
                         (mk_ccm (Some "001000"%string) 10107 "LU" "P"
                                 (Some (mkdate 2000 1 1)) None)))
                "001000")
         (Some (mkdate 2019 6 30)) (Some 50%Q)) = Some a
    /\ date_leb a (mkdate 2019 8 30) = true
    /\ to_days (mkdate 2019 8 30) - to_days a <= 5 * 365.
Proof.
  destruct (tier1 august_obs two_statements) as [out |] eqn:E;
    [| vm_compute in E; discriminate].
  apply (tier1_matches_within_five_years august_obs two_statements out
           (mk_merged
              (mk_cc (mk_crsp 10107 (mkdate 2019 8 30) "MSFT" (Some 0.01%Q)
                              (Some 1%Q) (Some 1%Q))
                     (Some (filled_link
                              (mk_ccm (Some "001000"%string) 10107 "LU" "P"
                                      (Some (mkdate 2000 1 1)) None)))
                     "001000")
              (Some (mkdate 2019 6 30)) (Some 50%Q)) E).
  - vm_compute in E. injection E as <-. left. reflexivity.
  - discriminate.
Defined.

(** X24.  The strategies fall back on one another only when one raises.
    When [merge_asof] runs but matches no observation (every record is
    older than five years, say), the panel is empty after the filter on
    book equity and [calculate_indicators] gives up: the binary search,
    which has no tolerance, is not tried. *)
Theorem no_fallback_when_merge_asof_matches_nothing
    (crsp_ccm : list crsp_ccm_row) (comp : list comp_row)
    (out : list merged_row) :
  tier1 crsp_ccm comp = Some out ->
  (forall m, In m out -> m_be m = None) ->
  join_ladder crsp_ccm comp = Some (Tier1, out)
  /\ joined_panel crsp_ccm comp = None.
Proof.
  intros H Hnone. unfold joined_panel, join_ladder. rewrite H.
  split; [reflexivity |].
  rewrite filter_none; [reflexivity |].
  intros m Hm. now rewrite (Hnone m Hm).
Qed.

Lemma no_fallback_when_merge_asof_matches_nothing_witness :
  (exists out, join_ladder old_statement_obs old_statement = Some (Tier1, out))
  /\ joined_panel old_statement_obs old_statement = None
  /\ exists out2 m, tier2 old_statement_obs old_statement = Some out2
                    /\ In m out2 /\ m_be m = Some 50%Q.
Proof.
  destruct (tier1 old_statement_obs old_statement) as [out |] eqn:E;
    [| vm_compute in E; discriminate].
  destruct (no_fallback_when_merge_asof_matches_nothing
              old_statement_obs old_statement out E) as [H1 H2].
  - vm_compute in E. injection E as <-.
    intros m [<- | []]. reflexivity.
  - split; [now exists out |]. split; [exact H2 |].
    vm_compute. eexists. eexists. split; [reflexivity |].
    split; [left; reflexivity | reflexivity].
Defined.

(* ----------------------------------------------------------------- *)
(** ** The order of the final panel *)

Lemma permno_date_leb_total (a b : merged_row) :
  permno_date_leb a b = true \/ permno_date_leb b a = true.
Proof.
  unfold permno_date_leb. rewrite (Z.compare_antisym (m_permno a) (m_permno b)).
  destruct (m_permno a ?= m_permno b); cbn; auto.
  apply date_leb_total.
Qed.

Lemma permno_date_leb_trans (a b c : merged_row) :
  permno_date_leb a b = true -> permno_date_leb b c = true ->
  permno_date_leb a c = true.
Proof.
  unfold permno_date_leb.
  destruct (m_permno a ?= m_permno b) eqn:Eab; try discriminate;
    destruct (m_permno b ?= m_permno c) eqn:Ebc; try discriminate;
    intros H1 H2.
  - apply Z.compare_eq in Eab, Ebc.
    rewrite (proj2 (Z.compare_eq_iff (m_permno a) (m_permno c))) by lia.
    exact (date_leb_trans _ _ _ H1 H2).
  - apply Z.compare_eq in Eab. rewrite Z.compare_lt_iff in Ebc.
    now rewrite (proj2 (Z.compare_lt_iff (m_permno a) (m_permno c))) by lia.
  - apply Z.compare_eq in Ebc. rewrite Z.compare_lt_iff in Eab.
    now rewrite (proj2 (Z.compare_lt_iff (m_permno a) (m_permno c))) by lia.
  - rewrite Z.compare_lt_iff in Eab, Ebc.
    now rewrite (proj2 (Z.compare_lt_iff (m_permno a) (m_permno c))) by lia.
Qed.

Lemma sorted_map_rel {A B : Type} (R : A -> A -> Prop) (R' : B -> B -> Prop)
    (f : A -> B) (l : list A) :
  (forall a b, R a b -> R' (f a) (f b)) ->
  StronglySorted R l -> StronglySorted R' (map f l).
Proof.
  intros HR. induction 1 as [| a t Ht IH Hall]; cbn; [constructor |].
  constructor; [exact IH |].
  apply Forall_forall. intros y Hy. apply in_map_iff in Hy.
  destruct Hy as [x [<- Hx]]. rewrite Forall_forall in Hall.
  apply HR. now apply Hall.
Qed.

Lemma sorted_of_map {A B : Type} (R : B -> B -> Prop) (f : A -> B)
    (l : list A) :
  StronglySorted R (map f l) ->
  StronglySorted (fun a b => R (f a) (f b)) l.
Proof.
  induction l as [| a t IH]; cbn; intros H; [constructor |].
  inversion H as [| ? ? Ht Hall]; subst. constructor; [now apply IH |].
  apply Forall_forall. intros x Hx. rewrite Forall_forall in Hall.
  apply Hall. now apply in_map.
Qed.

(** X25.  The final panel is in the order of [sort_values(['permno',
    'date'])]: by permno and, within a permno, by date; selecting the
    columns and dropping the incomplete rows keeps that order. *)
Theorem final_panel_sorted_by_permno_and_date (np_log : Q -> option float)
    (merged : list merged_row) :
  StronglySorted final_order (final_stats np_log merged).
Proof.
  unfold final_stats. apply sorted_filter.
  apply (sorted_map_rel
           (fun a b => permno_date_leb (df_m a) (df_m b) = true)).
  - intros a b. unfold permno_date_leb, final_order.
    cbn [select_final fr_permno fr_date].
    destruct (m_permno (df_m a) ?= m_permno (df_m b)) eqn:E;
      try discriminate; intros H.
    + right. apply Z.compare_eq in E. now split.
    + left. now apply Z.compare_lt_iff.
  - apply (sorted_of_map (fun x y => permno_date_leb x y = true) df_m).
    rewrite indicators_panel.
    apply (sort_values_sorted permno_date_leb permno_date_leb_total
             permno_date_leb_trans).
Qed.

(* ----------------------------------------------------------------- *)
(** ** The lagged return *)

Lemma in_combine_seq {A : Type} (l : list A) (s j : nat) (x : A) :
  In (x, j) (combine l (seq s (List.length l))) ->
  (s <= j)%nat /\ nth_error l (j - s) = Some x.
Proof.
  revert s. induction l as [| a t IH]; intros s H; [destruct H |].
  cbn [List.length seq combine] in H. destruct H as [E | H].
  - injection E as -> ->. split; [lia |].
    replace (j - j)%nat with 0%nat by lia. reflexivity.
  - destruct (IH (S s) H) as [Hle Hn]. split; [lia |].
    replace (j - s)%nat with (S (j - S s)) by lia. exact Hn.
Qed.

Lemma with_rank_position (df : list merged_row) (x : merged_row) (j : nat) :
  In (x, j) (with_rank_from same_permno [] df) ->
  nth_error (filter (same_permno x) df) j = Some x.
Proof.
  intros H.
  assert (Hf : In (x, j)
                  (filter (fun xj => same_permno x (fst xj))
                          (with_rank_from same_permno [] df))).
  { apply filter_In. split; [exact H |]. unfold same_permno. cbn [fst].
    apply Z.eqb_refl. }
  rewrite (with_rank_from_filter same_permno (same_permno x)) in Hf.
  - cbn [filter List.length] in Hf. apply in_combine_seq in Hf.
    destruct Hf as [_ Hf]. now rewrite Nat.sub_0_r in Hf.
  - intros y z Hy. unfold same_permno in *. apply Z.eqb_eq in Hy.
    now rewrite Hy.
Qed.

Lemma nth_shift1 {B : Type} (col : list (option B)) (k : nat) :
  (S k < List.length col)%nat ->
  nth (S k) (shift1 col) None = nth k col None.
Proof.
  intros Hk. unfold shift1. destruct col as [| c t] eqn:E; [cbn in Hk; lia |].
  rewrite <- E in *. cbn [nth].
  rewrite removelast_firstn_len, nth_firstn.
  destruct (k <? pred (List.length col))%nat eqn:El; [reflexivity |].
  apply Nat.ltb_ge in El. lia.
Qed.

(** X26.  The lagged return of a row is the return of the previous row of
    the same permno in the frame sorted by (permno, date), and it is missing
    on the first row of a permno; momentum is the compounded return of the
    rolling window minus that lagged return, hence missing on the first
    row of every permno. *)
Theorem lagged_return_is_previous_row (np_log : Q -> option float)
    (merged : list merged_row) (d : df_row) :
  In d (indicators np_log merged) ->
  df_mom d = cell_sub (df_ret_cumulative d) (df_ret_lag1 d)
  /\ exists j,
       nth_error (filter (same_permno (df_m d))
                         (sort_values permno_date_leb merged)) j
       = Some (df_m d)
       /\ match j with
          | O => df_ret_lag1 d = None /\ df_mom d = None
          | S k =>
              exists m,
                nth_error (filter (same_permno (df_m d))
                                  (sort_values permno_date_leb merged)) k
                = Some m
                /\ df_ret_lag1 d = m_ret m
          end.
Proof.
  rewrite indicators_rows. intros H. apply in_map_iff in H.
  destruct H as [[x j] [<- Hxj]].
  cbn [assemble df_mom df_ret_cumulative df_ret_lag1 df_m fst].
  split; [reflexivity |].
  pose proof (with_rank_position _ x j Hxj) as Hpos.
  exists j. split; [exact Hpos |].
  unfold group_cell. cbn [fst snd].
  set (g := filter (same_permno x) (sort_values permno_date_leb merged)) in *.
  assert (Hj : (j < List.length g)%nat)
    by (apply nth_error_Some; congruence).
  destruct j as [| k].
  - assert (Hlag : nth 0 (shift1 (map m_ret g)) None = None).
    { unfold shift1. destruct (map m_ret g); reflexivity. }
    rewrite Hlag. split; [reflexivity |].
    unfold cell_sub, lift2.
    destruct (nth 0 (rolling_apply 12 8 compound (map m_ret g)) None);
      reflexivity.
  - destruct (nth_error g k) as [m |] eqn:Em.
    + exists m. split; [reflexivity |].
      rewrite nth_shift1 by (rewrite length_map; exact Hj).
      rewrite (nth_error_nth (map m_ret g) k None (x := m_ret m));
        [reflexivity |].
      rewrite nth_error_map, Em. reflexivity.
    + apply nth_error_None in Em. lia.
Qed.

Lemma lagged_return_is_previous_row_witness :
  exists d,
    nth_error (indicators log_at_one twelve_month_panel) 1 = Some d
    /\ df_mom d = cell_sub (df_ret_cumulative d) (df_ret_lag1 d)
    /\ exists j,
         nth_error (filter (same_permno (df_m d))
                           (sort_values permno_date_leb twelve_month_panel)) j
         = Some (df_m d)
         /\ match j with
            | O => df_ret_lag1 d = None /\ df_mom d = None
            | S k =>
                exists m,
                  nth_error (filter (same_permno (df_m d))
                                    (sort_values permno_date_leb
                                       twelve_month_panel)) k
                  = Some m
                  /\ df_ret_lag1 d = m_ret m
            end.
Proof.
  destruct (nth_error (indicators log_at_one twelve_month_panel) 1)
    as [d |] eqn:E; [| vm_compute in E; discriminate].
  exists d. split; [reflexivity |].
  apply (lagged_return_is_previous_row log_at_one twelve_month_panel d).
  exact (nth_error_In _ _ E).
Defined.

(* ----------------------------------------------------------------- *)
(** ** The window of the cumulative return *)

Lemma rolling_apply_nth (window min_periods : nat)
    (f : list (option Q) -> Q) (col : list (option Q)) (j : nat) :
  (j < List.length col)%nat ->
  nth j (rolling_apply window min_periods f col) None
  = if (min_periods <=? List.length (dropna (window_at window col j)))%nat
    then Some (f (window_at window col j)) else None.
Proof.
  intros Hj. unfold rolling_apply.
  apply nth_error_nth. rewrite nth_error_map, nth_error_seq.
  apply Nat.ltb_lt in Hj. rewrite Hj. reflexivity.
Qed.

Lemma window_at_length {B : Type} (size : nat) (col : list B) (j : nat) :
  (j < List.length col)%nat ->
  List.length (window_at size col j) = Nat.min size (S j).
Proof.
  intros Hj. unfold window_at. rewrite length_skipn, length_firstn. lia.
Qed.

Lemma window_at_last {B : Type} (size : nat) (col : list B) (j : nat) :
  (0 < size)%nat ->
  nth_error (window_at size col j) (Nat.min size (S j) - 1)
  = nth_error col j.
Proof.
  intros Hs. unfold window_at. rewrite nth_error_skipn, nth_error_firstn.
  replace (S j - size + (Nat.min size (S j) - 1))%nat with j by lia.
  rewrite (proj2 (Nat.ltb_lt j (S j))) by lia. reflexivity.
Qed.

(** X27.  The cumulative return of a row is computed on the window of the
    returns of its permno that ends at the row itself: the row's own
    return is the last cell of the window, which holds the row and the (at
    most) eleven rows of the permno before it; the cell is the compounded
    return of the window when the window holds at least eight non-missing
    returns, and is missing otherwise. *)
Theorem cumulative_return_window (np_log : Q -> option float)
    (merged : list merged_row) (d : df_row) :
  In d (indicators np_log merged) ->
  exists j,
    nth_error (filter (same_permno (df_m d))
                      (sort_values permno_date_leb merged)) j
    = Some (df_m d)
    /\ List.length
         (window_at 12
            (map m_ret (filter (same_permno (df_m d))
                               (sort_values permno_date_leb merged))) j)
       = Nat.min 12 (S j)
    /\ nth_error
         (window_at 12
            (map m_ret (filter (same_permno (df_m d))
                               (sort_values permno_date_leb merged))) j)
         (Nat.min 12 (S j) - 1)
       = Some (m_ret (df_m d))
    /\ df_ret_cumulative d
       = if (8 <=? List.length
                     (dropna
                        (window_at 12
                           (map m_ret
                                (filter (same_permno (df_m d))
                                        (sort_values permno_date_leb merged)))
                           j)))%nat
         then Some (compound
                      (window_at 12
                         (map m_ret
                              (filter (same_permno (df_m d))
                                      (sort_values permno_date_leb merged)))
                         j))
         else None.
Proof.
  rewrite indicators_rows. intros H. apply in_map_iff in H.
  destruct H as [[x j] [<- Hxj]].
  cbn [assemble df_ret_cumulative df_m fst].
  pose proof (with_rank_position _ x j Hxj) as Hpos.
  exists j. split; [exact Hpos |].
  unfold group_cell. cbn [fst snd].
  set (g := filter (same_permno x) (sort_values permno_date_leb merged)) in *.
  assert (Hj : (j < List.length (map m_ret g))%nat).
  { rewrite length_map. apply nth_error_Some. congruence. }
  split; [now apply window_at_length |]. split.
  - rewrite window_at_last by lia. rewrite nth_error_map, Hpos. reflexivity.
  - now apply rolling_apply_nth.
Qed.

Lemma cumulative_return_window_witness :
  exists d j,
    nth_error (indicators log_at_one twelve_month_panel) 11 = Some d
    /\ nth_error (filter (same_permno (df_m d))
                         (sort_values permno_date_leb twelve_month_panel)) j
       = Some (df_m d)
    /\ List.length
         (window_at 12
            (map m_ret (filter (same_permno (df_m d))
                               (sort_values permno_date_leb
                                  twelve_month_panel))) j)
       = Nat.min 12 (S j)
    /\ nth_error
         (window_at 12
            (map m_ret (filter (same_permno (df_m d))
                               (sort_values permno_date_leb
                                  twelve_month_panel))) j)
         (Nat.min 12 (S j) - 1)
       = Some (m_ret (df_m d))
    /\ df_ret_cumulative d
       = if (8 <=? List.length
                     (dropna
                        (window_at 12
                           (map m_ret
                                (filter (same_permno (df_m d))
                                        (sort_values permno_date_leb
                                           twelve_month_panel)))
                           j)))%nat
         then Some (compound
                      (window_at 12
                         (map m_ret
                              (filter (same_permno (df_m d))
                                      (sort_values permno_date_leb
                                         twelve_month_panel)))
                         j))
         else None.
Proof.
  destruct (nth_error (indicators log_at_one twelve_month_panel) 11)
    as [d |] eqn:E; [| vm_compute in E; discriminate].
  destruct (cumulative_return_window log_at_one twelve_month_panel d
              (nth_error_In _ _ E)) as [j H].
  exists d, j. split; [reflexivity | exact H].
Defined.

(* ----------------------------------------------------------------- *)
(** ** The statement that the calendar-year match uses *)

Lemma yearly_leb_total (a b : comp_row) :
  yearly_leb a b = true \/ yearly_leb b a = true.
Proof.
  unfold yearly_leb.
  rewrite (String.compare_antisym (cp_gvkey a) (cp_gvkey b)).
  destruct (String.compare (cp_gvkey b) (cp_gvkey a)); cbn; auto.
  rewrite (Z.compare_antisym (cp_year a) (cp_year b)).
  destruct (cp_year a ?= cp_year b); cbn; auto.
  apply date_leb_total.
Qed.

Lemma yearly_leb_trans (a b c : comp_row) :
  yearly_leb a b = true -> yearly_leb b c = true -> yearly_leb a c = true.
Proof.
  unfold yearly_leb.
  destruct (String.compare (cp_gvkey a) (cp_gvkey b)) eqn:Eab;
    try discriminate;
    destruct (String.compare (cp_gvkey b) (cp_gvkey c)) eqn:Ebc;
    try discriminate.
  - apply String.compare_eq_iff in Eab, Ebc. rewrite Eab, Ebc.
    rewrite string_compare_refl.
    destruct (cp_year a ?= cp_year b) eqn:Yab; try discriminate;
      destruct (cp_year b ?= cp_year c) eqn:Ybc; try discriminate;
      intros H1 H2.
    + apply Z.compare_eq in Yab, Ybc.
      rewrite (proj2 (Z.compare_eq_iff (cp_year a) (cp_year c))) by lia.
      exact (date_leb_trans _ _ _ H1 H2).
    + apply Z.compare_eq in Yab. rewrite Z.compare_lt_iff in Ybc.
      now rewrite (proj2 (Z.compare_lt_iff (cp_year a) (cp_year c))) by lia.
    + apply Z.compare_eq in Ybc. rewrite Z.compare_lt_iff in Yab.
      now rewrite (proj2 (Z.compare_lt_iff (cp_year a) (cp_year c))) by lia.
    + rewrite Z.compare_lt_iff in Yab, Ybc.
      now rewrite (proj2 (Z.compare_lt_iff (cp_year a) (cp_year c))) by lia.
  - apply String.compare_eq_iff in Eab. rewrite Eab, Ebc. reflexivity.
  - apply String.compare_eq_iff in Ebc. rewrite <- Ebc, Eab. reflexivity.
  - rewrite (string_compare_lt_trans _ _ _ Eab Ebc). reflexivity.
Qed.

(** In a sorted frame, the last non-missing book equity is that of a row
    which every other row with a book equity precedes. *)
Lemma last_notna_sorted (R : comp_row -> comp_row -> Prop)
    (l : list comp_row) (b : Q) :
  StronglySorted R l ->
  last_notna (map cp_be l) = Some b ->
  exists c, In c l /\ cp_be c = Some b
            /\ (forall c', In c' l -> cp_be c' <> None -> c' = c \/ R c' c).
Proof.
  induction 1 as [| a t Ht IH Hall]; [discriminate |].
  intros H. rewrite Forall_forall in Hall.
  destruct (dropna (map cp_be t)) as [| y ys] eqn:Et.
  - unfold last_notna in H. cbn [map dropna] in H.
    destruct (cp_be a) as [ba |] eqn:Ea.
    + rewrite Et in H. cbn in H. injection H as <-.
      exists a. split; [now left |]. split; [exact Ea |].
      intros c' [<- | Hc'] Hbe; [now left |].
      exfalso. destruct (cp_be c') as [bc |] eqn:Ec; [| congruence].
      assert (Hin : In bc (dropna (map cp_be t))).
      { apply dropna_In. rewrite <- Ec. now apply in_map. }
      rewrite Et in Hin. destruct Hin.
    + rewrite Et in H. discriminate.
  - assert (Ht' : last_notna (map cp_be t) = Some b).
    { unfold last_notna in H |- *. cbn [map dropna] in H.
      destruct (cp_be a); rewrite Et in H |- *; exact H. }
    destruct (IH Ht') as [c [Hc [Ec Hmax]]].
    exists c. split; [now right |]. split; [exact Ec |].
    intros c' [<- | Hc'] Hbe.
    + right. now apply Hall.
    + now apply Hmax.
Qed.

(** X28.  The book equity that the calendar-year match gives to a row is
    that of the latest statement of the year: of a record of the row's
    gvkey dated in the calendar year of the observation, such that no
    record of that gvkey and year with a book equity has a later statement
    date. *)
Theorem tier3_uses_latest_statement_of_year (crsp_ccm : list crsp_ccm_row)
    (comp : list comp_row) (m : merged_row) :
  In m (tier3 crsp_ccm comp) ->
  exists c,
    In c comp
    /\ cp_gvkey c = cc_gvkey (m_row m)
    /\ dyear (cp_datadate c) = dyear (m_date m)
    /\ cp_be c = m_be m
    /\ (forall c', In c' comp ->
          cp_gvkey c' = cp_gvkey c ->
          dyear (cp_datadate c') = dyear (cp_datadate c) ->
          cp_be c' <> None ->
          date_leb (cp_datadate c') (cp_datadate c) = true).
Proof.
  intros Hm. unfold tier3 in Hm. apply filter_In in Hm.
  destruct Hm as [Hm Hbe]. apply in_flat_map in Hm.
  destruct Hm as [l [Hl Hm]].
  destruct (filter _ (comp_yearly comp)) as [| k ks] eqn:F.
  { destruct Hm as [<- | []]. discriminate. }
  apply in_map_iff in Hm. destruct Hm as [k' [<- Hk']].
  rewrite <- F in Hk'. apply filter_In in Hk'. destruct Hk' as [Hk' Hkey].
  apply andb_true_iff in Hkey. destruct Hkey as [Hg Hy].
  apply String.eqb_eq in Hg. apply Z.eqb_eq in Hy.
  cbn [m_be m_row] in Hbe |- *. unfold m_date. cbn [m_row].
  unfold comp_yearly in Hk'. apply in_map_iff in Hk'.
  destruct Hk' as [k0 [<- _]]. cbn [y_be y_gvkey y_year] in *.
  set (group := filter (same_gvkey_year k0) (sort_values yearly_leb comp))
    in *.
  destruct (last_notna (map cp_be group)) as [b |] eqn:Eb; [| discriminate].
  assert (Hsorted : StronglySorted (fun x y => yearly_leb x y = true) group).
  { apply sorted_filter.
    apply (sort_values_sorted yearly_leb yearly_leb_total yearly_leb_trans). }
  destruct (last_notna_sorted _ group b Hsorted Eb) as [c [Hc [Ec Hmax]]].
  pose proof Hc as Hc'. apply filter_In in Hc'. destruct Hc' as [Hcs Hck].
  apply sort_values_In in Hcs. apply same_gvkey_year_spec in Hck.
  destruct Hck as [Hcg Hcy].
  exists c. split; [exact Hcs |]. split; [congruence |].
  split; [unfold cp_year in *; congruence |]. split; [exact Ec |].
  intros c' Hin' Hg' Hy' Hbe'.
  assert (Hgroup : In c' group).
  { apply filter_In. split; [now apply sort_values_In |].
    apply same_gvkey_year_spec. unfold cp_year in *. split; congruence. }
  destruct (Hmax c' Hgroup Hbe') as [-> | Hle]; [apply date_leb_refl |].
  unfold yearly_leb in Hle. rewrite Hg', string_compare_refl in Hle.
  unfold cp_year in Hle. rewrite Hy', Z.compare_refl in Hle. exact Hle.
Qed.

Lemma tier3_uses_latest_statement_of_year_witness :
  exists m c,
    tier3 august_obs two_statements = [m]
    /\ In c two_statements
    /\ cp_gvkey c = cc_gvkey (m_row m)
    /\ dyear (cp_datadate c) = dyear (m_date m)
    /\ cp_be c = m_be m
    /\ (forall c', In c' two_statements ->
          cp_gvkey c' = cp_gvkey c ->
          dyear (cp_datadate c') = dyear (cp_datadate c) ->
          cp_be c' <> None ->
          date_leb (cp_datadate c') (cp_datadate c) = true).
Proof.
  destruct (tier3 august_obs two_statements) as [| m [| m' rest]] eqn:E;
    [vm_compute in E; discriminate | | vm_compute in E; discriminate].
  destruct (tier3_uses_latest_statement_of_year august_obs two_statements m)
    as [c H]; [rewrite E; now left |].
  exists m, c. split; [reflexivity | exact H].
Defined.

(* ----------------------------------------------------------------- *)
(** ** The frames that the join receives *)

Lemma drop_dup_from_sorted {A : Type} (same : A -> A -> bool)
    (R : A -> A -> Prop) (seen l : list A) :
  StronglySorted R l -> StronglySorted R (drop_dup_from same seen l).
Proof.
  intros H. revert seen. induction H as [| a t Ht IH Hall]; intros seen.
  - constructor.
  - cbn [drop_dup_from]. destruct (existsb (same a) seen); [apply IH |].
    constructor; [apply IH |].
    apply Forall_forall. intros x Hx. apply drop_dup_from_In in Hx.
    rewrite Forall_forall in Hall. now apply Hall.
Qed.

Lemma drop_dup_from_no_dup_keys {A : Type} (same : A -> A -> bool)
    (seen l : list A) :
  (forall a b, same a b = same b a) ->
  no_dup_keys same (drop_dup_from same seen l) = true.
Proof.
  intros Hsym. revert seen. induction l as [| x t IH]; intros seen.
  - reflexivity.
  - cbn [drop_dup_from]. destruct (existsb (same x) seen); [apply IH |].
    cbn [no_dup_keys]. rewrite IH, andb_true_r. apply negb_true_iff.
    destruct (existsb (same x) (drop_dup_from same (x :: seen) t)) eqn:E;
      [| reflexivity].
    apply existsb_exists in E. destruct E as [y [Hy Hs]].
    rewrite Hsym in Hs.
    rewrite (drop_dup_from_fresh same (x :: seen) t y x Hy
               (or_introl eq_refl)) in Hs.
    discriminate.
Qed.

Lemma cc_same_key_sym (a b : crsp_ccm_row) :
  cc_same_key a b = cc_same_key b a.
Proof.
  unfold cc_same_key, date_eqb.
  rewrite (String.eqb_sym (cc_gvkey a)), (Z.eqb_sym (dyear (cc_date a))),
    (Z.eqb_sym (dmonth (cc_date a))), (Z.eqb_sym (dday (cc_date a))).
  reflexivity.
Qed.

Lemma cp_same_key_sym (a b : comp_row) :
  cp_same_key a b = cp_same_key b a.
Proof.
  unfold cp_same_key, date_eqb.
  rewrite (String.eqb_sym (cp_gvkey a)),
    (Z.eqb_sym (dyear (cp_available_date a))),
    (Z.eqb_sym (dmonth (cp_available_date a))),
    (Z.eqb_sym (dday (cp_available_date a))).
  reflexivity.
Qed.

(** X29.  The two frames that the join strategies receive are always
    sorted by (gvkey, date) and free of duplicate (gvkey, date) keys: the
    sort and the drop of duplicates of the program establish this for any
    data, and dropping duplicates keeps the order. *)
Theorem prepared_frames_sorted_without_duplicates (l : list crsp_ccm_row)
    (c : list comp_row) :
  is_monotonic cc_leb (prepare_crsp_ccm l) = true
  /\ no_dup_keys cc_same_key (prepare_crsp_ccm l) = true
  /\ is_monotonic cp_leb (prepare_comp c) = true
  /\ no_dup_keys cp_same_key (prepare_comp c) = true
  /\ (forall x, In x l ->
        exists y, In y (prepare_crsp_ccm l) /\ cc_gvkey y = cc_gvkey x
                  /\ cc_date y = cc_date x)
  /\ (forall x, In x c ->
        exists y, In y (prepare_comp c) /\ cp_gvkey y = cp_gvkey x
                  /\ cp_available_date y = cp_available_date x).
Proof.
  unfold prepare_crsp_ccm, prepare_comp, drop_duplicates.
  split; [| split; [| split; [| split; [| split]]]].
  - apply sorted_is_monotonic, drop_dup_from_sorted.
    apply (sort_values_sorted cc_leb
             (key_date_total cc_gvkey cc_date cc_leb cc_leb_def)
             (key_date_trans cc_gvkey cc_date cc_leb cc_leb_def)).
  - apply drop_dup_from_no_dup_keys, cc_same_key_sym.
  - apply sorted_is_monotonic, drop_dup_from_sorted.
    apply (sort_values_sorted cp_leb
             (key_date_total cp_gvkey cp_available_date cp_leb cp_leb_def)
             (key_date_trans cp_gvkey cp_available_date cp_leb cp_leb_def)).
  - apply drop_dup_from_no_dup_keys, cp_same_key_sym.
  - intros x Hx.
    destruct (drop_dup_from_rep cc_same_key cc_same_key_refl []
                (sort_values cc_leb l) x)
      as [[y [[] _]] | [y [Hy [_ Hs]]]]; [now apply sort_values_In |].
    exists y. split; [exact Hy |]. unfold cc_same_key in Hs.
    apply andb_true_iff in Hs. destruct Hs as [Hg Hd].
    apply String.eqb_eq in Hg. apply date_eqb_eq in Hd. now split.
  - intros x Hx.
    assert (Hrefl : forall a, cp_same_key a a = true).
    { intros a. unfold cp_same_key. rewrite String.eqb_refl.
      now apply date_eqb_eq. }
    destruct (drop_dup_from_rep cp_same_key Hrefl []
                (sort_values cp_leb c) x)
      as [[y [[] _]] | [y [Hy [_ Hs]]]]; [now apply sort_values_In |].
    exists y. split; [exact Hy |]. unfold cp_same_key in Hs.
    apply andb_true_iff in Hs. destruct Hs as [Hg Hd].
    apply String.eqb_eq in Hg. apply date_eqb_eq in Hd. now split.
Qed.

(* ----------------------------------------------------------------- *)
(** ** One row per link in force, in the joined panel *)









(** C10, as stated, fails in a second way: the de-duplication on
    (gvkey, date) keeps one row per firm and date, so that an
    observation linked to two firms loses the row of a firm that another
    security, fetched before it, is linked to on the same date, although
    both firms have fundamentals. *)
Lemma shared_firm_row_dropped :
  List.length (qualifying_links sample_obs
                 (get_ccm_link second_share_class_links)) = 2%nat
  /\ exists t merged,
       merge_all (get_crsp_data [second_share_class]) two_firms
                 (get_ccm_link second_share_class_links) = Some (t, merged)
       /\ List.length (merged_rows_of sample_obs merged) = 1%nat.
Proof.
  split; [reflexivity |].
  eexists. eexists. split; vm_compute; reflexivity.
Qed.

(** The same de-duplication merges two link records in force that name
    the same firm: the observation then has one row in the joined
    panel. *)
Lemma same_firm_links_collapse :
  List.length (qualifying_links sample_obs
                 (get_ccm_link same_firm_links)) = 2%nat
  /\ exists t merged,
       merge_all (get_crsp_data [[sample_obs]]) two_firms
                 (get_ccm_link same_firm_links) = Some (t, merged)
       /\ List.length (merged_rows_of sample_obs merged) = 1%nat.
Proof.
  split; [reflexivity |].
  eexists. eexists. split; vm_compute; reflexivity.
Qed.






(* ----------------------------------------------------------------- *)
(** ** The further properties at the sample inputs *)

Lemma overall_count_is_sum_of_monthly_counts_witness :
  exists stats table,
    results_var no_statistic no_statistic no_statistic
      (fun r => finite (fr_mom r))
      (final_stats log_at_one twelve_month_panel) = Some stats
    /\ monthly_cross_sectional no_statistic no_statistic no_statistic
         (fun r => finite (fr_mom r))
         (final_stats log_at_one twelve_month_panel) = Some table
    /\ dict_get "overall_count" stats = Some (RInt (total_count table))
    /\ total_count table
       = Z.of_nat (List.length
           (dropna (map (fun r => finite (fr_mom r))
                        (final_stats log_at_one twelve_month_panel))))
    /\ 1 <= total_count table.
Proof.
  apply (overall_count_is_sum_of_monthly_counts
           no_statistic no_statistic no_statistic
           (fun r => finite (fr_mom r))
           (final_stats log_at_one twelve_month_panel)).
  vm_compute. reflexivity.
Defined.

(** A month whose observations of a variable are the two infinities has
    data and no mean: it is not counted in the time-series length. *)
Lemma opposite_infinities_month_not_counted :
  exists stats table t,
    results_var no_statistic no_statistic no_statistic fr_bm
      opposite_infinities = Some stats
    /\ monthly_cross_sectional no_statistic no_statistic no_statistic fr_bm
         opposite_infinities = Some table
    /\ dict_get "ts_mean" stats = Some (RStats t)
    /\ ts_count t = 0
    /\ List.length (months_with_data table) = 1%nat.
Proof.
  eexists. eexists. eexists.
  split; [vm_compute; reflexivity |].
  split; [vm_compute; reflexivity |].
  split; [vm_compute; reflexivity |].
  split; vm_compute; reflexivity.
Qed.

Lemma time_series_length_counts_months_with_data_witness :
  exists stats table t,
    results_var no_statistic no_statistic no_statistic
      (fun r => finite (fr_mom r))
      (final_stats log_at_one twelve_month_panel) = Some stats
    /\ monthly_cross_sectional no_statistic no_statistic no_statistic
         (fun r => finite (fr_mom r))
         (final_stats log_at_one twelve_month_panel) = Some table
    /\ dict_get "ts_mean" stats = Some (RStats t)
    /\ ts_count t = Z.of_nat (List.length (months_with_mean table))
    /\ ts_count t <= Z.of_nat (List.length (months_with_data table))
    /\ Z.of_nat (List.length (months_with_data table))
       <= Z.of_nat (List.length
            (n_monthly (final_stats log_at_one twelve_month_panel)))
    /\ (one_sided
          (dropna (map (fun r => finite (fr_mom r))
                       (final_stats log_at_one twelve_month_panel))) = true ->
        ts_count t = Z.of_nat (List.length (months_with_data table))
        /\ 1 <= ts_count t).
Proof.
  apply (time_series_length_counts_months_with_data
           no_statistic no_statistic no_statistic
           (fun r => finite (fr_mom r))
           (final_stats log_at_one twelve_month_panel)).
  vm_compute. reflexivity.
Defined.

Lemma percentile_table_rows_witness :
  exists results,
    results_of no_statistic no_statistic no_statistic variables
      (final_stats log_at_one twelve_month_panel) [] = Some results
    /\ _generate_percentile_distribution_table results variables
         extended_percentiles
       = Some (flat_map
                 (fun vc =>
                    map (percentile_row_of (fst vc)
                           (dropna (map (snd vc)
                                        (final_stats log_at_one
                                           twelve_month_panel))))
                        extended_percentiles)
                 percentile_variables)
    /\ List.length
         (flat_map
            (fun vc =>
               map (percentile_row_of (fst vc)
                      (dropna (map (snd vc)
                                   (final_stats log_at_one
                                      twelve_month_panel))))
                   extended_percentiles)
            percentile_variables) = 108%nat
    /\ (forall vc p,
          In vc percentile_variables ->
          all_finite (dropna (map (snd vc)
                                  (final_stats log_at_one
                                     twelve_month_panel))) = true ->
          exists x,
            pr_overall_value
              (percentile_row_of (fst vc)
                 (dropna (map (snd vc)
                              (final_stats log_at_one twelve_month_panel)))
                 p)
            = RNum (Some (Finite x))).
Proof.
  eexists. split; [vm_compute; reflexivity |].
  apply (percentile_table_rows no_statistic no_statistic no_statistic
           (final_stats log_at_one twelve_month_panel)).
  - vm_compute. reflexivity.
  - vm_compute. reflexivity.
Defined.

Lemma summary_table_always_built_witness :
  exists results table ptable,
    calculate_descriptive_stats
      (fun _ _ => "x"%string) (fun _ _ => "i"%string)
      no_statistic no_statistic no_statistic
      (final_stats log_at_one twelve_month_panel)
    = Some (results, (Some table, Some ptable))
    /\ map fst results = variables
    /\ map (dict_get "Variable") table
       = map (fun name => Some (CText name)) variables
    /\ map (dict_get "Time_Series_Length") table
       = map (fun vc =>
                Some (CValue (RInt (Z.of_nat (List.length
                  (months_with_mean
                     (table_of
                        (monthly_cross_sectional
                           no_statistic no_statistic no_statistic
                           (snd vc)
                           (final_stats log_at_one
                              twelve_month_panel)))))))))
             percentile_variables
         ++ [Some (CValue (RInt (Z.of_nat (List.length
               (n_monthly (final_stats log_at_one twelve_month_panel))))))]
    /\ (all_one_sided (final_stats log_at_one twelve_month_panel) = true ->
        forall vc, In vc percentile_variables ->
          months_with_mean
            (table_of (monthly_cross_sectional
                         no_statistic no_statistic no_statistic
                         (snd vc)
                         (final_stats log_at_one twelve_month_panel)))
          = months_with_data
              (table_of (monthly_cross_sectional
                           no_statistic no_statistic no_statistic
                           (snd vc)
                           (final_stats log_at_one twelve_month_panel))))
    /\ List.length ptable = 108%nat.
Proof.
  apply (summary_table_always_built
           (fun _ _ => "x"%string) (fun _ _ => "i"%string)
           no_statistic no_statistic no_statistic
           (final_stats log_at_one twelve_month_panel)).
  vm_compute. reflexivity.
Defined.
